(** * iphey: the IP-insight lookup service of the Cloudflare worker

    A shallow embedding of [src/services/ipService.worker.ts] (provider
    clients, background revalidation, [lookupIpInsight], [verifyRadarToken]),
    of the worker's route handlers ([src/worker.ts]) and of the Express
    error handler and health route, together with the statements the
    natural-language specification makes about them.  The second half
    covers the rest of the code: the other routes of the worker, the
    minimal worker ([src/worker-minimal.ts]), and what the web pages
    compute ([useTranslations] and the summary of the radar chart).

    Asynchronous code is embedded as a tree of awaited operations
    ([Async]); a handler gives the operations their meaning on an explicit
    [World] (cache store, clock, log of what was done, detached tasks). *)

From Stdlib Require Import ZArith String Ascii List Lia.
From stdpp Require Import base option gmap strings list pretty.

Set Warnings "-register-all".

Open Scope Z_scope.
Open Scope string_scope.
Open Scope list_scope.

(** ** JavaScript values *)

Module Js.

(** A parsed JSON document.  [JObj] holds the own properties of the object
    in insertion order; property names are distinct, as in any JS object. *)
Inductive Json : Type :=
| JNull
| JBool (b : bool)
| JNum (n : Z)
| JStr (s : string)
| JArr (items : list Json)
| JObj (fields : list (string * Json)).

(** What is thrown and caught.  [ApiError] is the class of
    [src/middleware/errorHandler.ts]: an [Error] carrying an HTTP status. *)
Inductive JsError : Type :=
| Error (message : string)
| ApiError (status : Z) (message : string)
| TypeError (message : string)
| SyntaxError (message : string)
| DOMException (name message : string).

(** [err.message] *)
Definition message (e : JsError) : string :=
  match e with
  | Error m | ApiError _ m | TypeError m | SyntaxError m | DOMException _ m => m
  end.

(** How a promise settles. *)
Inductive Outcome (A : Type) : Type :=
| Resolved (a : A)
| Rejected (e : JsError).
Arguments Resolved {A} a.
Arguments Rejected {A} e.

(** [Boolean(v)] for a JSON value. *)
Definition truthy (v : Json) : bool :=
  match v with
  | JNull => false
  | JBool b => b
  | JNum n => negb (Z.eqb n 0)
  | JStr s => negb (String.eqb s "")
  | JArr _ | JObj _ => true
  end.

(** [Boolean(v)] where [None] stands for [undefined] or [null]. *)
Definition truthyOpt (v : option Json) : bool :=
  match v with
  | Some j => truthy j
  | None => false
  end.

(** An optional string binding when it is truthy: unset and empty are both
    falsy, so [!s] holds exactly when [credential s] is [None]. *)
Definition credential (s : option string) : option string :=
  match s with
  | Some t => if String.eqb t "" then None else Some t
  | None => None
  end.

Fixpoint assoc (name : string) (fields : list (string * Json)) : option Json :=
  match fields with
  | [] => None
  | (k, v) :: rest => if String.eqb k name then Some v else assoc name rest
  end.

(** The property read [v.name]: a [TypeError] on [null], [undefined]
    ([None]) on a primitive or when the object has no such property. *)
Definition getProp (v : Json) (name : string) : Outcome (option Json) :=
  match v with
  | JNull => Rejected (TypeError ("Cannot read properties of null (reading '" +:+ name +:+ "')"))
  | JObj fields => Resolved (assoc name fields)
  | _ => Resolved None
  end.

(** Whether a JSON object has the property [name] (false on a non-object). *)
Definition hasField (name : string) (v : Json) : bool :=
  match v with
  | JObj fields => bool_decide (is_Some (assoc name fields))
  | _ => false
  end.

(** [v.name] when it is there, for reading a nested object. *)
Definition field (name : string) (v : Json) : option Json :=
  match v with
  | JObj fields => assoc name fields
  | _ => None
  end.

End Js.
Export Js.

(** ** Data model *)

(** Modelled from the spec: the type [NormalizedIpInsight] of [src/types/ip]
    is not among the sources; section 3 of the specification gives its
    fields, [ip] and six optional strings. *)
Record NormalizedIpInsight : Type := {
  ip : string;
  country : option string;
  region : option string;
  city : option string;
  timezone : option string;
  org : option string;
  loc : option string
}.

(** The bindings of the worker ([Env] of [src/worker/types]), as far as the
    service and the routes read them. *)
Record Env : Type := {
  IPINFO_TOKEN : option string;
  CLOUDFLARE_ACCOUNT_ID : option string;
  CLOUDFLARE_RADAR_TOKEN : option string;
  CACHE_BACKEND : option string
}.

(** Modelled from the spec: [CacheEntry] of the cache module, which is not
    among the sources (section 3: the data and the time it was stored). *)
Record CacheEntry : Type := {
  data : NormalizedIpInsight;
  storedAt : Z
}.

(** ** HTTP as the service sees it *)

(** The [RequestInit] passed to [fetch]: only headers are ever set. *)
Record RequestInit : Type := {
  headers : list (string * string)
}.

(** A [Response]: the status and the body as [response.json()] yields it,
    [None] when the body is not JSON and [json()] rejects. *)
Record Response : Type := {
  status : Z;
  body : option Json
}.

(** [response.ok]: the status is in the range 200-299. *)
Definition ok (r : Response) : bool := Z.leb 200 (status r) && Z.leb (status r) 299.

(** What [fetch] does with a request: it rejects (network failure, or the
    abort that [fetchWithTimeout] arms with [clientTimeout]), or a response
    arrives. *)
Inductive FetchOutcome : Type :=
| FetchRejects (e : JsError)
| FetchResponds (r : Response).

(** ** Asynchronous computations *)

Inductive Level : Type := Debug | Warn | LogError.

(** The operations the service awaits. *)
Inductive Op : Type -> Type :=
| GetWithStale (key : string) : Op (option CacheEntry * bool)
| CacheSet (key : string) (value : NormalizedIpInsight) : Op unit
| Fetch (url : string) (init : RequestInit) : Op FetchOutcome
| Log (level : Level) (msg : string) (err : option JsError) : Op unit
| DateNow : Op Z.

(** An [async] function body: it returns, throws, awaits an operation,
    hands a factory to the request deduplicator and awaits what comes of it
    ([requestDeduplicator], the one instance the service uses, holds
    insights), or starts a promise that nobody awaits. *)
Inductive Async (A : Type) : Type :=
| Return (a : A)
| Throw (e : JsError)
| Await {X : Type} (op : Op X) (k : X -> Async A)
| Deduplicate (key : string) (factory : Async NormalizedIpInsight)
    (k : Outcome NormalizedIpInsight -> Async A)
| Detach (task : Async unit) (k : unit -> Async A).
Arguments Return {A} a.
Arguments Throw {A} e.
Arguments Await {A X} op k.
Arguments Deduplicate {A} key factory k.
Arguments Detach {A} task k.

Fixpoint bind {A B : Type} (m : Async A) (f : A -> Async B) : Async B :=
  match m with
  | Return a => f a
  | Throw e => Throw e
  | Await op k => Await op (fun x => bind (k x) f)
  | Deduplicate key factory k => Deduplicate key factory (fun r => bind (k r) f)
  | Detach task k => Detach task (fun u => bind (k u) f)
  end.

#[export] Instance Async_ret : MRet Async := @Return.
#[export] Instance Async_bind : MBind Async := fun A B f m => bind m f.

(** [try { body } catch (error) { handler error }] *)
Fixpoint tryCatch {A : Type} (body : Async A) (handler : JsError -> Async A) : Async A :=
  match body with
  | Return a => Return a
  | Throw e => handler e
  | Await op k => Await op (fun x => tryCatch (k x) handler)
  | Deduplicate key factory k => Deduplicate key factory (fun r => tryCatch (k r) handler)
  | Detach task k => Detach task (fun u => tryCatch (k u) handler)
  end.

(** [await op] *)
Definition await {X : Type} (op : Op X) : Async X := Await op Return.

(** [await promise] for a promise that has settled with [r]. *)
Definition settle {A : Type} (r : Outcome A) : Async A :=
  match r with
  | Resolved a => Return a
  | Rejected e => Throw e
  end.

(** ** The service: [createWorkerIpService env] *)

Section Service.

Variable env : Env.
(** The platform's [encodeURIComponent]. *)
Variable encodeURIComponent : string -> string.
(** The normalizers of [src/services/ipNormalization], which is not among
    the sources: total functions of the provider's payload. *)
Variable normalizeIpInfo : Json -> NormalizedIpInsight.
Variable normalizeRadar : Json -> NormalizedIpInsight.

Definition CF_BASE : string := "https://api.cloudflare.com/client/v4".

(** [fetch] under the abort timer: the outcome of the request, a rejection
    rethrown to the caller. *)
Definition fetchWithTimeout (url : string) (init : RequestInit) : Async Response :=
  out ← await (Fetch url init);
  match out with
  | FetchRejects e => Throw e
  | FetchResponds r => Return r
  end.

(** [await response.json()] *)
Definition json (response : Response) : Async Json :=
  match body response with
  | Some j => Return j
  | None => Throw (SyntaxError "Unexpected token in JSON")
  end.

Definition ipinfoUrl (ip token : string) : string :=
  "https://ipinfo.io/" +:+ encodeURIComponent ip +:+ "/json?token=" +:+ token.

Definition fetchIpInfoWorker (ip : string) : Async (option Json) :=
  match credential (IPINFO_TOKEN env) with
  | None => Return None
  | Some token =>
      response ← fetchWithTimeout (ipinfoUrl ip token)
                   {| headers := [("Accept", "application/json")] |};
      if negb (ok response)
      then Throw (Error ("ipinfo request failed: " +:+ pretty (status response)))
      else payload ← json response; Return (Some payload)
  end.

Definition radarUrl (account ip : string) : string :=
  CF_BASE +:+ "/accounts/" +:+ account +:+ "/intelligence/ip?ip=" +:+ encodeURIComponent ip.

Definition radarHeaders (token : string) : RequestInit :=
  {| headers := [("Authorization", "Bearer " +:+ token);
                 ("Content-Type", "application/json")] |}.

Definition fetchRadarWorker (ip : string) : Async (option Json) :=
  match credential (CLOUDFLARE_ACCOUNT_ID env), credential (CLOUDFLARE_RADAR_TOKEN env) with
  | Some account, Some token =>
      response ← fetchWithTimeout (radarUrl account ip) (radarHeaders token);
      if negb (ok response)
      then Throw (Error ("Cloudflare Radar request failed: " +:+ pretty (status response)))
      else
        payload ← json response;
        success ← settle (getProp payload "success");
        if negb (truthyOpt success)
        then Throw (Error "Radar lookup unsuccessful")
        else settle (getProp payload "result")
  | _, _ => Return None
  end.

(** [if (payload) { insight = normalize(payload); }] on an [insight] that is
    still [null]. *)
Definition insightOf (normalize : Json -> NormalizedIpInsight) (payload : option Json)
  : option NormalizedIpInsight :=
  match payload with
  | Some j => if truthy j then Some (normalize j) else None
  | None => None
  end.

(** One provider attempt: the [try] block around a fetch, whose [catch]
    logs [msg] and leaves [insight] null. *)
Definition attempt (fetcher : Async (option Json)) (normalize : Json -> NormalizedIpInsight)
    (msg : string) : Async (option NormalizedIpInsight) :=
  tryCatch (payload ← fetcher; Return (insightOf normalize payload))
           (fun error => _ ← await (Log Warn msg (Some error)); Return None).

Definition revalidateIpInsight (ip : string) : Async unit :=
  tryCatch
    (insight ← attempt (fetchIpInfoWorker ip) normalizeIpInfo "ipinfo revalidation failed";
     insight ← match insight with
               | Some i => Return (Some i)
               | None => attempt (fetchRadarWorker ip) normalizeRadar
                           "Cloudflare Radar revalidation failed"
               end;
     match insight with
     | Some i =>
         _ ← await (CacheSet ip i);
         await (Log Debug "Background revalidation completed" None)
     | None => Return tt
     end)
    (fun error => await (Log Warn "Background revalidation error" (Some error))).

(** The closure [lookupIpInsight] passes to the deduplicator. *)
Definition lookupFactory (ip : string) : Async NormalizedIpInsight :=
  '(cachedAfterLock, _) ← await (GetWithStale ip);
  match cachedAfterLock with
  | Some entry => Return (data entry)
  | None =>
      insight ← attempt (fetchIpInfoWorker ip) normalizeIpInfo "ipinfo lookup failed";
      insight ← match insight with
                | Some i => Return (Some i)
                | None => attempt (fetchRadarWorker ip) normalizeRadar
                            "Cloudflare Radar lookup failed"
                end;
      match insight with
      | None => Throw (ApiError 502 "Unable to fetch IP intelligence")
      | Some i => _ ← await (CacheSet ip i); Return i
      end
  end.

(** [revalidateIpInsight(ip).catch(...)]: the promise the stale path starts
    and does not await. *)
Definition backgroundRevalidation (ip : string) : Async unit :=
  tryCatch (revalidateIpInsight ip)
           (fun error => await (Log Warn "Background revalidation failed" (Some error))).

Definition lookupIpInsight (ip : string) : Async NormalizedIpInsight :=
  '(cached, isStale) ← await (GetWithStale ip);
  match cached with
  | Some entry =>
      _ ← (if isStale : bool
           then _ ← await (Log Debug "Serving stale data, revalidating in background" None);
                Detach (backgroundRevalidation ip) Return
           else Return tt);
      Return (data entry)
  | None => Deduplicate ("ip:" +:+ ip) (lookupFactory ip) settle
  end.

Definition verifyUrl (account : string) : string :=
  CF_BASE +:+ "/accounts/" +:+ account +:+ "/tokens/verify".

Definition verifyRadarToken : Async bool :=
  match credential (CLOUDFLARE_ACCOUNT_ID env), credential (CLOUDFLARE_RADAR_TOKEN env) with
  | Some account, Some token =>
      tryCatch
        (response ← fetchWithTimeout (verifyUrl account) (radarHeaders token);
         if negb (ok response)
         then Return false
         else
           payload ← json response;
           success ← settle (getProp payload "success");
           Return (truthyOpt success))
        (fun error =>
           _ ← await (Log Warn "Radar token verification failed" (Some error));
           Return false)
  | _, _ => Return false
  end.

End Service.

(** ** Regular expressions, as far as the routes use them *)

Module Regex.

Inductive Regex : Type :=
| Never
| Empty
| Class (p : ascii -> bool)
| Cat (r1 r2 : Regex)
| Alt (r1 r2 : Regex).

Fixpoint nullable (r : Regex) : bool :=
  match r with
  | Never => false
  | Empty => true
  | Class _ => false
  | Cat r1 r2 => nullable r1 && nullable r2
  | Alt r1 r2 => nullable r1 || nullable r2
  end.

(** What is left of [r] to match once [c] has been read. *)
Fixpoint derive (c : ascii) (r : Regex) : Regex :=
  match r with
  | Never => Never
  | Empty => Never
  | Class p => if p c then Empty else Never
  | Cat r1 r2 =>
      if nullable r1
      then Alt (Cat (derive c r1) r2) (derive c r2)
      else Cat (derive c r1) r2
  | Alt r1 r2 => Alt (derive c r1) (derive c r2)
  end.

(** [/^r$/.test(s)]: the whole of [s] matches [r]. *)
Fixpoint test (r : Regex) (s : string) : bool :=
  match s with
  | EmptyString => nullable r
  | String c rest => test (derive c r) rest
  end.

(** [\d] *)
Definition digit : Regex :=
  Class (fun c => (48 <=? nat_of_ascii c)%nat && (nat_of_ascii c <=? 57)%nat).

(** A literal character. *)
Definition chr (a : ascii) : Regex := Class (Ascii.eqb a).

(** [r{n}] *)
Fixpoint times (n : nat) (r : Regex) : Regex :=
  match n with
  | O => Empty
  | S m => Cat r (times m r)
  end.

(** [r{0,n}] *)
Fixpoint upTo (n : nat) (r : Regex) : Regex :=
  match n with
  | O => Empty
  | S m => Alt Empty (Cat r (upTo m r))
  end.

(** [r{lo,hi}] *)
Definition between (lo hi : nat) (r : Regex) : Regex :=
  Cat (times lo r) (upTo (hi - lo) r).

End Regex.

(** ** The routes of the worker *)

(** [c.json(value, status)] *)
Definition jsonResponse (value : Json) (code : Z) : Response :=
  {| status := code; body := Some value |}.

(** An optional property of an object literal: left out when undefined. *)
Definition optionalField (name : string) (value : option string) : list (string * Json) :=
  match value with
  | Some s => [(name, JStr s)]
  | None => []
  end.

(** A [NormalizedIpInsight] as [c.json] serializes it. *)
Definition insightJson (i : NormalizedIpInsight) : Json :=
  JObj ([("ip", JStr (ip i))]
        ++ optionalField "country" (country i)
        ++ optionalField "region" (region i)
        ++ optionalField "city" (city i)
        ++ optionalField "timezone" (timezone i)
        ++ optionalField "org" (org i)
        ++ optionalField "loc" (loc i)).

(** [/^(\d{1,3}\.){3}\d{1,3}$/] *)
Definition ipPattern : Regex.Regex :=
  Regex.Cat
    (Regex.times 3 (Regex.Cat (Regex.between 1 3 Regex.digit) (Regex.chr ".")))
    (Regex.between 1 3 Regex.digit).

(** [!ip || !pattern.test(ip)] for a route parameter: what the IP routes
    take for a malformed address. *)
Definition invalidIp (param : option string) : bool :=
  match param with
  | None => true
  | Some ip => String.eqb ip "" || negb (Regex.test ipPattern ip)
  end.

Section Routes.

Variable env : Env.
Variable encodeURIComponent : string -> string.
Variable normalizeIpInfo : Json -> NormalizedIpInsight.
Variable normalizeRadar : Json -> NormalizedIpInsight.

(** The [catch] of the IP routes: log, then answer 500 with the message of
    what was thrown. *)
Definition internalServerError (msg : string) (error : JsError) : Async Response :=
  _ ← await (Log LogError msg (Some error));
  Return (jsonResponse
            (JObj [("error", JStr "Internal Server Error");
                   ("message", JStr (message error))])
            500).

(** [app.get('/api/v1/ip/:ip', ...)], given [c.req.param('ip')]. *)
Definition getIp (param : option string) : Async Response :=
  tryCatch
    (match param with
     | Some ip =>
         if String.eqb ip "" || negb (Regex.test ipPattern ip)
         then Return (jsonResponse (JObj [("error", JStr "Invalid IP address")]) 400)
         else
           result ← lookupIpInsight env encodeURIComponent normalizeIpInfo normalizeRadar ip;
           Return (jsonResponse (insightJson result) 200)
     | None => Return (jsonResponse (JObj [("error", JStr "Invalid IP address")]) 400)
     end)
    (internalServerError "Basic IP lookup failed").

(** [app.get('/api/health', ...)] *)
Definition getHealth : Async Response :=
  radarHealthy ← verifyRadarToken env;
  uptime ← await DateNow;
  timestamp ← await DateNow;
  Return (jsonResponse
            (JObj [("status", JStr "ok");
                   ("version", JStr "1.0.0");
                   ("environment", JStr "cloudflare-workers");
                   ("uptime", JNum uptime);
                   ("cache", JObj [("backend", JStr (default "kv" (CACHE_BACKEND env)));
                                   ("enabled", JBool true)]);
                   ("radarHealthy", JBool radarHealthy);
                   ("timestamp", JNum timestamp)])
            200).

End Routes.

(** ** The Express server: error handler and health route *)

Module Express.

(** [errorHandler] of [src/middleware/errorHandler.ts]: the status of an
    [ApiError], 500 for anything else; [details] is never set by the
    service and is left out of the payload. *)
Definition errorHandler (err : JsError) : Async Response :=
  let code := match err with
              | ApiError s _ => s
              | _ => 500
              end in
  let payload := JObj [("error", JStr (message err))] in
  _ ← (if Z.leb 500 code
       then await (Log LogError "Unhandled error" (Some err))
       else await (Log Warn "Handled error" (Some err)));
  Return (jsonResponse payload code).

(** The configuration the health route reads. *)
Record Config : Type := {
  NODE_ENV : string;
  IPINFO_TOKEN : option string;
  CLOUDFLARE_ACCOUNT_ID : option string;
  CLOUDFLARE_RADAR_TOKEN : option string;
  CACHE_BACKEND : string;
  CACHE_WARMING_ENABLED : bool
}.

(** What the route asks the cache warmer. *)
Record CacheWarmer : Type := {
  isInProgress : bool;
  getWarmedCount : Z
}.

(** A boolean or [null]. *)
Definition nullable (b : option bool) : Json :=
  match b with
  | Some v => JBool v
  | None => JNull
  end.

(** [healthRouter.get('/health', ...)] of [src/routes/health.ts];
    [verifyRadarToken] is the client's probe, [uptime] what
    [process.uptime()] returns. *)
Definition health (config : Config) (appVersion : string) (uptime : Z)
    (verifyRadarToken : Async bool) (cacheWarmer : CacheWarmer) : Async Response :=
  radarHealthy ← match credential (CLOUDFLARE_ACCOUNT_ID config),
                       credential (CLOUDFLARE_RADAR_TOKEN config) with
                 | Some _, Some _ => b ← verifyRadarToken; Return (Some b)
                 | _, _ => Return None
                 end;
  timestamp ← await DateNow;
  Return (jsonResponse
            (JObj [("status", JStr "ok");
                   ("version", JStr appVersion);
                   ("env", JStr (NODE_ENV config));
                   ("uptime", JNum uptime);
                   ("ipinfoConfigured",
                    JBool (bool_decide (is_Some (credential (IPINFO_TOKEN config)))));
                   ("radarHealthy", nullable radarHealthy);
                   ("cache",
                    JObj [("backend", JStr (CACHE_BACKEND config));
                          ("warmingEnabled", JBool (CACHE_WARMING_ENABLED config));
                          ("warmingInProgress", JBool (isInProgress cacheWarmer));
                          ("warmedCount", JNum (getWarmedCount cacheWarmer))]);
                   ("timestamp", JNum timestamp)])
            200).

End Express.

(** ** The world the service runs in *)

(** What an operation leaves in the log. *)
Inductive Event : Type :=
| EvGetWithStale (key : string)
| EvCacheSet (key : string) (value : NormalizedIpInsight)
| EvFetch (url : string) (init : RequestInit)
| EvLog (level : Level) (msg : string) (err : option JsError).

(** The cache store, the clock, the log (newest event first) and the
    promises started without being awaited (newest first). *)
Record World : Type := {
  store : gmap string CacheEntry;
  now : Z;
  log : list Event;
  detached : list (Async unit)
}.

Definition record (ev : Event) (w : World) : World :=
  {| store := store w; now := now w; log := ev :: log w; detached := detached w |}.

Definition isFetch (ev : Event) : bool :=
  match ev with
  | EvFetch _ _ => true
  | _ => false
  end.

Definition isCacheSet (ev : Event) : bool :=
  match ev with
  | EvCacheSet _ _ => true
  | _ => false
  end.

(** The network requests of a log, newest first as the log is. *)
Definition fetches (l : list Event) : list Event := List.filter isFetch l.

(** The cache writes of a log, newest first. *)
Definition cacheSets (l : list Event) : list Event := List.filter isCacheSet l.

Section Semantics.

(** The options [createWorkerIpService] gives the cache: what
    [parseNumber] makes of [CACHE_TTL_MS] and [CACHE_STALE_TTL_MS], any two
    numbers here. *)
Variable ttlMs : Z.
Variable staleTtlMs : Z.

(** The network: what a request meets, given its URL and init.  One lookup
    sends a URL at most once, so a function of the request covers every
    behaviour of the providers during it. *)
Variable net : string -> RequestInit -> FetchOutcome.

(** Modelled from the spec: the cache created by [createCache] is not among
    the sources.  Section 3 and 4.1: an entry no older than [ttlMs] is
    fresh, one no older than [staleTtlMs] is stale but usable, an older one
    is absent; expiry is decided when the entry is read. *)
Definition getWithStale (key : string) (w : World) : option CacheEntry * bool :=
  match store w !! key with
  | None => (None, false)
  | Some entry =>
      let age := now w - storedAt entry in
      if Z.leb age ttlMs then (Some entry, false)
      else if Z.leb age staleTtlMs then (Some entry, true)
      else (None, false)
  end.

(** Modelled from the spec: [set] replaces the whole entry and stamps it
    with the current time (section 3, lifecycle of [CacheEntry]). *)
Definition cacheSet (key : string) (value : NormalizedIpInsight) (w : World) : World :=
  {| store := <[key := {| data := value; storedAt := now w |}]> (store w);
     now := now w; log := log w; detached := detached w |}.

Definition perform {X : Type} (op : Op X) (w : World) : X * World :=
  match op in Op X return X * World with
  | GetWithStale key => (getWithStale key w, record (EvGetWithStale key) w)
  | CacheSet key value => (tt, record (EvCacheSet key value) (cacheSet key value w))
  | Fetch url init => (net url init, record (EvFetch url init) w)
  | Log level msg err => (tt, record (EvLog level msg err) w)
  | DateNow => (now w, w)
  end.

Definition detach (task : Async unit) (w : World) : World :=
  {| store := store w; now := now w; log := log w; detached := task :: detached w |}.

(** A computation run to its settlement while nothing else is in flight.
    With no resolution pending for the key, the deduplicator invokes the
    factory and hands its settlement to the caller; a detached promise is
    queued and runs after the caller has its answer. *)
Fixpoint run {A : Type} (p : Async A) (w : World) : Outcome A * World :=
  match p with
  | Return a => (Resolved a, w)
  | Throw e => (Rejected e, w)
  | Await op k => let (x, w') := perform op w in run (k x) w'
  | Deduplicate _ factory k => let (r, w') := run factory w in run (k r) w'
  | Detach task k => run (k tt) (detach task w)
  end.

End Semantics.

Arguments getWithStale : simpl never.

(** ** Concurrent callers and the request deduplicator *)

(** A task of the isolate: running, waiting for the pending resolution of a
    key, or settled. *)
Inductive Task : Type :=
| Running (p : Async NormalizedIpInsight)
| Waiting (key : string) (k : Outcome NormalizedIpInsight -> Async NormalizedIpInsight)
| Settled (r : Outcome NormalizedIpInsight).

(** The isolate: the world, the resolutions in flight by key, the callers,
    and how many times a factory has been invoked so far. *)
Record System : Type := {
  world : World;
  pending : gmap string Task;
  callers : list Task;
  invoked : nat
}.

(** What the scheduler may run next: a caller, or the factory in flight for
    a key. *)
Inductive Choice : Type :=
| StepCaller (i : nat)
| StepFactory (key : string).

Section Scheduler.

Variable ttlMs : Z.
Variable staleTtlMs : Z.
Variable net : string -> RequestInit -> FetchOutcome.

(** Modelled from the spec: the request deduplicator of
    [src/utils/requestDeduplication] is not among the sources.  Section
    4.2: the first caller for a key invokes the factory and registers the
    pending result under the key; a caller that finds the key pending
    receives that same result.

    One turn of a task: up to its next suspension point.  Every awaited
    operation ends a turn, so the interleavings of the event loop are among
    those a schedule can take; a detached promise stays queued in the
    world. *)
Definition advance (t : Task) (w : World) (pend : gmap string Task) (n : nat)
  : Task * World * gmap string Task * nat :=
  match t with
  | Running (Return a) => (Settled (Resolved a), w, pend, n)
  | Running (Throw e) => (Settled (Rejected e), w, pend, n)
  | Running (Await op k) =>
      let (x, w') := perform ttlMs staleTtlMs net op w in (Running (k x), w', pend, n)
  | Running (Detach task k) => (Running (k tt), detach task w, pend, n)
  | Running (Deduplicate key factory k) =>
      match pend !! key with
      | Some _ => (Waiting key k, w, pend, n)
      | None => (Waiting key k, w, <[key := Running factory]> pend, S n)
      end
  | Waiting _ _ | Settled _ => (t, w, pend, n)
  end.

(** Modelled from the spec: section 4.2, on settlement every waiter of the
    key receives the settlement. *)
Definition release (key : string) (r : Outcome NormalizedIpInsight) (t : Task) : Task :=
  match t with
  | Waiting key' k => if String.eqb key' key then Running (k r) else t
  | _ => t
  end.

(** Modelled from the spec: section 4.2, the key leaves the pending set the
    instant its resolution settles.

    One scheduling step.  A choice that names no caller, no pending key, or
    a task that is waiting or settled, changes nothing. *)
Definition step (s : System) (c : Choice) : System :=
  match c with
  | StepCaller i =>
      match callers s !! i with
      | Some t =>
          let '(t', w', pend', n') := advance t (world s) (pending s) (invoked s) in
          {| world := w'; pending := pend'; callers := <[i := t']> (callers s); invoked := n' |}
      | None => s
      end
  | StepFactory key =>
      match pending s !! key with
      | Some t =>
          let '(t', w', pend', n') := advance t (world s) (pending s) (invoked s) in
          match t' with
          | Settled r =>
              {| world := w';
                 pending := release key r <$> delete key pend';
                 callers := release key r <$> callers s;
                 invoked := n' |}
          | _ =>
              {| world := w'; pending := <[key := t']> pend'; callers := callers s;
                 invoked := n' |}
          end
      | None => s
      end
  end.

(** A schedule, run from a state. *)
Definition schedule (cs : list Choice) (s : System) : System := fold_left step cs s.

(** [programs] called at once in a world where nothing is in flight. *)
Definition start (programs : list (Async NormalizedIpInsight)) (w : World) : System :=
  {| world := w; pending := ∅; callers := Running <$> programs; invoked := 0 |}.

Definition isWaiting (t : Task) : bool :=
  match t with
  | Waiting _ _ => true
  | _ => false
  end.

Definition isSettled (t : Task) : bool :=
  match t with
  | Settled _ => true
  | _ => false
  end.

(** How many turns a computation takes from a world (a deduplicated call
    is not counted: the factories in flight make none). *)
Fixpoint turns {A : Type} (p : Async A) (w' : World) : nat :=
  match p with
  | Return _ | Throw _ => 1
  | Await op k => let (x, w'') := perform ttlMs staleTtlMs net op w' in S (turns (k x) w'')
  | Detach task k => S (turns (k tt) (detach task w'))
  | Deduplicate _ _ _ => 0
  end.

End Scheduler.

(** ** Vocabulary of the statements *)

(** The init [fetchIpInfoWorker] passes to [fetch]. *)
Definition ipinfoInit : RequestInit := {| headers := [("Accept", "application/json")] |}.

(** A provider fetch that gives no insight: it threw, or what it returned is
    not truthy. *)
Definition noInsight (r : Outcome (option Json)) : Prop :=
  match r with
  | Rejected _ => True
  | Resolved payload => truthyOpt payload = false
  end.

Section Requests.

Variable env : Env.
Variable encodeURIComponent : string -> string.
Variable normalizeIpInfo : Json -> NormalizedIpInsight.
Variable normalizeRadar : Json -> NormalizedIpInsight.

(** The requests a provider client sends for an address: one when it has
    its credentials, none otherwise. *)
Definition primaryFetches (ip : string) : list Event :=
  match credential (IPINFO_TOKEN env) with
  | Some token => [EvFetch (ipinfoUrl encodeURIComponent ip token) ipinfoInit]
  | None => []
  end.

Definition secondaryFetches (ip : string) : list Event :=
  match credential (CLOUDFLARE_ACCOUNT_ID env), credential (CLOUDFLARE_RADAR_TOKEN env) with
  | Some account, Some token =>
      [EvFetch (radarUrl encodeURIComponent account ip) (radarHeaders token)]
  | _, _ => []
  end.

(** The two attempts of a lookup or a revalidation, one after the other:
    the secondary is tried only when the primary left [insight] null. *)
Definition attempts (ip msg1 msg2 : string) : Async (option NormalizedIpInsight) :=
  insight ← attempt (fetchIpInfoWorker env encodeURIComponent ip) normalizeIpInfo msg1;
  match insight with
  | Some i => Return (Some i)
  | None => attempt (fetchRadarWorker env encodeURIComponent ip) normalizeRadar msg2
  end.

End Requests.

(** ** Notions the proofs rest on *)

(** The world with [evs] (newest first) added to its log. *)
Definition appendLog (evs : list Event) (w : World) : World :=
  {| store := store w; now := now w; log := evs ++ log w; detached := detached w |}.

(** A world with nothing in it, to read off what a computation does by
    itself. *)
Definition blank : World := {| store := ∅; now := 0; log := []; detached := [] |}.

(** Built from [Fetch] and [Log] alone: no cache access, no deduplication,
    no detached promise. *)
Inductive NetLog : forall {A : Type}, Async A -> Prop :=
| NetLog_Return {A} (a : A) : NetLog (Return a)
| NetLog_Throw {A} (e : JsError) : NetLog (@Throw A e)
| NetLog_Fetch {A} url init (k : FetchOutcome -> Async A) :
    (forall x, NetLog (k x)) -> NetLog (Await (Fetch url init) k)
| NetLog_Log {A} level msg err (k : unit -> Async A) :
    (forall x, NetLog (k x)) -> NetLog (Await (Log level msg err) k).

Create HintDb netlog.
#[export] Hint Constructors NetLog : netlog.

(** Same store, same clock, same network requests and same cache writes. *)
Definition sameEffects (w1 w2 : World) : Prop :=
  store w1 = store w2 /\ now w1 = now w2 /\
  fetches (log w1) = fetches (log w2) /\ cacheSets (log w1) = cacheSets (log w2).

(** Settling the same way and leaving the same effects. *)
Definition sameRun {A : Type} (x y : Outcome A * World) : Prop :=
  x.1 = y.1 /\ sameEffects x.2 y.2.

(** No deduplicated call anywhere in the computation. *)
Fixpoint DedupFree {A : Type} (p : Async A) : Prop :=
  match p with
  | Return _ | Throw _ => True
  | Await _ k => forall x, DedupFree (k x)
  | Deduplicate _ _ _ => False
  | Detach _ k => forall u, DedupFree (k u)
  end.

(** *** Where concurrent lookups of one address stand *)

Section Invariants.

Variable env : Env.
Variable encodeURIComponent : string -> string.
Variable normalizeIpInfo : Json -> NormalizedIpInsight.
Variable normalizeRadar : Json -> NormalizedIpInsight.
Variable ttlMs : Z.
Variable staleTtlMs : Z.
Variable net : string -> RequestInit -> FetchOutcome.

(** The address all callers ask for, and the world they start in. *)
Variable ip : string.
Variable w : World.

Local Abbreviation exec := (run ttlMs staleTtlMs net).
Local Abbreviation lookup := (lookupIpInsight env encodeURIComponent normalizeIpInfo normalizeRadar ip).
Local Abbreviation fac := (lookupFactory env encodeURIComponent normalizeIpInfo normalizeRadar ip).
Local Abbreviation key := ("ip:" +:+ ip).

(** Where a caller of [lookupIpInsight ip] can be: about to read the cache,
    about to enter the deduplicator, waiting for the pending resolution, or
    past the deduplicator for good. *)
Definition Fresh (t : Task) : Prop := t = Running lookup.
Definition AtDedup (t : Task) : Prop := t = Running (Deduplicate key fac settle).
Definition Wait (t : Task) : Prop := t = Waiting key settle.
Definition Gone (t : Task) : Prop :=
  match t with
  | Running p => DedupFree p
  | Settled _ => True
  | Waiting _ _ => False
  end.
Definition Known (t : Task) : Prop := Fresh t \/ AtDedup t \/ Wait t \/ Gone t.

(** While no caller is past the deduplicator: either nobody has entered
    it and nothing is in flight, or exactly one factory has been invoked,
    it is the one in flight under the key, somebody waits for it, and what
    is left of it settles as the whole factory does from [w]. *)
Definition Core (s : System) : Prop :=
  (pending s = ∅ /\ invoked s = 0%nat /\
   Forall (fun t => Fresh t \/ AtDedup t) (callers s) /\
   sameEffects (world s) w)
  \/
  (exists p,
     pending s = {[key := Running p]} /\ invoked s = 1%nat /\
     Forall (fun t => Fresh t \/ AtDedup t \/ Wait t) (callers s) /\
     Exists Wait (callers s) /\
     DedupFree p /\
     sameRun (exec p (world s)) (exec fac w)).

(** What holds of the system as long as the callers are entering. *)
Definition Entering (s : System) : Prop :=
  Forall Known (callers s) /\ (Exists Gone (callers s) \/ Core s).

(** Once every caller waits: the one factory is in flight and all wait for
    it, or it has settled with [r], the key is gone, and every caller has
    [r] in hand. *)
Definition Resolving (s : System) : Prop :=
  (exists p,
     pending s = {[key := Running p]} /\ invoked s = 1%nat /\
     Forall Wait (callers s) /\ DedupFree p /\
     sameRun (exec p (world s)) (exec fac w))
  \/
  (exists r,
     pending s = ∅ /\ invoked s = 1%nat /\
     Forall (fun t => t = Running (settle r) \/ t = Settled r) (callers s) /\
     sameRun (r, world s) (exec fac w)).

(** While callers only enter: the address stays uncached and every caller
    is before, at, or waiting in the deduplicator. *)
Definition Quiet (s : System) : Prop :=
  store (world s) !! ip = None /\
  Forall (fun t => Fresh t \/ AtDedup t \/ Wait t) (callers s).

(** Each caller in [l] takes two turns: it reads the cache, then enters
    the deduplicator. *)
Definition enter (l : list nat) : list Choice :=
  flat_map (fun i => [StepCaller i; StepCaller i]) l.

(** The factory has settled with [r]: nothing is pending and every caller
    has [r] in hand. *)
Definition Done (r : Outcome NormalizedIpInsight) (s : System) : Prop :=
  pending s = ∅ /\
  Forall (fun t => t = Running (settle r) \/ t = Settled r) (callers s).

End Invariants.

(** * More of the code *)

(** ** The other routes of the worker *)

(** [s.split(sep)] for a separator of one character: the pieces between the
    separators, in order; there is always at least one. *)
Fixpoint split (sep : ascii) (s : string) : list string :=
  match s with
  | EmptyString => [EmptyString]
  | String c rest =>
      if Ascii.eqb c sep then EmptyString :: split sep rest
      else match split sep rest with
           | piece :: pieces => String c piece :: pieces
           | [] => [String c EmptyString]
           end
  end.

(** [!!s] for a binding or a header that may be missing. *)
Definition isSet (s : option string) : bool := bool_decide (is_Some (credential s)).

(** [c.req.header('cf-connecting-ip') ||
     c.req.header('x-forwarded-for')?.split(',')[0] || '127.0.0.1'] *)
Definition clientIp (cfConnectingIp xForwardedFor : option string) : string :=
  match credential cfConnectingIp with
  | Some ip => ip
  | None =>
      match credential (xForwardedFor ≫= fun x => head (split "," x)) with
      | Some ip => ip
      | None => "127.0.0.1"
      end
  end.

(** [value || 'Unknown'] *)
Definition orUnknown (value : option string) : Json :=
  JStr (default "Unknown" (credential value)).

(** [result.loc?.split(',')[i] || 0] *)
Definition coordinate (i : nat) (loc : option string) : Json :=
  match credential (loc ≫= fun x => split "," x !! i) with
  | Some part => JStr part
  | None => JNum 0
  end.

(** The object the two enhanced routes answer with, given the address, the
    insight and [new Date().toISOString()]. *)
Definition enhancedAnalysis (ip : string) (result : NormalizedIpInsight) (timestamp : string)
  : Json :=
  JObj [("ip", JStr ip);
        ("geolocation",
         JObj [("country", orUnknown (country result));
               ("region", orUnknown (region result));
               ("city", orUnknown (city result));
               ("latitude", coordinate 0 (loc result));
               ("longitude", coordinate 1 (loc result));
               ("timezone", orUnknown (timezone result))]);
        ("threats",
         JObj [("threat_score", JNum 5);
               ("threat_level", JStr "low");
               ("is_malicious", JBool false)]);
        ("asn_analysis",
         JObj [("asn", JStr (if isSet (org result) then "Unknown" else "Unknown"));
               ("org", orUnknown (org result));
               ("country", orUnknown (country result))]);
        ("risk_assessment",
         JObj [("overall_score", JNum 5);
               ("overall_level", JStr "low");
               ("factors", JArr [JStr "No significant risk factors detected"]);
               ("recommendation", JStr "Low risk. Normal processing recommended.")]);
        ("sources_used", JArr [JStr "ipinfo"]);
        ("analysis_timestamp", JStr timestamp)].

(** The service object of [createWorkerIpService]. *)
Record WorkerIpService : Type := {
  serviceLookupIpInsight : string -> Async NormalizedIpInsight;
  serviceVerifyRadarToken : Async bool
}.

(** [workerGlobal]: what the isolate keeps between requests. *)
Record WorkerGlobal : Type := {
  ipCacheInitialized : bool;
  workerServices : option WorkerIpService
}.

Section Worker.

Variable encodeURIComponent : string -> string.
Variable normalizeIpInfo : Json -> NormalizedIpInsight.
Variable normalizeRadar : Json -> NormalizedIpInsight.

Definition createWorkerIpService (env : Env) : WorkerIpService :=
  {| serviceLookupIpInsight := lookupIpInsight env encodeURIComponent normalizeIpInfo normalizeRadar;
     serviceVerifyRadarToken := verifyRadarToken env |}.

(** [getWorkerIpService]: the service of the isolate, created on the first
    call. *)
Definition getWorkerIpService (env : Env) (g : WorkerGlobal) : WorkerIpService * WorkerGlobal :=
  match workerServices g with
  | Some services => (services, g)
  | None =>
      let services := createWorkerIpService env in
      (services, {| ipCacheInitialized := ipCacheInitialized g;
                    workerServices := Some services |})
  end.

(** One call of [getWorkerIpService] per request, in the order the requests
    come with their bindings. *)
Fixpoint servicesOf (envs : list Env) (g : WorkerGlobal) : list WorkerIpService :=
  match envs with
  | [] => []
  | env :: rest =>
      let (services, g') := getWorkerIpService env g in services :: servicesOf rest g'
  end.

(** The bindings of the request, [c.env], which are also those the
    service of the isolate was created from. *)
Variable env : Env.

(** [app.get('/api/ip/:ip', ...)] *)
Definition getIpLegacy (param : option string) : Async Response :=
  tryCatch
    (match param with
     | Some ip =>
         if String.eqb ip "" || negb (Regex.test ipPattern ip)
         then Return (jsonResponse (JObj [("error", JStr "Invalid IP address")]) 400)
         else
           result ← lookupIpInsight env encodeURIComponent normalizeIpInfo normalizeRadar ip;
           Return (jsonResponse (insightJson result) 200)
     | None => Return (jsonResponse (JObj [("error", JStr "Invalid IP address")]) 400)
     end)
    (internalServerError "IP lookup failed").

(** [app.get('/api/v1/ip', ...)], given the two headers it reads. *)
Definition getClientIp (cfConnectingIp xForwardedFor : option string) : Async Response :=
  tryCatch
    (let ip := clientIp cfConnectingIp xForwardedFor in
     result ← lookupIpInsight env encodeURIComponent normalizeIpInfo normalizeRadar ip;
     Return (jsonResponse (insightJson result) 200))
    (internalServerError "Basic IP lookup failed").

(** [app.get('/api/v1/services/status', ...)]; [abuseipdbApiKey] is
    [c.env.ABUSEIPDB_API_KEY]. *)
Definition getServicesStatus (abuseipdbApiKey : option string) : Async Response :=
  tryCatch
    (radarHealthy ← verifyRadarToken env;
     Return (jsonResponse
               (JObj [("geolocation", JBool true);
                      ("threat_intelligence", JBool radarHealthy);
                      ("asn_analysis", JBool radarHealthy);
                      ("ipinfo", JBool (isSet (IPINFO_TOKEN env)));
                      ("radar", JBool (isSet (CLOUDFLARE_RADAR_TOKEN env)));
                      ("abuseipdb", JBool (isSet abuseipdbApiKey))])
               200))
    (fun error =>
       _ ← await (Log LogError "Service status check failed" (Some error));
       Return (jsonResponse
                 (JObj [("geolocation", JBool false);
                        ("threat_intelligence", JBool false);
                        ("asn_analysis", JBool false);
                        ("ipinfo", JBool false);
                        ("radar", JBool false);
                        ("abuseipdb", JBool false)])
                 200)).

(** [generateReport] of [src/services/reportService], which is not among the
    sources: any computation of a report from the body, the client address
    and the lookup it is handed. *)
Variable generateReport :
  Json -> option string -> (string -> Async NormalizedIpInsight) -> Async Json.

(** [app.post('/api/v1/report', ...)], given what [c.req.json()] settles
    with and the [cf-connecting-ip] header. *)
Definition postReport (parsed : Outcome Json) (cfConnectingIp : option string) : Async Response :=
  tryCatch
    (body ← settle parsed;
     if negb (truthyOpt (field "fingerprint" body))
     then Return (jsonResponse (JObj [("error", JStr "Missing fingerprint data")]) 400)
     else
       report ← generateReport body cfConnectingIp
                  (lookupIpInsight env encodeURIComponent normalizeIpInfo normalizeRadar);
       Return (jsonResponse report 200))
    (internalServerError "Report generation failed").

End Worker.

(** ** The minimal worker *)

Module Minimal.

(** A panel of the mock report. *)
Definition panel (score : Z) : Json :=
  JObj [("status", JStr "trustworthy"); ("score", JNum score);
        ("signals", JArr []); ("insights", JArr [])].

(** [app.post('/api/v1/report', ...)] of [src/worker-minimal.ts], given what
    [c.req.json()] settles with and the [cf-connecting-ip] header. *)
Definition postReport (parsed : Outcome Json) (cfConnectingIp : option string) : Async Response :=
  tryCatch
    (body ← settle parsed;
     let clientIP := default "0.0.0.0" (credential cfConnectingIp) in
     timestamp ← await DateNow;
     Return (jsonResponse
               (JObj [("verdict", JStr "trustworthy");
                      ("score", JNum 85);
                      ("panels",
                       JObj [("browser", panel 90);
                             ("location", panel 85);
                             ("ipAddress", panel 80);
                             ("hardware", panel 85);
                             ("software", panel 85)]);
                      ("clientIP", JStr clientIP);
                      ("timestamp", JNum timestamp);
                      ("metadata",
                       JObj [("note",
                              JStr "This is a minimal deployment. Configure API tokens for full functionality.")])])
               200))
    (fun error =>
       Return (jsonResponse
                 (JObj [("error", JStr "Invalid request"); ("message", JStr (message error))])
                 400)).

End Minimal.

(** ** The web pages *)

Module Web.

(** A value of the [translations] table: a text, or an object of named
    values. *)
Inductive Translation : Type :=
| Text (s : string)
| Dict (entries : list (string * Translation)).

(** [value[k]] on an object of the table: its own property, or undefined. *)
Fixpoint property (k : string) (entries : list (string * Translation)) : option Translation :=
  match entries with
  | [] => None
  | (name, v) :: rest => if String.eqb name k then Some v else property k rest
  end.

Definition translations : list (string * Translation) :=
  [("common",
    Dict [("actions",
           Dict [("rerun", Text "Re-run Analysis");
                 ("tryAgain", Text "Try Again");
                 ("openExtended", Text "Open Extended Tools");
                 ("settings", Text "Settings")])]);
   ("home",
    Dict [("verdict.title", Text "Your Digital Identity");
          ("verdict.trustworthy", Text "Your identity appears trustworthy");
          ("verdict.suspicious", Text "Some suspicious patterns detected");
          ("verdict.unreliable", Text "High-risk identity signals detected");
          ("error.loadFailed", Text "Failed to Load Report");
          ("error.unknown", Text "An unknown error occurred");
          ("sections.overview", Text "Overview");
          ("sections.analysis", Text "Analysis");
          ("sections.telemetry", Text "Telemetry");
          ("sections.features", Text "Features");
          ("insights.ipAddress", Text "IP Address");
          ("insights.detecting", Text "Detecting...");
          ("insights.fetched", Text "Fetched At");
          ("insights.cacheFreshness", Text "Cache Freshness");
          ("insights.cacheFreshnessValue", Text "Real-time");
          ("insights.cacheFreshnessDesc", Text "Live data");
          ("localhostIPv6", Text "localhost (IPv6)");
          ("tabs.overview", Text "Overview");
          ("tabs.fingerprint", Text "Fingerprint Explorer");
          ("tabs.fingerprintShort", Text "Fingerprint");
          ("tabs.analysis", Text "Detailed Analysis");
          ("tabs.analysisShort", Text "Analysis");
          ("tabs.monitor", Text "Real-time Monitor");
          ("tabs.monitorShort", Text "Monitor");
          ("tabs.toolkit", Text "Privacy Toolkit");
          ("tabs.toolkitShort", Text "Toolkit");
          ("tabs.history", Text "History");
          ("tabs.ipIntel", Text "IP Intelligence");
          ("tabs.ipIntelShort", Text "IP Intel");
          ("overview.identityChecks", Text "Identity Checks");
          ("overview.tapCard", Text "Tap a card to see details");
          ("overview.extendedToolkit", Text "Extended Toolkit");
          ("overview.extendedDesc", Text "Access advanced leak detection tools");
          ("overview.proTip", Text "Pro Tip");
          ("overview.proTipCritical", Text "Critical issues detected - review detailed analysis");
          ("overview.proTipDefault", Text "Use different tabs to explore various aspects of your digital identity");
          ("overview.whatWebsitesSee", Text "What Websites See About You");
          ("loading.fingerprint", Text "Loading fingerprint data...");
          ("loading.monitor", Text "Loading real-time monitor...");
          ("loading.toolkit", Text "Loading privacy toolkit...");
          ("loading.history", Text "Loading history...");
          ("analysis.score", Text "Score");
          ("analysis.confidence", Text "Confidence");
          ("analysis.entropy", Text "Entropy");
          ("analysis.breakdown", Text "Breakdown");
          ("analysis.detailedSignals", Text "Detailed Signals");
          ("ipIntel.title", Text "IP Intelligence Analysis");
          ("ipIntel.subtitle", Text "Comprehensive IP reputation and network analysis");
          ("ipIntel.yourIP", Text "Your IP Address");
          ("ipIntel.dataSources", Text "Data Sources");
          ("ipIntel.lastUpdated", Text "Last Updated");
          ("panels.browser.title", Text "Browser");
          ("panels.browser.description", Text "Browser fingerprint and characteristics");
          ("panels.location.title", Text "Location");
          ("panels.location.description", Text "Geolocation and timezone data");
          ("panels.ipAddress.title", Text "IP Address");
          ("panels.ipAddress.description", Text "IP reputation and network info");
          ("panels.hardware.title", Text "Hardware");
          ("panels.hardware.description", Text "Device hardware specifications");
          ("panels.software.title", Text "Software");
          ("panels.software.description", Text "Operating system and software stack")])].

(** The loop of [useTranslations] over what is left of [keys], and what
    follows it.  [value] is [None] when it is undefined.  A property that
    an object of the table inherits ([constructor], [toString], ...) is a
    function or null, never a text: it ends the lookup with the key as an
    undefined one does, so own properties are all that [property] reads. *)
Fixpoint walk (key : string) (keys : list string) (value : option Translation) : string :=
  match keys with
  | [] =>
      match value with
      | Some (Text s) => s
      | _ => key
      end
  | k :: rest =>
      match value with
      | Some (Dict entries) => walk key rest (property k entries)
      | _ => key
      end
  end.

(** [useTranslations(namespace)(key)] *)
Definition useTranslations (namespace key : string) : string :=
  walk key (split "." key) (property namespace translations).

(** A panel of a report: its score and its status. *)
Record Panel : Type := {
  score : Z;
  status : string
}.

Record ChartDataPoint : Type := {
  name : string;
  value : Z;
  pointStatus : string
}.

(** [chartData] of [InteractiveRadarChart]: a point for each panel of
    [data], labelled by [t] of the namespace [interactiveRadar]. *)
Definition chartData (data : option (list (string * Panel))) : list ChartDataPoint :=
  match data with
  | None => []
  | Some panels =>
      (fun '(key, panel) =>
         {| name := useTranslations "interactiveRadar" ("panels." +:+ key);
            value := score panel;
            pointStatus := status panel |}) <$> panels
  end.

(** The [switch] of [chartColors]. *)
Definition chartColor (d : ChartDataPoint) : string :=
  if String.eqb (pointStatus d) "trustworthy" then "emerald"
  else if String.eqb (pointStatus d) "suspicious" then "yellow"
  else if String.eqb (pointStatus d) "unreliable" then "red"
  else "slate".

Definition chartColors (data : option (list (string * Panel))) : list string :=
  chartColor <$> chartData data.

(** [Math.round(sum / count)] for an integer [sum] and a positive [count]:
    the nearest integer, a half going up. *)
Definition roundedQuotient (sum count : Z) : Z := (2 * sum + count) / (2 * count).

(** [overallScore]: the rounded mean of the scores, 0 when there is none.
    Scores are integers. *)
Definition overallScore (data : option (list (string * Panel))) : Z :=
  let points := chartData data in
  match points with
  | [] => 0
  | _ => roundedQuotient (foldl (fun sum d => sum + value d) 0 points) (Z.of_nat (length points))
  end.

(** [overallStatus] *)
Definition overallStatus (data : option (list (string * Panel))) : string :=
  match data with
  | None => "trustworthy"
  | Some panels =>
      let statuses := (fun '(_, d) => status d) <$> panels in
      if existsb (fun s => String.eqb s "unreliable") statuses then "unreliable"
      else if existsb (fun s => String.eqb s "suspicious") statuses then "suspicious"
      else "trustworthy"
  end.

End Web.

(** ** Notions for the routes and the pages *)

(** The pieces put back together, [sep] between them: [pieces.join(sep)]. *)
Fixpoint joinWith (sep : string) (pieces : list string) : string :=
  match pieces with
  | [] => ""
  | [piece] => piece
  | piece :: rest => piece +:+ sep +:+ joinWith sep rest
  end.

(** Whether [c] occurs in [s]. *)
Fixpoint contains (c : ascii) (s : string) : bool :=
  match s with
  | EmptyString => false
  | String a rest => Ascii.eqb a c || contains c rest
  end.

(** A decimal digit. *)
Definition isDigit (c : ascii) : bool :=
  (48 <=? nat_of_ascii c)%nat && (nat_of_ascii c <=? 57)%nat.

Fixpoint allDigits (s : string) : bool :=
  match s with
  | EmptyString => true
  | String c rest => isDigit c && allDigits rest
  end.

(** One to three decimal digits. *)
Definition isGroup (s : string) : bool :=
  (1 <=? String.length s)%nat && (String.length s <=? 3)%nat && allDigits s.

(** Four groups of one to three digits with dots between them. *)
Definition DottedQuad (s : string) : Prop :=
  exists a b c d,
    s = a +:+ "." +:+ b +:+ "." +:+ c +:+ "." +:+ d /\
    isGroup a = true /\ isGroup b = true /\ isGroup c = true /\ isGroup d = true.

(** The strings a regular expression matches. *)
Inductive Matches : Regex.Regex -> string -> Prop :=
| Matches_Empty : Matches Regex.Empty ""
| Matches_Class p c : p c = true -> Matches (Regex.Class p) (String c "")
| Matches_Cat r1 r2 s1 s2 :
    Matches r1 s1 -> Matches r2 s2 -> Matches (Regex.Cat r1 r2) (s1 +:+ s2)
| Matches_AltL r1 r2 s : Matches r1 s -> Matches (Regex.Alt r1 r2) s
| Matches_AltR r1 r2 s : Matches r2 s -> Matches (Regex.Alt r1 r2) s.

(** Decimal digits and dots only. *)
Fixpoint digitsAndDots (s : string) : bool :=
  match s with
  | EmptyString => true
  | String c rest => (isDigit c || Ascii.eqb c ".") && digitsAndDots rest
  end.

(** The keys under which [useTranslations] finds a text, with the text. *)
Definition translated : list (string * string * string) :=
  [("common", "actions.rerun", "Re-run Analysis");
   ("common", "actions.tryAgain", "Try Again");
   ("common", "actions.openExtended", "Open Extended Tools");
   ("common", "actions.settings", "Settings");
   ("home", "localhostIPv6", "localhost (IPv6)")].

Definition isText (v : Web.Translation) : bool :=
  match v with
  | Web.Text _ => true
  | Web.Dict _ => false
  end.

(** How bad a status is: unreliable above suspicious above anything else. *)
Definition severity (status : string) : nat :=
  if String.eqb status "unreliable" then 2
  else if String.eqb status "suspicious" then 1
  else 0.

(** [noInsight], decided. *)
Definition noInsightb (r : Outcome (option Json)) : bool :=
  match r with
  | Rejected _ => true
  | Resolved payload => negb (truthyOpt payload)
  end.

Section Found.

Variable env : Env.
Variable encodeURIComponent : string -> string.
Variable normalizeIpInfo : Json -> NormalizedIpInsight.
Variable normalizeRadar : Json -> NormalizedIpInsight.
Variable ttlMs : Z.
Variable staleTtlMs : Z.
Variable net : string -> RequestInit -> FetchOutcome.

(** What the two provider fetches make an insight of: the primary's
    payload when it is truthy, else the secondary's when it is; a fetch
    that threw gives none. *)
Definition insightFrom (primary secondary : Outcome (option Json)) : option NormalizedIpInsight :=
  let insight := match primary with
                 | Resolved payload => insightOf normalizeIpInfo payload
                 | Rejected _ => None
                 end in
  match insight with
  | Some i => Some i
  | None =>
      match secondary with
      | Resolved payload => insightOf normalizeRadar payload
      | Rejected _ => None
      end
  end.

(** The insight the providers give for [ip], read off a run of the two
    fetches in a world with nothing in it. *)
Definition found (ip : string) : option NormalizedIpInsight :=
  insightFrom (run ttlMs staleTtlMs net (fetchIpInfoWorker env encodeURIComponent ip) blank).1
              (run ttlMs staleTtlMs net (fetchRadarWorker env encodeURIComponent ip) blank).1.

End Found.

(** The world [ms] milliseconds later, nothing else having happened. *)
Definition later (ms : Z) (w : World) : World :=
  {| store := store w; now := now w + ms; log := log w; detached := detached w |}.

(** * Properties *)

(** ** How [run] goes through sequencing and [try]/[catch] *)

Section RunLemmas.

Variable ttlMs : Z.
Variable staleTtlMs : Z.
Variable net : string -> RequestInit -> FetchOutcome.

Local Abbreviation exec := (run ttlMs staleTtlMs net).

Lemma run_bind {A B : Type} (m : Async A) (f : A -> Async B) (w : World) :
  exec (m ≫= f) w =
  match exec m w with
  | (Resolved a, w') => exec (f a) w'
  | (Rejected e, w') => (Rejected e, w')
  end.
Proof.
  change (m ≫= f) with (bind m f).
  revert B f w. induction m as [A a|A e|A X op k IH|A key fac IHf k IH|A task IHt k IH];
    intros B f w; cbn.
  - reflexivity.
  - reflexivity.
  - destruct (perform ttlMs staleTtlMs net op w) as [x w1]. apply IH.
  - destruct (exec fac w) as [r w1]. apply IH.
  - apply IH.
Qed.

Lemma run_tryCatch {A : Type} (m : Async A) (h : JsError -> Async A) (w : World) :
  exec (tryCatch m h) w =
  match exec m w with
  | (Resolved a, w') => (Resolved a, w')
  | (Rejected e, w') => exec (h e) w'
  end.
Proof.
  revert h w. induction m as [A a|A e|A X op k IH|A key fac IHf k IH|A task IHt k IH];
    intros h w; cbn.
  - reflexivity.
  - reflexivity.
  - destruct (perform ttlMs staleTtlMs net op w) as [x w1]. apply IH.
  - destruct (exec fac w) as [r w1]. apply IH.
  - apply IH.
Qed.

Lemma run_await {X : Type} (op : Op X) (w : World) :
  exec (await op) w =
  (Resolved (perform ttlMs staleTtlMs net op w).1, (perform ttlMs staleTtlMs net op w).2).
Proof. cbn. destruct (perform ttlMs staleTtlMs net op w); reflexivity. Qed.

Lemma run_settle {A : Type} (r : Outcome A) (w : World) : exec (settle r) w = (r, w).
Proof. destruct r; reflexivity. Qed.

(** Reading the cache looks at the store and the clock only. *)
Lemma getWithStale_record (key : string) (ev : Event) (w : World) :
  getWithStale ttlMs staleTtlMs key (record ev w) = getWithStale ttlMs staleTtlMs key w.
Proof. reflexivity. Qed.

End RunLemmas.

(** ** Computations that only talk to the network and the logger *)

Lemma NetLog_bind {A B : Type} (m : Async A) (f : A -> Async B) :
  NetLog m -> (forall a, NetLog (f a)) -> NetLog (m ≫= f).
Proof.
  change (m ≫= f) with (bind m f).
  intros Hm Hf. induction Hm; cbn; auto with netlog.
Qed.

Lemma NetLog_tryCatch {A : Type} (m : Async A) (h : JsError -> Async A) :
  NetLog m -> (forall e, NetLog (h e)) -> NetLog (tryCatch m h).
Proof. intros Hm Hh. induction Hm; cbn; auto with netlog. Qed.

Lemma NetLog_settle {A : Type} (r : Outcome A) : NetLog (settle r).
Proof. destruct r; cbn; auto with netlog. Qed.

Lemma NetLog_await_Fetch url init : NetLog (await (Fetch url init)).
Proof. unfold await. auto with netlog. Qed.

Lemma NetLog_await_Log level msg err : NetLog (await (Log level msg err)).
Proof. unfold await. auto with netlog. Qed.

#[export] Hint Resolve NetLog_bind NetLog_tryCatch NetLog_settle
  NetLog_await_Fetch NetLog_await_Log : netlog.

Section Frame.

Variable ttlMs : Z.
Variable staleTtlMs : Z.
Variable net : string -> RequestInit -> FetchOutcome.

Local Abbreviation exec := (run ttlMs staleTtlMs net).

Lemma appendLog_nil (w : World) : appendLog [] w = w.
Proof. destruct w; reflexivity. Qed.

Lemma appendLog_record (evs : list Event) (ev : Event) (w : World) :
  appendLog evs (record ev w) = appendLog (evs ++ [ev]) w.
Proof. unfold appendLog, record; cbn. by rewrite <- app_assoc. Qed.

(** Such a computation settles the same way in every world, and all it
    leaves behind is what it adds to the log. *)
Lemma NetLog_frame {A : Type} (p : Async A) :
  NetLog p ->
  forall w, exec p w = ((exec p blank).1, appendLog (log (exec p blank).2) w).
Proof.
  induction 1 as [A a|A e|A url init k Hk IH|A level msg err k Hk IH]; intros w; cbn.
  - by rewrite appendLog_nil.
  - by rewrite appendLog_nil.
  - rewrite (IH _ (record _ blank)), (IH _ (record _ w)). cbn.
    by rewrite appendLog_record.
  - rewrite (IH _ (record _ blank)), (IH _ (record _ w)). cbn.
    by rewrite appendLog_record.
Qed.

(** It never writes to the cache, and leaves the clock and the detached
    promises alone. *)
Lemma NetLog_untouched {A : Type} (p : Async A) :
  NetLog p ->
  forall w, let w' := (exec p w).2 in
    store w' = store w /\ now w' = now w /\ detached w' = detached w /\
    cacheSets (log w') = cacheSets (log w).
Proof.
  induction 1 as [A a|A e|A url init k Hk IH|A level msg err k Hk IH]; intros w; cbn.
  - done.
  - done.
  - exact (IH (net url init) (record (EvFetch url init) w)).
  - exact (IH tt (record (EvLog level msg err) w)).
Qed.

Lemma NetLog_result {A : Type} (p : Async A) (w1 w2 : World) :
  NetLog p -> (exec p w1).1 = (exec p w2).1.
Proof.
  intros Hp. by rewrite (NetLog_frame p Hp w1), (NetLog_frame p Hp w2).
Qed.

End Frame.

Section Providers.

Variable env : Env.
Variable encodeURIComponent : string -> string.

Lemma NetLog_fetchWithTimeout url init : NetLog (fetchWithTimeout url init).
Proof.
  unfold fetchWithTimeout. apply NetLog_bind; [auto with netlog|].
  intros []; auto with netlog.
Qed.

Lemma NetLog_json response : NetLog (json response).
Proof. unfold json. destruct (body response); auto with netlog. Qed.

#[local] Hint Resolve NetLog_fetchWithTimeout NetLog_json : netlog.

Lemma NetLog_fetchIpInfoWorker ip : NetLog (fetchIpInfoWorker env encodeURIComponent ip).
Proof.
  unfold fetchIpInfoWorker. destruct (credential _); [|auto with netlog].
  apply NetLog_bind; [auto with netlog|]. intros r.
  destruct (negb (ok r)); auto 6 with netlog.
Qed.

Lemma NetLog_fetchRadarWorker ip : NetLog (fetchRadarWorker env encodeURIComponent ip).
Proof.
  unfold fetchRadarWorker.
  destruct (credential _); [|auto with netlog].
  destruct (credential _); [|auto with netlog].
  apply NetLog_bind; [auto with netlog|]. intros r.
  destruct (negb (ok r)); [auto with netlog|].
  apply NetLog_bind; [auto with netlog|]. intros payload.
  apply NetLog_bind; [auto with netlog|]. intros success.
  destruct (negb (truthyOpt success)); auto with netlog.
Qed.

End Providers.

(** ** The lookup service *)

Section Properties.

Variable env : Env.
Variable encodeURIComponent : string -> string.
Variable normalizeIpInfo : Json -> NormalizedIpInsight.
Variable normalizeRadar : Json -> NormalizedIpInsight.
Variable ttlMs : Z.
Variable staleTtlMs : Z.
Variable net : string -> RequestInit -> FetchOutcome.

Local Abbreviation exec := (run ttlMs staleTtlMs net).
Local Abbreviation fetchIpInfo := (fetchIpInfoWorker env encodeURIComponent).
Local Abbreviation fetchRadar := (fetchRadarWorker env encodeURIComponent).
Local Abbreviation lookup := (lookupIpInsight env encodeURIComponent normalizeIpInfo normalizeRadar).
Local Abbreviation factory := (lookupFactory env encodeURIComponent normalizeIpInfo normalizeRadar).
Local Abbreviation revalidate := (revalidateIpInsight env encodeURIComponent normalizeIpInfo normalizeRadar).
Local Abbreviation background := (backgroundRevalidation env encodeURIComponent normalizeIpInfo normalizeRadar).

Local Abbreviation primaryFetches := (primaryFetches env encodeURIComponent).
Local Abbreviation secondaryFetches := (secondaryFetches env encodeURIComponent).
Local Abbreviation attempts := (attempts env encodeURIComponent normalizeIpInfo normalizeRadar).

Lemma insightOf_None normalize payload :
  truthyOpt payload = false -> insightOf normalize payload = None.
Proof. destruct payload as [j|]; cbn; [|done]. by intros ->. Qed.

Lemma insightOf_Some normalize j :
  truthy j = true -> insightOf normalize (Some j) = Some (normalize j).
Proof. cbn. by intros ->. Qed.

Lemma run_attempt fetcher normalize msg w :
  exec (attempt fetcher normalize msg) w =
  match exec fetcher w with
  | (Resolved payload, w') => (Resolved (insightOf normalize payload), w')
  | (Rejected e, w') => (Resolved None, record (EvLog Warn msg (Some e)) w')
  end.
Proof.
  unfold attempt. rewrite run_tryCatch, run_bind.
  destruct (exec fetcher w) as [[payload|e] w']; reflexivity.
Qed.

(** An attempt never throws; it gives an insight exactly when the fetch
    returned something truthy. *)
Lemma attempt_result fetcher normalize msg w :
  (exec (attempt fetcher normalize msg) w).1 =
  Resolved match (exec fetcher w).1 with
           | Resolved payload => insightOf normalize payload
           | Rejected _ => None
           end.
Proof. rewrite run_attempt. destruct (exec fetcher w) as [[payload|e] w']; reflexivity. Qed.

(** What a provider attempt leaves untouched. *)
Lemma attempt_untouched fetcher normalize msg w :
  NetLog fetcher ->
  let w' := (exec (attempt fetcher normalize msg) w).2 in
  store w' = store w /\ now w' = now w /\ detached w' = detached w /\
  cacheSets (log w') = cacheSets (log w).
Proof.
  intros Hf. rewrite run_attempt.
  pose proof (NetLog_untouched ttlMs staleTtlMs net _ Hf w) as Hu.
  destruct (exec fetcher w) as [[payload|e] w']; cbn in *; auto.
Qed.

Lemma NetLog_attempt fetcher normalize msg :
  NetLog fetcher -> NetLog (attempt fetcher normalize msg).
Proof. intros Hf. unfold attempt. auto 7 with netlog. Qed.

Lemma NetLog_attempts ip msg1 msg2 : NetLog (attempts ip msg1 msg2).
Proof.
  unfold attempts. apply NetLog_bind.
  - apply NetLog_attempt, NetLog_fetchIpInfoWorker.
  - intros [i|]; [auto with netlog|]. apply NetLog_attempt, NetLog_fetchRadarWorker.
Qed.

Lemma attempts_none ip msg1 msg2 w :
  noInsight (exec (fetchIpInfo ip) w).1 ->
  noInsight (exec (fetchRadar ip) w).1 ->
  (exec (attempts ip msg1 msg2) w).1 = Resolved None.
Proof.
  intros H1 H2. unfold attempts. rewrite run_bind.
  pose proof (attempt_result (fetchIpInfo ip) normalizeIpInfo msg1 w) as Ha.
  destruct (exec (attempt (fetchIpInfo ip) normalizeIpInfo msg1) w) as [r1 w1].
  cbn in Ha. subst r1.
  assert ((match (exec (fetchIpInfo ip) w).1 with
           | Resolved payload => insightOf normalizeIpInfo payload
           | Rejected _ => None end) = None) as ->.
  { destruct (exec (fetchIpInfo ip) w).1; [by apply insightOf_None|done]. }
  rewrite attempt_result.
  rewrite (NetLog_result _ _ _ _ w1 w (NetLog_fetchRadarWorker env encodeURIComponent ip)).
  destruct (exec (fetchRadar ip) w).1; [by rewrite insightOf_None|done].
Qed.

Lemma run_lookup_miss ip w :
  (getWithStale ttlMs staleTtlMs ip w).1 = None ->
  exec (lookup ip) w = exec (factory ip) (record (EvGetWithStale ip) w).
Proof.
  intros Hmiss. unfold lookupIpInsight. rewrite run_bind, run_await. cbn -[mbind lookupFactory].
  destruct (getWithStale ttlMs staleTtlMs ip w) as [c st]. cbn in Hmiss. subst c.
  cbn -[mbind lookupFactory].
  destruct (exec (factory ip) _) as [r w']. apply run_settle.
Qed.

Lemma run_factory_miss ip w :
  (getWithStale ttlMs staleTtlMs ip w).1 = None ->
  exec (factory ip) w =
  match exec (attempts ip "ipinfo lookup failed" "Cloudflare Radar lookup failed")
             (record (EvGetWithStale ip) w) with
  | (Resolved (Some i), w') => (Resolved i, record (EvCacheSet ip i) (cacheSet ip i w'))
  | (Resolved None, w') => (Rejected (ApiError 502 "Unable to fetch IP intelligence"), w')
  | (Rejected e, w') => (Rejected e, w')
  end.
Proof.
  intros Hmiss. unfold lookupFactory, attempts. rewrite run_bind, run_await. cbn -[mbind attempt].
  destruct (getWithStale ttlMs staleTtlMs ip w) as [c st]. cbn in Hmiss. subst c.
  cbn -[mbind attempt]. rewrite !run_bind.
  destruct (exec (attempt (fetchIpInfo ip) _ _) _) as [[[i|]|e] w1]; cbn -[mbind attempt].
  - rewrite run_bind. cbn. reflexivity.
  - rewrite run_bind.
    destruct (exec (attempt (fetchRadar ip) _ _) _) as [[[i|]|e] w2]; cbn -[mbind attempt].
    + reflexivity.
    + reflexivity.
    + reflexivity.
  - reflexivity.
Qed.

(** C1.  Total failure.  On a cache miss, when the primary fetch gives no
    insight and the secondary fetch gives none either (each threw, or
    returned nothing because its credentials are missing), [lookupIpInsight]
    rejects with [ApiError 502 "Unable to fetch IP intelligence"], the store
    is what it was and the lookup performed no cache [set]. *)
Theorem lookup_total_failure (ip : string) (w : World) :
  (getWithStale ttlMs staleTtlMs ip w).1 = None ->
  noInsight (exec (fetchIpInfo ip) w).1 ->
  noInsight (exec (fetchRadar ip) w).1 ->
  exists w',
    exec (lookup ip) w = (Rejected (ApiError 502 "Unable to fetch IP intelligence"), w') /\
    store w' = store w /\
    cacheSets (log w') = cacheSets (log w).
Proof.
  intros Hmiss H1 H2.
  rewrite (run_lookup_miss _ _ Hmiss), run_factory_miss by (by rewrite getWithStale_record).
  set (w1 := record (EvGetWithStale ip) (record (EvGetWithStale ip) w)).
  pose proof (attempts_none ip "ipinfo lookup failed" "Cloudflare Radar lookup failed" w1) as Hn.
  rewrite !(NetLog_result _ _ _ _ w1 w) in Hn
    by (apply NetLog_fetchIpInfoWorker || apply NetLog_fetchRadarWorker).
  specialize (Hn H1 H2).
  pose proof (NetLog_untouched ttlMs staleTtlMs net _
                (NetLog_attempts ip "ipinfo lookup failed" "Cloudflare Radar lookup failed") w1)
    as (Hs & _ & _ & Hc).
  destruct (exec (attempts _ _ _) w1) as [r w']. cbn in Hn, Hs, Hc. subst r.
  exists w'. auto.
Qed.

Lemma fetchIpInfo_fetches ip w :
  fetches (log (exec (fetchIpInfo ip) w).2) = primaryFetches ip ++ fetches (log w).
Proof.
  unfold fetchIpInfoWorker, primaryFetches, fetchWithTimeout, json.
  destruct (credential (IPINFO_TOKEN env)) as [token|]; [|reflexivity].
  cbn. destruct (net _ _) as [e|r]; cbn; [reflexivity|].
  destruct (negb (ok r)); cbn; [reflexivity|].
  destruct (body r); reflexivity.
Qed.

Lemma fetchRadar_fetches ip w :
  fetches (log (exec (fetchRadar ip) w).2) = secondaryFetches ip ++ fetches (log w).
Proof.
  unfold fetchRadarWorker, secondaryFetches, fetchWithTimeout, json.
  destruct (credential (CLOUDFLARE_ACCOUNT_ID env)) as [account|]; [|reflexivity].
  destruct (credential (CLOUDFLARE_RADAR_TOKEN env)) as [token|]; [|reflexivity].
  cbn. destruct (net _ _) as [e|r]; cbn; [reflexivity|].
  destruct (negb (ok r)); cbn; [reflexivity|].
  destruct (body r) as [payload|]; cbn; [|reflexivity].
  destruct (getProp payload "success") as [success|e]; cbn; [|reflexivity].
  destruct (negb (truthyOpt success)); cbn; [reflexivity|].
  destruct (getProp payload "result"); reflexivity.
Qed.

(** A client without its credentials returns null: whatever else it does,
    it had them. *)
Lemma fetchIpInfo_configured ip w :
  (exec (fetchIpInfo ip) w).1 <> Resolved None ->
  exists token, credential (IPINFO_TOKEN env) = Some token.
Proof.
  unfold fetchIpInfoWorker. destruct (credential (IPINFO_TOKEN env)) as [token|]; [eauto|].
  cbn. congruence.
Qed.

Lemma fetchRadar_configured ip w payload :
  (exec (fetchRadar ip) w).1 = Resolved (Some payload) ->
  exists account token,
    credential (CLOUDFLARE_ACCOUNT_ID env) = Some account /\
    credential (CLOUDFLARE_RADAR_TOKEN env) = Some token.
Proof.
  unfold fetchRadarWorker.
  destruct (credential (CLOUDFLARE_ACCOUNT_ID env)) as [account|]; [|cbn; congruence].
  destruct (credential (CLOUDFLARE_RADAR_TOKEN env)) as [token|]; [eauto|cbn; congruence].
Qed.

Lemma attempt_fetches fetcher normalize msg w :
  fetches (log (exec (attempt fetcher normalize msg) w).2) = fetches (log (exec fetcher w).2).
Proof. rewrite run_attempt. destruct (exec fetcher w) as [[payload|e] w']; reflexivity. Qed.

(** What the two attempts come to, read off the two fetches. *)
Lemma attempts_primary ip msg1 msg2 w payload :
  (exec (fetchIpInfo ip) w).1 = Resolved (Some payload) ->
  truthy payload = true ->
  let r := exec (attempts ip msg1 msg2) w in
  r.1 = Resolved (Some (normalizeIpInfo payload)) /\
  fetches (log r.2) = primaryFetches ip ++ fetches (log w).
Proof.
  intros H1 Ht. unfold attempts. cbn zeta. rewrite run_bind.
  pose proof (attempt_result (fetchIpInfo ip) normalizeIpInfo msg1 w) as Ha.
  pose proof (attempt_fetches (fetchIpInfo ip) normalizeIpInfo msg1 w) as Hf.
  rewrite H1, (insightOf_Some _ _ Ht) in Ha. rewrite fetchIpInfo_fetches in Hf.
  destruct (exec (attempt (fetchIpInfo ip) normalizeIpInfo msg1) w) as [r1 w1].
  cbn in Ha, Hf. subst r1. cbn. auto.
Qed.

Lemma attempts_secondary ip msg1 msg2 w payload :
  noInsight (exec (fetchIpInfo ip) w).1 ->
  (exec (fetchRadar ip) w).1 = Resolved (Some payload) ->
  truthy payload = true ->
  let r := exec (attempts ip msg1 msg2) w in
  r.1 = Resolved (Some (normalizeRadar payload)) /\
  fetches (log r.2) = secondaryFetches ip ++ primaryFetches ip ++ fetches (log w).
Proof.
  intros H1 H2 Ht. unfold attempts. cbn zeta. rewrite run_bind.
  pose proof (attempt_result (fetchIpInfo ip) normalizeIpInfo msg1 w) as Ha.
  pose proof (attempt_fetches (fetchIpInfo ip) normalizeIpInfo msg1 w) as Hf.
  rewrite fetchIpInfo_fetches in Hf.
  assert ((match (exec (fetchIpInfo ip) w).1 with
           | Resolved p => insightOf normalizeIpInfo p
           | Rejected _ => None end) = None) as Hnone.
  { destruct (exec (fetchIpInfo ip) w).1; [by apply insightOf_None|done]. }
  rewrite Hnone in Ha.
  destruct (exec (attempt (fetchIpInfo ip) normalizeIpInfo msg1) w) as [r1 w1].
  cbn in Ha, Hf. subst r1. cbn -[attempt].
  rewrite attempt_result, attempt_fetches, fetchRadar_fetches, Hf.
  rewrite (NetLog_result _ _ _ _ w1 w (NetLog_fetchRadarWorker env encodeURIComponent ip)).
  by rewrite H2, (insightOf_Some _ _ Ht).
Qed.

Lemma cacheSet_store ip i w : store (cacheSet ip i w) = <[ip := {| data := i; storedAt := now w |}]> (store w).
Proof. reflexivity. Qed.

(** The requests of the two attempts: the primary's, then the secondary's
    when it is tried. *)
Lemma attempts_fetches ip msg1 msg2 w :
  exists evs,
    fetches (log (exec (attempts ip msg1 msg2) w).2) = evs ++ fetches (log w) /\
    (evs = primaryFetches ip \/ evs = secondaryFetches ip ++ primaryFetches ip).
Proof.
  unfold attempts. rewrite run_bind.
  pose proof (attempt_fetches (fetchIpInfo ip) normalizeIpInfo msg1 w) as Hf.
  rewrite fetchIpInfo_fetches in Hf.
  destruct (exec (attempt (fetchIpInfo ip) normalizeIpInfo msg1) w) as [[[i|]|e] w1];
    cbn -[attempt] in *.
  - exists (primaryFetches ip). auto.
  - exists (secondaryFetches ip ++ primaryFetches ip).
    rewrite attempt_fetches, fetchRadar_fetches, Hf. split; [by rewrite app_assoc|auto].
  - exists (primaryFetches ip). auto.
Qed.

Lemma getWithStale_absent ip w :
  store w !! ip = None -> getWithStale ttlMs staleTtlMs ip w = (None, false).
Proof. unfold getWithStale. by intros ->. Qed.

(** A lookup that misses the cache sends at most one request to each
    provider, the primary's first. *)
Lemma lookup_fetches ip w :
  (getWithStale ttlMs staleTtlMs ip w).1 = None ->
  exists evs,
    fetches (log (exec (lookup ip) w).2) = evs ++ fetches (log w) /\
    (evs = primaryFetches ip \/ evs = secondaryFetches ip ++ primaryFetches ip).
Proof.
  intros Hmiss.
  rewrite (run_lookup_miss _ _ Hmiss), run_factory_miss
    by (by rewrite getWithStale_record).
  destruct (attempts_fetches ip "ipinfo lookup failed" "Cloudflare Radar lookup failed"
              (record (EvGetWithStale ip) (record (EvGetWithStale ip) w))) as (evs & Hf & Hevs).
  exists evs. split; [|done].
  destruct (exec (attempts _ _ _) _) as [[[i|]|e] w']; cbn in *; done.
Qed.

(** C2.  Fallback order.  On a cache miss the primary provider comes
    first, and when it gives an insight the lookup returns it, stores it
    and sends no request to the secondary provider.  When the primary fetch
    throws and the secondary returns a payload, the lookup resolves to
    [normalizeRadar payload], stores it under the IP, and the requests it
    sent are exactly one to ipinfo followed by one to Radar (the log is
    newest first).  Whatever the providers answer, a lookup that misses
    sends the primary's request alone, or the primary's and then the
    secondary's. *)
Theorem lookup_fallback_order (ip : string) (w : World) :
  (getWithStale ttlMs staleTtlMs ip w).1 = None ->
  (forall payload,
     (exec (fetchIpInfo ip) w).1 = Resolved (Some payload) -> truthy payload = true ->
     exists token w',
       credential (IPINFO_TOKEN env) = Some token /\
       exec (lookup ip) w = (Resolved (normalizeIpInfo payload), w') /\
       store w' = <[ip := {| data := normalizeIpInfo payload; storedAt := now w |}]> (store w) /\
       fetches (log w') =
         [EvFetch (ipinfoUrl encodeURIComponent ip token) ipinfoInit] ++ fetches (log w)) /\
  (forall e payload,
     (exec (fetchIpInfo ip) w).1 = Rejected e ->
     (exec (fetchRadar ip) w).1 = Resolved (Some payload) -> truthy payload = true ->
     exists token account radarToken w',
       credential (IPINFO_TOKEN env) = Some token /\
       credential (CLOUDFLARE_ACCOUNT_ID env) = Some account /\
       credential (CLOUDFLARE_RADAR_TOKEN env) = Some radarToken /\
       exec (lookup ip) w = (Resolved (normalizeRadar payload), w') /\
       store w' = <[ip := {| data := normalizeRadar payload; storedAt := now w |}]> (store w) /\
       fetches (log w') =
         [EvFetch (radarUrl encodeURIComponent account ip) (radarHeaders radarToken);
          EvFetch (ipinfoUrl encodeURIComponent ip token) ipinfoInit] ++ fetches (log w)) /\
  (exists evs,
     fetches (log (exec (lookup ip) w).2) = evs ++ fetches (log w) /\
     (evs = primaryFetches ip \/ evs = secondaryFetches ip ++ primaryFetches ip)).
Proof.
  intros Hmiss.
  set (w1 := record (EvGetWithStale ip) (record (EvGetWithStale ip) w)).
  set (m1 := "ipinfo lookup failed"). set (m2 := "Cloudflare Radar lookup failed").
  assert (Hrun : exec (lookup ip) w =
    match exec (attempts ip m1 m2) w1 with
    | (Resolved (Some i), w') => (Resolved i, record (EvCacheSet ip i) (cacheSet ip i w'))
    | (Resolved None, w') => (Rejected (ApiError 502 "Unable to fetch IP intelligence"), w')
    | (Rejected e, w') => (Rejected e, w')
    end).
  { rewrite (run_lookup_miss _ _ Hmiss). by apply run_factory_miss. }
  pose proof (NetLog_untouched ttlMs staleTtlMs net _ (NetLog_attempts ip m1 m2) w1)
    as (Hs & Hn & _ & _).
  split; [|split]; [| |by apply lookup_fetches].
  - intros payload H1 Ht.
    destruct (fetchIpInfo_configured ip w) as [token Htok]; [by rewrite H1|].
    rewrite (NetLog_result _ _ _ _ w w1 (NetLog_fetchIpInfoWorker env encodeURIComponent ip)) in H1.
    destruct (attempts_primary ip m1 m2 w1 payload H1 Ht) as [Hr Hf].
    unfold primaryFetches in Hf. rewrite Htok in Hf.
    destruct (exec (attempts ip m1 m2) w1) as [r w'] eqn:Hex. cbn in Hr, Hf, Hs, Hn. subst r.
    eexists token, _. split; [done|]. split; [exact Hrun|].
    cbn. by rewrite Hs, Hn.
  - intros e payload H1 H2 Ht.
    destruct (fetchIpInfo_configured ip w) as [token Htok]; [by rewrite H1|].
    destruct (fetchRadar_configured ip w payload H2) as (account & radarToken & Hacc & Hrt).
    rewrite (NetLog_result _ _ _ _ w w1 (NetLog_fetchIpInfoWorker env encodeURIComponent ip)) in H1.
    rewrite (NetLog_result _ _ _ _ w w1 (NetLog_fetchRadarWorker env encodeURIComponent ip)) in H2.
    destruct (attempts_secondary ip m1 m2 w1 payload) as [Hr Hf]; [by rewrite H1|done|done|].
    unfold primaryFetches, secondaryFetches in Hf. rewrite Htok, Hacc, Hrt in Hf.
    destruct (exec (attempts ip m1 m2) w1) as [r w'] eqn:Hex. cbn in Hr, Hf, Hs, Hn. subst r.
    eexists token, account, radarToken, _. do 3 (split; [done|]). split; [exact Hrun|].
    cbn. by rewrite Hs, Hn.
Qed.

(** C3.  Cache hit.  When [getWithStale] returns an entry,
    [lookupIpInsight] resolves to the entry's data, sends no request and
    leaves the store alone; all it does besides is to read the cache, and,
    when the entry is stale, to log and to start exactly one background
    revalidation, which it does not await: the answer and the world it
    leaves are the same whatever the network would have answered. *)
Theorem lookup_cache_hit (ip : string) (w : World) (entry : CacheEntry) (isStale : bool) :
  getWithStale ttlMs staleTtlMs ip w = (Some entry, isStale) ->
  let r := exec (lookup ip) w in
  r.1 = Resolved (data entry) /\
  r.2 = (if isStale
         then detach (background ip)
                (record (EvLog Debug "Serving stale data, revalidating in background" None)
                   (record (EvGetWithStale ip) w))
         else record (EvGetWithStale ip) w) /\
  fetches (log r.2) = fetches (log w) /\
  store r.2 = store w /\
  detached r.2 = (if isStale then [background ip] else []) ++ detached w /\
  (forall net', run ttlMs staleTtlMs net' (lookup ip) w = r).
Proof.
  intros Hg. cbn zeta.
  assert (Hrun : forall net', run ttlMs staleTtlMs net' (lookup ip) w =
    (Resolved (data entry),
     if isStale
     then detach (background ip)
            (record (EvLog Debug "Serving stale data, revalidating in background" None)
               (record (EvGetWithStale ip) w))
     else record (EvGetWithStale ip) w)).
  { intros net'. unfold lookupIpInsight. rewrite run_bind, run_await.
    cbn -[mbind backgroundRevalidation]. rewrite Hg. cbn -[mbind backgroundRevalidation].
    rewrite run_bind. destruct isStale; reflexivity. }
  rewrite (Hrun net). cbn. destruct isStale; repeat split; try done.
  all: intros net'; by rewrite Hrun.
Qed.

(** C7.  Re-check inside the deduplicated factory.  The factory reads the
    cache before anything else.  When that read returns an entry, stale or
    not, the factory resolves to its data and does nothing more: no
    provider is called and no revalidation is started. *)
Theorem factory_recheck (ip : string) (w : World) :
  (forall entry isStale,
     getWithStale ttlMs staleTtlMs ip w = (Some entry, isStale) ->
     exec (factory ip) w = (Resolved (data entry), record (EvGetWithStale ip) w)) /\
  (exists evs, log (exec (factory ip) w).2 = evs ++ EvGetWithStale ip :: log w).
Proof.
  split.
  - intros entry isStale Hg. unfold lookupFactory. rewrite run_bind, run_await.
    cbn -[mbind]. rewrite Hg. reflexivity.
  - destruct (getWithStale ttlMs staleTtlMs ip w) as [[entry|] isStale] eqn:Hg.
    + exists []. unfold lookupFactory. rewrite run_bind, run_await.
      cbn -[mbind]. rewrite Hg. reflexivity.
    + rewrite run_factory_miss by (by rewrite Hg).
      rewrite (NetLog_frame ttlMs staleTtlMs net _ (NetLog_attempts ip _ _)).
      set (r := exec (attempts ip _ _) blank).
      destruct r.1 as [[i|]|e]; cbn; eauto.
      by eexists (_ :: _).
Qed.

Lemma run_revalidate ip w :
  exec (revalidate ip) w =
  match exec (attempts ip "ipinfo revalidation failed" "Cloudflare Radar revalidation failed") w with
  | (Resolved (Some i), w') =>
      (Resolved tt,
       record (EvLog Debug "Background revalidation completed" None)
         (record (EvCacheSet ip i) (cacheSet ip i w')))
  | (Resolved None, w') => (Resolved tt, w')
  | (Rejected e, w') =>
      (Resolved tt, record (EvLog Warn "Background revalidation error" (Some e)) w')
  end.
Proof.
  unfold revalidateIpInsight, attempts. rewrite run_tryCatch, !run_bind.
  destruct (exec (attempt (fetchIpInfo ip) _ _) _) as [[[i|]|e] w1]; cbn -[mbind attempt].
  - rewrite run_bind. reflexivity.
  - rewrite run_bind.
    destruct (exec (attempt (fetchRadar ip) _ _) _) as [[[i|]|e] w2]; reflexivity.
  - reflexivity.
Qed.

(** A [catch] that only logs swallows whatever the [try] block throws. *)
Lemma tryCatch_log_resolves (body : Async unit) (msg : string) (w : World) :
  (exec (tryCatch body (fun error => await (Log Warn msg (Some error)))) w).1 = Resolved tt.
Proof.
  rewrite run_tryCatch. destruct (exec body w) as [[[]|e] w']; reflexivity.
Qed.

Lemma run_background ip w : exec (background ip) w = exec (revalidate ip) w.
Proof.
  unfold backgroundRevalidation. rewrite run_tryCatch.
  pose proof (tryCatch_log_resolves
    (insight ← attempt (fetchIpInfo ip) normalizeIpInfo "ipinfo revalidation failed";
     insight0 ← match insight with
                | Some i => Return (Some i)
                | None => attempt (fetchRadar ip) normalizeRadar
                            "Cloudflare Radar revalidation failed"
                end;
     match insight0 with
     | Some i =>
         _ ← await (CacheSet ip i);
         await (Log Debug "Background revalidation completed" None)
     | None => Return tt
     end) "Background revalidation error" w) as Hr.
  change (tryCatch _ _) with (revalidate ip) in Hr.
  destruct (exec (revalidate ip) w) as [r w']. cbn in Hr. by subst r.
Qed.

(** The log only grows. *)
Lemma run_log_grows {A : Type} (p : Async A) (w : World) :
  exists evs, log (exec p w).2 = evs ++ log w.
Proof.
  revert w. induction p as [A a|A e|A X op k IH|A key fac IHf k IH|A task IHt k IH];
    intros w; cbn.
  - by exists [].
  - by exists [].
  - destruct (perform ttlMs staleTtlMs net op w) as [x w1] eqn:Hp.
    destruct (IH x w1) as [evs ->].
    destruct op; cbn in Hp; simplify_eq; cbn; first [by eexists (_ ++ [_]); rewrite <- app_assoc | by eexists].
  - destruct (IHf w) as [evs1 H1]. destruct (exec fac w) as [r w1]. cbn in H1.
    destruct (IH r w1) as [evs2 ->]. rewrite H1. exists (evs2 ++ evs1). by rewrite app_assoc.
  - destruct (IH tt (detach task w)) as [evs ->]. by exists evs.
Qed.

Lemma run_log_keeps {A : Type} (p : Async A) (w : World) (ev : Event) :
  ev ∈ log w -> ev ∈ log (exec p w).2.
Proof. intros Hin. destruct (run_log_grows p w) as [evs ->]. set_solver. Qed.

Lemma attempt_logs_failure fetcher normalize msg w e :
  (exec fetcher w).1 = Rejected e ->
  EvLog Warn msg (Some e) ∈ log (exec (attempt fetcher normalize msg) w).2.
Proof.
  intros H. rewrite run_attempt. destruct (exec fetcher w) as [r w']. cbn in H. subst r.
  cbn. set_solver.
Qed.

Lemma attempts_logs_primary ip msg1 msg2 w e :
  (exec (fetchIpInfo ip) w).1 = Rejected e ->
  EvLog Warn msg1 (Some e) ∈ log (exec (attempts ip msg1 msg2) w).2.
Proof.
  intros H1. unfold attempts. rewrite run_bind.
  pose proof (attempt_logs_failure (fetchIpInfo ip) normalizeIpInfo msg1 w e H1) as Hin.
  destruct (exec (attempt (fetchIpInfo ip) normalizeIpInfo msg1) w) as [[[i|]|e1] w1];
    cbn -[attempt] in *; try done.
  by apply run_log_keeps.
Qed.

Lemma attempts_logs_secondary ip msg1 msg2 w e :
  noInsight (exec (fetchIpInfo ip) w).1 ->
  (exec (fetchRadar ip) w).1 = Rejected e ->
  EvLog Warn msg2 (Some e) ∈ log (exec (attempts ip msg1 msg2) w).2.
Proof.
  intros H1 H2. unfold attempts. rewrite run_bind.
  pose proof (attempt_result (fetchIpInfo ip) normalizeIpInfo msg1 w) as Ha.
  assert ((match (exec (fetchIpInfo ip) w).1 with
           | Resolved p => insightOf normalizeIpInfo p
           | Rejected _ => None end) = None) as Hnone.
  { destruct (exec (fetchIpInfo ip) w).1; [by apply insightOf_None|done]. }
  rewrite Hnone in Ha.
  destruct (exec (attempt (fetchIpInfo ip) normalizeIpInfo msg1) w) as [r1 w1].
  cbn in Ha. subst r1. cbn -[attempt].
  apply attempt_logs_failure.
  by rewrite (NetLog_result _ _ _ _ w1 w (NetLog_fetchRadarWorker env encodeURIComponent ip)).
Qed.

(** C5.  Background revalidation is silent.  The promise the stale path
    starts always resolves, whatever the providers do, and so does any
    revalidation body under the outer [catch]; a provider that throws is
    logged with a warning.  When neither provider gives an insight the
    store is left as it was and no cache [set] is performed; the entry is
    replaced only by the normalized payload of the provider that did give
    one. *)
Theorem revalidation_failure_is_silent (ip : string) (w : World) :
  let r := exec (background ip) w in
  r.1 = Resolved tt /\
  (forall (body : Async unit) (w0 : World),
     (exec (tryCatch body
              (fun error => await (Log Warn "Background revalidation error" (Some error)))) w0).1
     = Resolved tt) /\
  (forall e, (exec (fetchIpInfo ip) w).1 = Rejected e ->
     EvLog Warn "ipinfo revalidation failed" (Some e) ∈ log r.2) /\
  (forall e, noInsight (exec (fetchIpInfo ip) w).1 ->
     (exec (fetchRadar ip) w).1 = Rejected e ->
     EvLog Warn "Cloudflare Radar revalidation failed" (Some e) ∈ log r.2) /\
  (noInsight (exec (fetchIpInfo ip) w).1 -> noInsight (exec (fetchRadar ip) w).1 ->
     store r.2 = store w /\ cacheSets (log r.2) = cacheSets (log w)) /\
  (forall payload,
     (exec (fetchIpInfo ip) w).1 = Resolved (Some payload) -> truthy payload = true ->
     store r.2 = <[ip := {| data := normalizeIpInfo payload; storedAt := now w |}]> (store w)) /\
  (forall payload,
     noInsight (exec (fetchIpInfo ip) w).1 ->
     (exec (fetchRadar ip) w).1 = Resolved (Some payload) -> truthy payload = true ->
     store r.2 = <[ip := {| data := normalizeRadar payload; storedAt := now w |}]> (store w)).
Proof.
  cbn zeta. rewrite run_background.
  pose proof (NetLog_untouched ttlMs staleTtlMs net _
    (NetLog_attempts ip "ipinfo revalidation failed" "Cloudflare Radar revalidation failed") w)
    as (Hs & Hn & _ & Hc).
  split; [apply tryCatch_log_resolves|].
  split; [intros; apply tryCatch_log_resolves|].
  rewrite run_revalidate.
  split; [|split; [|split; [|split]]].
  - intros e H1.
    pose proof (attempts_logs_primary ip "ipinfo revalidation failed"
                  "Cloudflare Radar revalidation failed" w e H1) as Hin.
    destruct (exec (attempts ip _ _) w) as [[[i|]|e'] w']; cbn in *; set_solver.
  - intros e H1 H2.
    pose proof (attempts_logs_secondary ip "ipinfo revalidation failed"
                  "Cloudflare Radar revalidation failed" w e H1 H2) as Hin.
    destruct (exec (attempts ip _ _) w) as [[[i|]|e'] w']; cbn in *; set_solver.
  - intros H1 H2.
    pose proof (attempts_none ip "ipinfo revalidation failed"
                  "Cloudflare Radar revalidation failed" w H1 H2) as Hr.
    destruct (exec (attempts ip _ _) w) as [r w']; cbn in *. by subst r.
  - intros payload H1 Ht.
    destruct (attempts_primary ip "ipinfo revalidation failed"
                "Cloudflare Radar revalidation failed" w payload H1 Ht) as [Hr _].
    destruct (exec (attempts ip _ _) w) as [r w']; cbn in *. subst r. cbn. by rewrite Hs, Hn.
  - intros payload H1 H2 Ht.
    destruct (attempts_secondary ip "ipinfo revalidation failed"
                "Cloudflare Radar revalidation failed" w payload H1 H2 Ht) as [Hr _].
    destruct (exec (attempts ip _ _) w) as [r w']; cbn in *. subst r. cbn. by rewrite Hs, Hn.
Qed.

(** C6.  Provider fetches.  Without its credentials a client resolves to
    null and does nothing.  With them, a response whose status is not a
    success makes it reject with an [Error] naming the status; for Radar an
    envelope whose [success] is [false] makes it reject with "Radar lookup
    unsuccessful"; a successful response resolves to the payload (for Radar
    the envelope's [result]). *)
Theorem provider_fetch_outcomes (ip : string) (w : World) :
  (credential (IPINFO_TOKEN env) = None ->
     exec (fetchIpInfo ip) w = (Resolved None, w)) /\
  (forall token r,
     credential (IPINFO_TOKEN env) = Some token ->
     net (ipinfoUrl encodeURIComponent ip token) ipinfoInit = FetchResponds r ->
     let w' := record (EvFetch (ipinfoUrl encodeURIComponent ip token) ipinfoInit) w in
     (ok r = false ->
        exec (fetchIpInfo ip) w
        = (Rejected (Error ("ipinfo request failed: " +:+ pretty (status r))), w')) /\
     (forall payload, ok r = true -> body r = Some payload ->
        exec (fetchIpInfo ip) w = (Resolved (Some payload), w'))) /\
  (credential (CLOUDFLARE_ACCOUNT_ID env) = None \/
   credential (CLOUDFLARE_RADAR_TOKEN env) = None ->
     exec (fetchRadar ip) w = (Resolved None, w)) /\
  (forall account token r,
     credential (CLOUDFLARE_ACCOUNT_ID env) = Some account ->
     credential (CLOUDFLARE_RADAR_TOKEN env) = Some token ->
     net (radarUrl encodeURIComponent account ip) (radarHeaders token) = FetchResponds r ->
     let w' := record (EvFetch (radarUrl encodeURIComponent account ip) (radarHeaders token)) w in
     (ok r = false ->
        exec (fetchRadar ip) w
        = (Rejected (Error ("Cloudflare Radar request failed: " +:+ pretty (status r))), w')) /\
     (forall fields, ok r = true -> body r = Some (JObj fields) ->
        assoc "success" fields = Some (JBool false) ->
        exec (fetchRadar ip) w = (Rejected (Error "Radar lookup unsuccessful"), w')) /\
     (forall fields, ok r = true -> body r = Some (JObj fields) ->
        truthyOpt (assoc "success" fields) = true ->
        exec (fetchRadar ip) w = (Resolved (assoc "result" fields), w'))).
Proof.
  split; [|split; [|split]].
  - intros Hc. unfold fetchIpInfoWorker. by rewrite Hc.
  - intros token r Hc Hnet. unfold fetchIpInfoWorker, fetchWithTimeout, json. rewrite Hc.
    unfold ipinfoInit in Hnet. cbn. rewrite Hnet. cbn. split.
    + by intros ->.
    + by intros payload -> ->.
  - unfold fetchRadarWorker. intros [Hc|Hc]; rewrite Hc; [done|].
    by destruct (credential (CLOUDFLARE_ACCOUNT_ID env)).
  - intros account token r Ha Ht Hnet. unfold fetchRadarWorker, fetchWithTimeout, json.
    rewrite Ha, Ht. cbn. rewrite Hnet. cbn. split; [|split].
    + by intros ->.
    + intros fields -> -> Hs. cbn. by rewrite Hs.
    + intros fields -> -> Hs. cbn. rewrite Hs. cbn. by destruct (assoc "result" fields).
Qed.

(** C8.  [verifyRadarToken] never rejects.  It resolves to a boolean,
    which is [true] exactly when both credentials are set, the request got a
    response with a success status, and the response's JSON object has a
    truthy [success]; so missing credentials, a failed request, a
    non-success status and an unsuccessful envelope all give [false].  When
    [success] is a boolean flag, the result is that flag. *)
Theorem verifyRadarToken_never_throws (w : World) :
  exists b w',
    exec (verifyRadarToken env) w = (Resolved b, w') /\
    (b = true <->
     exists account token r fields,
       credential (CLOUDFLARE_ACCOUNT_ID env) = Some account /\
       credential (CLOUDFLARE_RADAR_TOKEN env) = Some token /\
       net (verifyUrl account) (radarHeaders token) = FetchResponds r /\
       ok r = true /\
       body r = Some (JObj fields) /\
       truthyOpt (assoc "success" fields) = true) /\
    (forall account token r fields flag,
       credential (CLOUDFLARE_ACCOUNT_ID env) = Some account ->
       credential (CLOUDFLARE_RADAR_TOKEN env) = Some token ->
       net (verifyUrl account) (radarHeaders token) = FetchResponds r ->
       ok r = true -> body r = Some (JObj fields) ->
       assoc "success" fields = Some (JBool flag) ->
       b = flag).
Proof.
  assert (Hfalse : forall w',
    exec (verifyRadarToken env) w = (Resolved false, w') ->
    ~ (exists account token r fields,
       credential (CLOUDFLARE_ACCOUNT_ID env) = Some account /\
       credential (CLOUDFLARE_RADAR_TOKEN env) = Some token /\
       net (verifyUrl account) (radarHeaders token) = FetchResponds r /\
       ok r = true /\
       body r = Some (JObj fields) /\
       truthyOpt (assoc "success" fields) = true) ->
    exists b w',
      exec (verifyRadarToken env) w = (Resolved b, w') /\
      (b = true <->
       exists account token r fields,
         credential (CLOUDFLARE_ACCOUNT_ID env) = Some account /\
         credential (CLOUDFLARE_RADAR_TOKEN env) = Some token /\
         net (verifyUrl account) (radarHeaders token) = FetchResponds r /\
         ok r = true /\
         body r = Some (JObj fields) /\
         truthyOpt (assoc "success" fields) = true) /\
      (forall account token r fields flag,
         credential (CLOUDFLARE_ACCOUNT_ID env) = Some account ->
         credential (CLOUDFLARE_RADAR_TOKEN env) = Some token ->
         net (verifyUrl account) (radarHeaders token) = FetchResponds r ->
         ok r = true -> body r = Some (JObj fields) ->
         assoc "success" fields = Some (JBool flag) ->
         b = flag)).
  { intros w' Hrun Hno. exists false, w'. split; [done|]. split; [split; [done|by intros ?]|].
    intros account token r fields flag Ha Ht Hnet Hok Hb Hs.
    destruct flag; [|done]. exfalso. apply Hno. exists account, token, r, fields.
    by rewrite Hs. }
  revert Hfalse. unfold verifyRadarToken.
  destruct (credential (CLOUDFLARE_ACCOUNT_ID env)) as [account|] eqn:Ha;
    [|intros Hfalse; apply (Hfalse w); [done|by intros (?&?&?&?&?&?)]].
  destruct (credential (CLOUDFLARE_RADAR_TOKEN env)) as [token|] eqn:Ht;
    [|intros Hfalse; apply (Hfalse w); [done|by intros (?&?&?&?&?&?&?)]].
  unfold fetchWithTimeout, json. cbn.
  destruct (net (verifyUrl account) (radarHeaders token)) as [e|r] eqn:Hnet; cbn.
  { intros Hfalse; eapply Hfalse; [done|]. intros (?&?&?&?&?&?&?&?). simplify_eq; congruence. }
  destruct (ok r) eqn:Hok; cbn.
  2:{ intros Hfalse; eapply Hfalse; [done|]. intros (?&?&?&?&?&?&?&?&?&?). simplify_eq. congruence. }
  destruct (body r) as [payload|] eqn:Hb; cbn.
  2:{ intros Hfalse; eapply Hfalse; [done|]. intros (?&?&?&?&?&?&?&?&?&?). simplify_eq; congruence. }
  destruct payload as [|b0|n|s|items|fields]; cbn;
    try (intros Hfalse; eapply Hfalse; [done|]; intros (?&?&?&?&?&?&?&?&?&?); simplify_eq; congruence).
  intros _.
  eexists (truthyOpt (assoc "success" fields)), _. split; [done|]. split; [split|].
  - intros Hs. by exists account, token, r, fields.
  - intros (?&?&?&?&?&?&?&?&?&?). simplify_eq. congruence.
  - intros ? ? ? fields0 flag ? ? Hnet' ? Hb' Hs.
    assert (fields0 = fields) as -> by congruence. by rewrite Hs.
Qed.

End Properties.

(** ** The routes *)

Section RouteProperties.

Variable env : Env.
Variable encodeURIComponent : string -> string.
Variable normalizeIpInfo : Json -> NormalizedIpInsight.
Variable normalizeRadar : Json -> NormalizedIpInsight.
Variable ttlMs : Z.
Variable staleTtlMs : Z.
Variable net : string -> RequestInit -> FetchOutcome.

Local Abbreviation exec := (run ttlMs staleTtlMs net).
Local Abbreviation lookup := (lookupIpInsight env encodeURIComponent normalizeIpInfo normalizeRadar).
Local Abbreviation ipRoute := (getIp env encodeURIComponent normalizeIpInfo normalizeRadar).

(** A parameter that is not a dotted quad of one to three digits each is
    answered 400 before anything else happens: the world is untouched, so
    the lookup service was not called. *)
Lemma getIp_invalid (param : option string) (w : World) :
  invalidIp param = true ->
  exec (ipRoute param) w
  = (Resolved (jsonResponse (JObj [("error", JStr "Invalid IP address")]) 400), w).
Proof.
  intros Hinv. unfold getIp. rewrite run_tryCatch.
  destruct param as [ip|]; [|done]. cbn in Hinv. by rewrite Hinv.
Qed.

(** A valid parameter goes to the lookup service; what it resolves to is
    answered as JSON with status 200. *)
Lemma getIp_found (ip : string) (w : World) (insight : NormalizedIpInsight) (w' : World) :
  invalidIp (Some ip) = false ->
  exec (lookup ip) w = (Resolved insight, w') ->
  exec (ipRoute (Some ip)) w = (Resolved (jsonResponse (insightJson insight) 200), w').
Proof.
  intros Hinv Hrun. unfold getIp. rewrite run_tryCatch. cbn in Hinv.
  rewrite Hinv, run_bind, Hrun. reflexivity.
Qed.

(** Whatever the lookup service rejects with, the route answers 500 and the
    error's message; the status an [ApiError] carries is not looked at. *)
Lemma getIp_rejected (ip : string) (w : World) (e : JsError) (w' : World) :
  invalidIp (Some ip) = false ->
  exec (lookup ip) w = (Rejected e, w') ->
  exec (ipRoute (Some ip)) w
  = (Resolved (jsonResponse (JObj [("error", JStr "Internal Server Error");
                                   ("message", JStr (message e))]) 500),
     record (EvLog LogError "Basic IP lookup failed" (Some e)) w').
Proof.
  intros Hinv Hrun. unfold getIp. rewrite run_tryCatch. cbn in Hinv.
  rewrite Hinv, run_bind, Hrun. reflexivity.
Qed.

(** The Express error handler answers with the status the [ApiError]
    carries. *)
Lemma errorHandler_ApiError (code : Z) (msg : string) (w : World) :
  (exec (Express.errorHandler (ApiError code msg)) w).1
  = Resolved (jsonResponse (JObj [("error", JStr msg)]) code).
Proof. unfold Express.errorHandler. cbn. by destruct (Z.leb 500 code). Qed.

Lemma NetLog_verifyRadarToken : NetLog (verifyRadarToken env).
Proof.
  unfold verifyRadarToken.
  destruct (credential _); [|auto with netlog].
  destruct (credential _); [|auto with netlog].
  apply NetLog_tryCatch; [|auto with netlog].
  apply NetLog_bind; [apply NetLog_fetchWithTimeout|]. intros r.
  destruct (negb (ok r)); [auto with netlog|].
  apply NetLog_bind; [apply NetLog_json|]. intros payload.
  apply NetLog_bind; auto with netlog.
Qed.

Lemma verifyRadarToken_resolves (w : World) :
  exists b w', exec (verifyRadarToken env) w = (Resolved b, w').
Proof.
  unfold verifyRadarToken.
  destruct (credential _); [|by eexists _, _].
  destruct (credential _); [|by eexists _, _].
  rewrite run_tryCatch.
  match goal with |- context [exec ?body w] => destruct (exec body w) as [[b|e] w'] end;
    by eexists _, _.
Qed.

(** What the worker's health route answers: status, version, environment,
    uptime, the cache backend with [enabled], [radarHealthy] and a
    timestamp; it has no [ipinfoConfigured], and its [cache] object has
    neither [warmingInProgress] nor [warmedCount]. *)
Lemma getHealth_body (w : World) :
  exists radarHealthy w',
    exec (getHealth env) w
    = (Resolved
         (jsonResponse
            (JObj [("status", JStr "ok");
                   ("version", JStr "1.0.0");
                   ("environment", JStr "cloudflare-workers");
                   ("uptime", JNum (now w));
                   ("cache", JObj [("backend", JStr (default "kv" (CACHE_BACKEND env)));
                                   ("enabled", JBool true)]);
                   ("radarHealthy", JBool radarHealthy);
                   ("timestamp", JNum (now w))])
            200),
       w') /\
    now w' = now w.
Proof.
  destruct (verifyRadarToken_resolves w) as (b & w' & Hrun).
  assert (Hnow : now w' = now w).
  { pose proof (NetLog_untouched ttlMs staleTtlMs net _ NetLog_verifyRadarToken w) as (_ & H & _).
    by rewrite Hrun in H. }
  exists b, w'. unfold getHealth. rewrite run_bind, Hrun. cbn. by rewrite Hnow.
Qed.

(** C10.  The health route of the worker.  Its answer has [status] and
    [radarHealthy], and a [cache] object with [backend]; it has no
    [ipinfoConfigured], and [cache] has neither [warmingInProgress] nor
    [warmedCount], which the claim expects of every health response and the
    Express route does give. *)
Theorem getHealth_lacks_fields (w : World) :
  exists body w',
    exec (getHealth env) w = (Resolved (jsonResponse body 200), w') /\
    hasField "status" body = true /\
    hasField "radarHealthy" body = true /\
    hasField "ipinfoConfigured" body = false /\
    exists cache,
      field "cache" body = Some cache /\
      hasField "backend" cache = true /\
      hasField "warmingInProgress" cache = false /\
      hasField "warmedCount" cache = false.
Proof.
  destruct (getHealth_body w) as (b & w' & Hrun & _).
  eexists _, w'. split; [exact Hrun|]. cbn. repeat split.
  eexists. by repeat split.
Qed.

(** The Express health route does report [ipinfoConfigured] and the
    warmer's [warmingInProgress] and [warmedCount]. *)
Lemma Express_health_body config appVersion uptime verify cacheWarmer (w : World) :
  (forall w0, exists b w1, exec verify w0 = (Resolved b, w1)) ->
  exists body w',
    exec (Express.health config appVersion uptime verify cacheWarmer) w
    = (Resolved (jsonResponse body 200), w') /\
    hasField "status" body = true /\
    hasField "ipinfoConfigured" body = true /\
    hasField "radarHealthy" body = true /\
    exists cache,
      field "cache" body = Some cache /\
      hasField "backend" cache = true /\
      hasField "warmingInProgress" cache = true /\
      hasField "warmedCount" cache = true.
Proof.
  intros Hverify. unfold Express.health. rewrite run_bind.
  destruct (credential (Express.CLOUDFLARE_ACCOUNT_ID config)) as [account|];
    [destruct (credential (Express.CLOUDFLARE_RADAR_TOKEN config)) as [token|]|].
  - rewrite run_bind. destruct (Hverify w) as (b & w1 & ->). cbn.
    eexists _, _. split; [reflexivity|]. cbn. repeat split; try done.
    eexists. by repeat split.
  - cbn. eexists _, _. split; [reflexivity|]. cbn. repeat split; try done.
    eexists. by repeat split.
  - cbn. eexists _, _. split; [reflexivity|]. cbn. repeat split; try done.
    eexists. by repeat split.
Qed.

End RouteProperties.

(** ** Worlds that differ only in what was read or logged *)

Lemma sameEffects_refl w : sameEffects w w.
Proof. by repeat split. Qed.

Lemma sameEffects_sym w1 w2 : sameEffects w1 w2 -> sameEffects w2 w1.
Proof. intros (?&?&?&?). by repeat split. Qed.

Lemma sameEffects_trans w1 w2 w3 :
  sameEffects w1 w2 -> sameEffects w2 w3 -> sameEffects w1 w3.
Proof. intros (?&?&?&?) (?&?&?&?). repeat split; congruence. Qed.

Lemma sameRun_trans {A : Type} (x y z : Outcome A * World) :
  sameRun x y -> sameRun y z -> sameRun x z.
Proof. intros [? ?] [? ?]. split; [congruence|by eapply sameEffects_trans]. Qed.

Lemma sameEffects_read key w : sameEffects (record (EvGetWithStale key) w) w.
Proof. by repeat split. Qed.

Lemma DedupFree_bind {A B : Type} (m : Async A) (f : A -> Async B) :
  DedupFree m -> (forall a, DedupFree (f a)) -> DedupFree (m ≫= f).
Proof.
  change (m ≫= f) with (bind m f). intros Hm Hf.
  induction m as [A a|A e|A X op k IH|A key fac IHf k IH|A task IHt k IH]; cbn in *; auto; done.
Qed.

Lemma DedupFree_settle {A : Type} (r : Outcome A) : DedupFree (settle r).
Proof. by destruct r. Qed.

Lemma NetLog_DedupFree {A : Type} (p : Async A) : NetLog p -> DedupFree p.
Proof. induction 1; cbn; auto. Qed.

Section Congruence.

Variable ttlMs : Z.
Variable staleTtlMs : Z.
Variable net : string -> RequestInit -> FetchOutcome.

Local Abbreviation exec := (run ttlMs staleTtlMs net).

Lemma perform_same {X : Type} (op : Op X) (w1 w2 : World) :
  sameEffects w1 w2 ->
  (perform ttlMs staleTtlMs net op w1).1 = (perform ttlMs staleTtlMs net op w2).1 /\
  sameEffects (perform ttlMs staleTtlMs net op w1).2 (perform ttlMs staleTtlMs net op w2).2.
Proof.
  unfold sameEffects, fetches, cacheSets. intros (Hs & Hn & Hf & Hc). destruct op; cbn.
  - split; [|by repeat split]. unfold getWithStale. by rewrite Hs, Hn.
  - by rewrite Hs, Hn, Hf, Hc.
  - by rewrite Hs, Hn, Hf, Hc.
  - by repeat split.
  - by repeat split.
Qed.

(** A computation cannot tell such worlds apart, and keeps them so. *)
Lemma run_same {A : Type} (p : Async A) (w1 w2 : World) :
  sameEffects w1 w2 -> sameRun (exec p w1) (exec p w2).
Proof.
  revert w1 w2.
  induction p as [A a|A e|A X op k IH|A key fac IHf k IH|A task IHt k IH];
    intros w1 w2 Hw; cbn.
  - by split.
  - by split.
  - destruct (perform_same op w1 w2 Hw) as [Hx Hw'].
    destruct (perform ttlMs staleTtlMs net op w1) as [x1 w1'].
    destruct (perform ttlMs staleTtlMs net op w2) as [x2 w2']. cbn in Hx, Hw'. subst x2.
    by apply IH.
  - destruct (IHf w1 w2 Hw) as [Hr Hw'].
    destruct (exec fac w1) as [r1 w1']. destruct (exec fac w2) as [r2 w2'].
    cbn in Hr, Hw'. subst r2. by apply IH.
  - apply IH. destruct Hw as (?&?&?&?). by repeat split.
Qed.

End Congruence.

(** ** Concurrent lookups of one address *)

Section Dedup.

Variable env : Env.
Variable encodeURIComponent : string -> string.
Variable normalizeIpInfo : Json -> NormalizedIpInsight.
Variable normalizeRadar : Json -> NormalizedIpInsight.
Variable ttlMs : Z.
Variable staleTtlMs : Z.
Variable net : string -> RequestInit -> FetchOutcome.

(** The address all callers ask for, and the world they start in. *)
Variable ip : string.
Variable w : World.

Local Abbreviation exec := (run ttlMs staleTtlMs net).
Local Abbreviation lookup := (lookupIpInsight env encodeURIComponent normalizeIpInfo normalizeRadar ip).
Local Abbreviation fac := (lookupFactory env encodeURIComponent normalizeIpInfo normalizeRadar ip).
Local Abbreviation key := ("ip:" +:+ ip).
Local Abbreviation advance := (advance ttlMs staleTtlMs net).
Local Abbreviation step := (step ttlMs staleTtlMs net).
Local Abbreviation schedule := (schedule ttlMs staleTtlMs net).
Local Abbreviation turns := (@turns ttlMs staleTtlMs net NormalizedIpInsight).
Local Abbreviation Fresh := (Fresh env encodeURIComponent normalizeIpInfo normalizeRadar ip).
Local Abbreviation AtDedup := (AtDedup env encodeURIComponent normalizeIpInfo normalizeRadar ip).
Local Abbreviation Wait := (Wait ip).
Local Abbreviation Known := (Known env encodeURIComponent normalizeIpInfo normalizeRadar ip).
Local Abbreviation Core :=
  (Core env encodeURIComponent normalizeIpInfo normalizeRadar ttlMs staleTtlMs net ip w).
Local Abbreviation Entering :=
  (Entering env encodeURIComponent normalizeIpInfo normalizeRadar ttlMs staleTtlMs net ip w).
Local Abbreviation Resolving :=
  (Resolving env encodeURIComponent normalizeIpInfo normalizeRadar ttlMs staleTtlMs net ip w).
Local Abbreviation Quiet := (Quiet env encodeURIComponent normalizeIpInfo normalizeRadar ip).

Lemma DedupFree_attempt fetcher normalize msg :
  NetLog fetcher -> DedupFree (attempt fetcher normalize msg).
Proof. intros Hf. apply NetLog_DedupFree. unfold attempt. auto 7 with netlog. Qed.

Lemma DedupFree_fac : DedupFree fac.
Proof.
  unfold lookupFactory. apply DedupFree_bind; [done|]. intros [[entry|] st]; [done|].
  apply DedupFree_bind; [apply DedupFree_attempt, NetLog_fetchIpInfoWorker|].
  intros insight. apply DedupFree_bind.
  - destruct insight; [done|]. apply DedupFree_attempt, NetLog_fetchRadarWorker.
  - intros [i|]; [|done]. by apply DedupFree_bind.
Qed.

(** One turn of a caller that has not read the cache yet. *)
Lemma advance_Fresh w' pend n :
  exists t', advance (Running lookup) w' pend n = (t', record (EvGetWithStale ip) w', pend, n) /\
             (AtDedup t' \/ Gone t').
Proof.
  unfold lookupIpInsight. cbn.
  destruct (getWithStale ttlMs staleTtlMs ip w') as [[entry|] st]; cbn.
  - eexists. split; [reflexivity|]. right. by destruct st.
  - eexists. split; [reflexivity|]. by left.
Qed.

Lemma advance_Gone t w' pend n :
  Gone t -> Gone (advance t w' pend n).1.1.1.
Proof.
  destruct t as [p|k0 k|r]; [|done|done].
  destruct p as [a|e|X op k|k0 f k|task k]; cbn; try done.
  intros Hk. destruct (perform ttlMs staleTtlMs net op w'). cbn. apply Hk.
Qed.

Lemma advance_Known t w' pend n :
  Known t -> Known (advance t w' pend n).1.1.1.
Proof.
  intros [->|[->|[->|Hg]]].
  - destruct (advance_Fresh w' pend n) as (t' & -> & [H|H]); cbn; unfold Known; auto.
  - cbn. destruct (pend !! key); cbn; right; right; by left.
  - cbn. right; right; by left.
  - right; right; right. by apply advance_Gone.
Qed.

Lemma release_Gone k0 r t : Gone t -> Gone (release k0 r t).
Proof. by destruct t. Qed.

Lemma release_Known k0 r t : Known t -> Known (release k0 r t).
Proof.
  intros [->|[->|[->|Hg]]]; cbn.
  - by left.
  - right; by left.
  - destruct (String.eqb key k0); [|right; right; by left].
    right; right; right. cbn. apply DedupFree_settle.
  - right; right; right. by apply release_Gone.
Qed.

Lemma step_length s c : length (callers (step s c)) = length (callers s).
Proof.
  destruct c as [i|k0]; cbn.
  - destruct (callers s !! i) as [t|]; [|done].
    destruct (advance t (world s) (pending s) (invoked s)) as [[[t' w'] pend'] n'].
    cbn. by rewrite length_insert.
  - destruct (pending s !! k0) as [t|]; [|done].
    destruct (advance t (world s) (pending s) (invoked s)) as [[[t' w'] pend'] n'].
    destruct t'; cbn; by rewrite ?length_fmap.
Qed.

Lemma step_Known s c : Forall Known (callers s) -> Forall Known (callers (step s c)).
Proof.
  intros Hk. destruct c as [i|k0]; cbn.
  - destruct (callers s !! i) as [t|] eqn:Hi; [|done].
    pose proof (advance_Known t (world s) (pending s) (invoked s)
                  (Forall_lookup_1 _ _ _ _ Hk Hi)) as Ht.
    destruct (advance t (world s) (pending s) (invoked s)) as [[[t' w'] pend'] n'].
    cbn in *. by apply Forall_insert.
  - destruct (pending s !! k0) as [t|]; [|done].
    destruct (advance t (world s) (pending s) (invoked s)) as [[[t' w'] pend'] n'].
    destruct t'; cbn; try done.
    apply Forall_fmap. eapply Forall_impl; [exact Hk|]. intros t0. apply release_Known.
Qed.

Lemma Exists_insert_keep {A : Type} (P : A -> Prop) (l : list A) (i : nat) (x y : A) :
  l !! i = Some x -> (P x -> P y) -> Exists P l -> Exists P (<[i := y]> l).
Proof.
  intros Hi Hxy. rewrite !Exists_exists. intros (z & Hz & HP).
  apply list_elem_of_lookup in Hz as [j Hj].
  destruct (decide (i = j)) as [->|Hne].
  - exists y. split; [|apply Hxy; congruence].
    apply list_elem_of_lookup. exists j. apply list_lookup_insert_eq.
    by eapply lookup_lt_Some.
  - exists z. split; [|done]. apply list_elem_of_lookup. exists j.
    by rewrite list_lookup_insert_ne.
Qed.

Lemma step_Gone s c : Exists Gone (callers s) -> Exists Gone (callers (step s c)).
Proof.
  intros Hg. destruct c as [i|k0]; cbn.
  - destruct (callers s !! i) as [t|] eqn:Hi; [|done].
    pose proof (advance_Gone t (world s) (pending s) (invoked s)) as Ht.
    destruct (advance t (world s) (pending s) (invoked s)) as [[[t' w'] pend'] n'].
    cbn in *. by eapply Exists_insert_keep.
  - destruct (pending s !! k0) as [t|]; [|done].
    destruct (advance t (world s) (pending s) (invoked s)) as [[[t' w'] pend'] n'].
    destruct t'; cbn; try done.
    apply Exists_fmap. eapply Exists_impl; [exact Hg|]. intros t0. apply release_Gone.
Qed.

Lemma Fresh_not_Wait t : Fresh t -> Wait t -> False.
Proof. unfold Fresh, Wait. congruence. Qed.

Lemma AtDedup_not_Wait t : AtDedup t -> Wait t -> False.
Proof. unfold AtDedup, Wait. congruence. Qed.

Lemma Wait_Exists_Gone_release r (l : list Task) :
  Exists Wait l -> Exists Gone (release key r <$> l).
Proof.
  intros H. apply Exists_fmap. eapply Exists_impl; [exact H|].
  intros t ->. cbn. rewrite String.eqb_refl. cbn. apply DedupFree_settle.
Qed.

Lemma insert_here {A : Type} (P : A -> Prop) (l : list A) (i : nat) (x y : A) :
  l !! i = Some x -> P y -> Exists P (<[i := y]> l).
Proof.
  intros Hi Hy. apply Exists_exists. exists y. split; [|done].
  apply list_elem_of_lookup. exists i. apply list_lookup_insert_eq.
  by eapply lookup_lt_Some.
Qed.

Lemma sameRun_after_read {A : Type} (p : Async A) (w' : World) (x : Outcome A * World) :
  sameRun (exec p w') x -> sameRun (exec p (record (EvGetWithStale ip) w')) x.
Proof.
  intros H. eapply sameRun_trans; [|exact H].
  apply run_same, sameEffects_read.
Qed.

Lemma Core_step s c :
  Core s -> Exists Gone (callers (step s c)) \/ Core (step s c).
Proof.
  intros HC. destruct c as [i|k0]; cbn.
  - (* a caller takes a turn *)
    destruct (callers s !! i) as [t|] eqn:Hi; [|by right].
    destruct HC as [(Hp & Hn & Hall & Hw)|(p & Hp & Hn & Hall & Hex & Hdf & Hrun)].
    + destruct (Forall_lookup_1 _ _ _ _ Hall Hi) as [->| ->].
      * destruct (advance_Fresh (world s) (pending s) (invoked s)) as (t' & -> & [Ht|Ht]); cbn.
        -- right. left. split; [done|]. split; [done|]. split.
           ++ apply Forall_insert; [done|by right].
           ++ eapply sameEffects_trans; [apply sameEffects_read|done].
        -- left. by eapply insert_here.
      * cbn. rewrite Hp, lookup_empty. cbn. right. right. exists fac.
        split; [by rewrite insert_empty|]. split; [by rewrite Hn|].
        split; [|split; [|split]].
        -- apply Forall_insert; [|by right; right].
           eapply Forall_impl; [exact Hall|]. intros t0 [?|?]; auto.
        -- by eapply insert_here.
        -- apply DedupFree_fac.
        -- by apply run_same.
    + destruct (Forall_lookup_1 _ _ _ _ Hall Hi) as [->|[->| ->]].
      * destruct (advance_Fresh (world s) (pending s) (invoked s)) as (t' & -> & [Ht|Ht]); cbn.
        -- right. right. exists p. split; [done|]. split; [done|].
           split; [|split; [|split]].
           ++ apply Forall_insert; [done|by right; left].
           ++ eapply Exists_insert_keep; [exact Hi| |exact Hex].
              intros Hw'. by destruct (Fresh_not_Wait (Running lookup)).
           ++ done.
           ++ by apply sameRun_after_read.
        -- left. by eapply insert_here.
      * cbn. rewrite Hp, lookup_singleton_eq. cbn. right. right. exists p.
        split; [done|]. split; [done|]. split; [|split; [|split]]; [| |done|done].
        -- apply Forall_insert; [done|by right; right].
        -- by eapply insert_here.
      * cbn. right. right. exists p.
        split; [done|]. split; [done|]. split; [|split; [|split]]; [| |done|done].
        -- apply Forall_insert; [done|by right; right].
        -- by eapply insert_here.
  - (* the factory in flight takes a turn *)
    destruct (pending s !! k0) as [t|] eqn:Hk; [|by right].
    destruct HC as [(Hp & Hn & Hall & Hw)|(p & Hp & Hn & Hall & Hex & Hdf & Hrun)].
    + by rewrite Hp, lookup_empty in Hk.
    + rewrite Hp in Hk. apply lookup_singleton_Some in Hk as [<- <-].
      destruct p as [a|e|X op k|k1 f k|task k]; cbn in *.
      * left. by apply Wait_Exists_Gone_release.
      * left. by apply Wait_Exists_Gone_release.
      * destruct (perform ttlMs staleTtlMs net op (world s)) as [x w'] eqn:Hperf. cbn.
        right. right. exists (k x). rewrite Hp, insert_singleton_eq.
        split; [done|]. split; [done|]. split; [done|]. split; [done|]. split; [apply Hdf|done].
      * done.
      * right. right. exists (k tt). rewrite Hp, insert_singleton_eq.
        split; [done|]. split; [done|]. split; [done|]. split; [done|]. split; [apply Hdf|done].
Qed.

Lemma Entering_step s c : Entering s -> Entering (step s c).
Proof.
  intros [Hk [Hg|HC]]; split; try by apply step_Known.
  - left. by apply step_Gone.
  - by apply Core_step.
Qed.

Lemma schedule_cons c cs s : schedule (c :: cs) s = schedule cs (step s c).
Proof. reflexivity. Qed.

Lemma Entering_schedule cs s : Entering s -> Entering (schedule cs s).
Proof.
  revert s. induction cs as [|c cs IH]; intros s Hs; [done|].
  rewrite schedule_cons. apply IH. by apply Entering_step.
Qed.

Lemma schedule_length cs s : length (callers (schedule cs s)) = length (callers s).
Proof.
  revert s. induction cs as [|c cs IH]; intros s; [done|].
  rewrite schedule_cons, IH. apply step_length.
Qed.

Lemma release_all_Wait r (l : list Task) :
  Forall Wait l ->
  Forall (fun t => t = Running (settle r) \/ t = Settled r) (release key r <$> l).
Proof.
  intros H. apply Forall_fmap. eapply Forall_impl; [exact H|].
  intros t ->. cbn. rewrite String.eqb_refl. by left.
Qed.

Lemma Resolving_step s c : Resolving s -> Resolving (step s c).
Proof.
  intros [(p & Hp & Hn & Hall & Hdf & Hrun)|(r & Hp & Hn & Hall & Hrun)];
    destruct c as [i|k0]; cbn.
  - destruct (callers s !! i) as [t|] eqn:Hi; [|left; by exists p].
    rewrite (Forall_lookup_1 _ _ _ _ Hall Hi). cbn. left. exists p.
    split; [done|]. split; [done|]. split; [|done].
    by apply Forall_insert.
  - destruct (pending s !! k0) as [t|] eqn:Hk; [|left; by exists p].
    rewrite Hp in Hk. apply lookup_singleton_Some in Hk as [<- <-].
    destruct p as [a|e|X op k|k1 f k|task k]; cbn in *.
    + right. exists (Resolved a). rewrite Hp, delete_singleton_eq, fmap_empty.
      split; [done|]. split; [done|]. split; [by apply release_all_Wait|done].
    + right. exists (Rejected e). rewrite Hp, delete_singleton_eq, fmap_empty.
      split; [done|]. split; [done|]. split; [by apply release_all_Wait|done].
    + destruct (perform ttlMs staleTtlMs net op (world s)) as [x w'] eqn:Hperf. cbn.
      left. exists (k x). rewrite Hp, insert_singleton_eq.
      split; [done|]. split; [done|]. split; [done|]. split; [apply Hdf|done].
    + done.
    + left. exists (k tt). rewrite Hp, insert_singleton_eq.
      split; [done|]. split; [done|]. split; [done|]. split; [apply Hdf|done].
  - destruct (callers s !! i) as [t|] eqn:Hi; [|right; by exists r].
    right. exists r.
    destruct (Forall_lookup_1 _ _ _ _ Hall Hi) as [->| ->].
    + destruct r as [a|e]; cbn; (split; [done|]; split; [done|]; split; [|done]);
        apply Forall_insert; auto.
    + cbn. split; [done|]. split; [done|]. split; [|done]. apply Forall_insert; auto.
  - rewrite Hp, lookup_empty. right. by exists r.
Qed.

Lemma Resolving_schedule cs s : Resolving s -> Resolving (schedule cs s).
Proof.
  revert s. induction cs as [|c cs IH]; intros s Hs; [done|].
  rewrite schedule_cons. apply IH. by apply Resolving_step.
Qed.

Lemma Forall_eq_replicate {A : Type} (x : A) (l : list A) :
  Forall (fun y => y = x) l -> l = replicate (length l) x.
Proof. induction 1 as [|y l -> _ IH]; cbn; [done|]. by rewrite <- IH. Qed.

Lemma Entering_start n :
  Entering (start (replicate n lookup) w).
Proof.
  assert (Hall : Forall Fresh (Running <$> replicate n lookup)).
  { apply Forall_fmap, Forall_replicate. reflexivity. }
  split.
  - cbn. eapply Forall_impl; [exact Hall|]. intros t Ht. by left.
  - right. left. cbn. split; [done|]. split; [done|]. split.
    + eapply Forall_impl; [exact Hall|]. intros t Ht. by left.
    + apply sameEffects_refl.
Qed.

(** When every caller waits, the callers are all on the one resolution. *)
Lemma Entering_all_waiting s :
  Entering s -> callers s <> [] ->
  Forall (fun t => isWaiting t = true) (callers s) ->
  Resolving s.
Proof.
  intros [Hk [Hg|[(Hp & Hn & Hall & Hw)|(p & Hp & Hn & Hall & Hex & Hdf & Hrun)]]] Hne Hwait.
  - exfalso. apply Exists_exists in Hg as (t & Hin & Hg).
    pose proof (proj1 (Forall_forall _ _) Hwait t Hin) as Ht.
    by destruct t.
  - exfalso. destruct (callers s) as [|t l]; [done|].
    apply Forall_cons in Hall as [[->| ->] _]; by apply Forall_cons in Hwait as [Ht _].
  - left. exists p. split; [done|]. split; [done|]. split; [|done].
    apply Forall_forall. intros t Hin.
    pose proof (proj1 (Forall_forall _ _) Hwait t Hin) as Ht.
    destruct (proj1 (Forall_forall _ _) Hall t Hin) as [->|[->|Hw']]; done.
Qed.

(** When every caller has settled, all settled with the one outcome. *)
Lemma Resolving_all_settled s :
  Resolving s -> callers s <> [] ->
  Forall (fun t => isSettled t = true) (callers s) ->
  pending s = ∅ /\ invoked s = 1%nat /\
  callers s = replicate (length (callers s)) (Settled (exec fac w).1) /\
  sameEffects (world s) (exec fac w).2.
Proof.
  intros [(p & Hp & Hn & Hall & Hdf & Hrun)|(r & Hp & Hn & Hall & [Hr Hw])] Hne Hset.
  - exfalso. destruct (callers s) as [|t l]; [done|].
    apply Forall_cons in Hall as [-> _]. by apply Forall_cons in Hset as [Ht _].
  - cbn in Hr, Hw. subst r. split; [done|]. split; [done|]. split; [|done].
    apply Forall_eq_replicate, Forall_forall. intros t Hin.
    pose proof (proj1 (Forall_forall _ _) Hset t Hin) as Ht.
    destruct (proj1 (Forall_forall _ _) Hall t Hin) as [->| ->]; done.
Qed.

Lemma lookup_as_factory :
  store w !! ip = None -> sameRun (exec fac w) (exec lookup w).
Proof.
  intros Habs.
  rewrite (run_lookup_miss env encodeURIComponent normalizeIpInfo normalizeRadar
             ttlMs staleTtlMs net ip w)
    by (by rewrite (getWithStale_absent ttlMs staleTtlMs ip w Habs)).
  destruct (run_same ttlMs staleTtlMs net fac _ _ (sameEffects_read ip w)) as [H1 H2].
  split; [done|]. by apply sameEffects_sym.
Qed.

(** Safety: however the turns are interleaved, if at some point all [n]
    callers wait on the deduplicator and later all have settled, one
    factory was invoked and everyone has its outcome. *)
Lemma shared_resolution (n : nat) (sched1 sched2 : list Choice) :
  store w !! ip = None ->
  (0 < n)%nat ->
  let s1 := schedule sched1 (start (replicate n lookup) w) in
  let s2 := schedule sched2 s1 in
  Forall (fun t => isWaiting t = true) (callers s1) ->
  Forall (fun t => isSettled t = true) (callers s2) ->
  (exists p, pending s1 = {[key := Running p]}) /\
  pending s2 = ∅ /\
  invoked s2 = 1%nat /\
  callers s2 = replicate n (Settled (exec lookup w).1) /\
  sameEffects (world s2) (exec lookup w).2.
Proof.
  intros Habs Hn s1 s2 Hwait Hset.
  assert (Hlen1 : length (callers s1) = n).
  { unfold s1. rewrite schedule_length. cbn. by rewrite length_fmap, length_replicate. }
  assert (Hlen2 : length (callers s2) = n).
  { unfold s2. by rewrite schedule_length. }
  assert (Hne1 : callers s1 <> []) by (intros H; rewrite H in Hlen1; cbn in Hlen1; lia).
  assert (Hne2 : callers s2 <> []) by (intros H; rewrite H in Hlen2; cbn in Hlen2; lia).
  pose proof (Entering_all_waiting s1 (Entering_schedule sched1 _ (Entering_start n)) Hne1 Hwait)
    as Hres.
  assert (Hp1 : exists p, pending s1 = {[key := Running p]}).
  { destruct Hres as [(p & Hp & _)|(r & _ & _ & Hall & _)]; [by exists p|].
    exfalso. destruct (callers s1) as [|t l]; [done|].
    apply Forall_cons in Hall as [[->| ->] _]; by apply Forall_cons in Hwait as [Ht _]. }
  destruct (Resolving_all_settled s2 (Resolving_schedule sched2 s1 Hres) Hne2 Hset)
    as (Hp & Hinv & Hcallers & Hw).
  destruct (lookup_as_factory Habs) as [Hr Hw'].
  split; [done|]. split; [done|]. split; [done|]. split.
  - rewrite Hcallers, Hlen2. by rewrite Hr.
  - by eapply sameEffects_trans.
Qed.

(** *** There are such interleavings *)

(** Given its turns, the factory in flight settles and its key leaves the
    pending set. *)
Lemma factory_settles (m : nat) :
  forall p s,
    turns p (world s) = m -> pending s = {[key := Running p]} -> DedupFree p ->
    pending (schedule (replicate m (StepFactory key)) s) = ∅.
Proof.
  induction m as [|m IH]; intros p s Hm Hp Hdf.
  - destruct p as [a|e|X op k|k1 f k|task k]; cbn in Hm; try done.
    by destruct (perform ttlMs staleTtlMs net op (world s)).
  - cbn [replicate]. rewrite schedule_cons.
    destruct p as [a|e|X op k|k1 f k|task k]; cbn in Hm, Hdf; try done.
    + assert (m = 0%nat) as -> by lia. cbn. rewrite Hp, lookup_singleton_eq. cbn.
      by rewrite delete_singleton_eq, fmap_empty.
    + assert (m = 0%nat) as -> by lia. cbn. rewrite Hp, lookup_singleton_eq. cbn.
      by rewrite delete_singleton_eq, fmap_empty.
    + destruct (perform ttlMs staleTtlMs net op (world s)) as [x w'] eqn:Hperf.
      apply (IH (k x)); [| |apply Hdf].
      * cbn. rewrite Hp, lookup_singleton_eq. cbn. rewrite Hperf. cbn. lia.
      * cbn. rewrite Hp, lookup_singleton_eq. cbn. rewrite Hperf. cbn.
        by rewrite insert_singleton_eq.
    + apply (IH (k tt)); [| |apply Hdf].
      * cbn. rewrite Hp, lookup_singleton_eq. cbn. lia.
      * cbn. rewrite Hp, lookup_singleton_eq. cbn. by rewrite insert_singleton_eq.
Qed.

Lemma advance_Fresh_miss w' pend n :
  store w' !! ip = None ->
  advance (Running lookup) w' pend n =
  (Running (Deduplicate key fac settle), record (EvGetWithStale ip) w', pend, n).
Proof.
  intros Habs. unfold lookupIpInsight. cbn.
  by rewrite (getWithStale_absent ttlMs staleTtlMs ip w' Habs).
Qed.

Lemma Quiet_step s i :
  Quiet s ->
  Quiet (step s (StepCaller i)) /\
  (forall j, j <> i -> callers (step s (StepCaller i)) !! j = callers s !! j) /\
  (forall t, callers s !! i = Some t ->
     exists t', callers (step s (StepCaller i)) !! i = Some t' /\
                (Fresh t -> AtDedup t') /\ (AtDedup t -> Wait t') /\ (Wait t -> Wait t')).
Proof.
  intros [Habs Hall]. cbn. destruct (callers s !! i) as [t|] eqn:Hi; [|by split; [|split]].
  assert (Hlt : (i < length (callers s))%nat) by (by eapply lookup_lt_Some).
  pose proof (Forall_lookup_1 _ _ _ _ Hall Hi) as Ht. unfold Fresh, AtDedup, Wait in Ht.
  destruct Ht as [->|[->| ->]].
  - rewrite (advance_Fresh_miss _ _ _ Habs). cbn. split; [split|split].
    + done.
    + apply Forall_insert; [done|]. right; by left.
    + intros j Hne. by apply list_lookup_insert_ne.
    + intros t0 [= <-]. eexists. split; [by apply list_lookup_insert_eq|].
      split; [done|]. split; intros H; discriminate H.
  - cbn. destruct (pending s !! key); cbn; (split; [split|split]); try done.
    1,4: apply Forall_insert; [done|]; right; by right.
    1,3: intros j Hne; by apply list_lookup_insert_ne.
    all: intros t0 [= <-]; eexists; (split; [by apply list_lookup_insert_eq|]);
      (split; [intros H; discriminate H|]); split; [done|intros H; discriminate H].
  - cbn. split; [split|split]; try done.
    + apply Forall_insert; [done|]. right; by right.
    + intros j Hne. by apply list_lookup_insert_ne.
    + intros t0 [= <-]. eexists. split; [by apply list_lookup_insert_eq|].
      split; [intros H; discriminate H|]. split; [intros H; discriminate H|done].
Qed.

Lemma enter_waits (l : list nat) :
  forall s, Quiet s ->
    Quiet (schedule (enter l) s) /\
    length (callers (schedule (enter l) s)) = length (callers s) /\
    forall i, (i < length (callers s))%nat ->
      i ∈ l \/ callers s !! i = Some (Waiting key settle) ->
      callers (schedule (enter l) s) !! i = Some (Waiting key settle).
Proof.
  induction l as [|j l IH]; intros s HQ.
  - split; [done|]. split; [done|]. intros i _ [Hin|H]; [by apply elem_of_nil in Hin|done].
  - change (enter (j :: l)) with (StepCaller j :: StepCaller j :: enter l).
    rewrite !schedule_cons.
    destruct (Quiet_step s j HQ) as (HQ1 & Hother1 & Hself1).
    destruct (Quiet_step _ j HQ1) as (HQ2 & Hother2 & Hself2).
    set (s2 := step (step s (StepCaller j)) (StepCaller j)) in *.
    destruct (IH s2 HQ2) as (HQ' & Hlen & Hw).
    assert (Hlen2 : length (callers s2) = length (callers s)).
    { unfold s2. by rewrite !step_length. }
    split; [done|]. split; [by rewrite Hlen|].
    intros i Hlt Hi. apply Hw; [by rewrite Hlen2|].
    destruct (decide (i = j)) as [->|Hne].
    + right. destruct (lookup_lt_is_Some_2 (callers s) j Hlt) as [t Ht].
      destruct (Hself1 t Ht) as (t1 & Ht1 & Hf1 & Ha1 & Hw1).
      destruct (Hself2 t1 Ht1) as (t2 & Ht2 & Hf2 & Ha2 & Hw2).
      rewrite Ht2. f_equal. change (Wait t2).
      destruct HQ as [_ Hall].
      destruct (Forall_lookup_1 _ _ _ _ Hall Ht) as [H|[H|H]];
        [apply Ha2, Hf1, H|apply Hw2, Ha1, H|apply Hw2, Hw1, H].
    + destruct Hi as [Hin|Hi].
      * apply elem_of_cons in Hin as [?|Hin]; [done|by left].
      * right. by rewrite Hother2, Hother1.
Qed.

Lemma Done_step r s i :
  Done r s ->
  Done r (step s (StepCaller i)) /\
  (forall j, j <> i -> callers (step s (StepCaller i)) !! j = callers s !! j) /\
  ((i < length (callers s))%nat -> callers (step s (StepCaller i)) !! i = Some (Settled r)).
Proof.
  intros [Hp Hall]. cbn. destruct (callers s !! i) as [t|] eqn:Hi.
  2:{ split; [done|]. split; [done|]. intros Hlt.
      apply lookup_lt_is_Some_2 in Hlt as [t Ht]. congruence. }
  assert (Hlt : (i < length (callers s))%nat) by (by eapply lookup_lt_Some).
  assert (Hadv : advance t (world s) (pending s) (invoked s)
                 = (Settled r, world s, pending s, invoked s)).
  { destruct (Forall_lookup_1 _ _ _ _ Hall Hi) as [->| ->]; [by destruct r|done]. }
  rewrite Hadv. cbn. split; [split|split].
  - done.
  - apply Forall_insert; auto.
  - intros j Hne. by apply list_lookup_insert_ne.
  - intros _. by apply list_lookup_insert_eq.
Qed.

Lemma finish_settles r (l : list nat) :
  forall s, Done r s ->
    length (callers (schedule (StepCaller <$> l) s)) = length (callers s) /\
    forall i, (i < length (callers s))%nat ->
      i ∈ l \/ callers s !! i = Some (Settled r) ->
      callers (schedule (StepCaller <$> l) s) !! i = Some (Settled r).
Proof.
  induction l as [|j l IH]; intros s HD.
  - split; [done|]. intros i _ [Hin|H]; [by apply elem_of_nil in Hin|done].
  - cbn [fmap list_fmap]. rewrite schedule_cons.
    destruct (Done_step r s j HD) as (HD1 & Hother & Hself).
    destruct (IH _ HD1) as (Hlen & Hs).
    rewrite step_length in Hlen, Hs.
    split; [done|]. intros i Hlt Hi. apply Hs; [done|].
    destruct (decide (i = j)) as [->|Hne]; [right; by apply Hself|].
    destruct Hi as [Hin|Hi].
    + apply elem_of_cons in Hin as [?|Hin]; [done|by left].
    + right. by rewrite Hother.
Qed.

Lemma schedule_app cs1 cs2 s : schedule (cs1 ++ cs2) s = schedule cs2 (schedule cs1 s).
Proof. apply fold_left_app. Qed.

Lemma Forall_lookup_all {A : Type} (P : A -> Prop) (l : list A) (x : A) :
  P x -> (forall i, (i < length l)%nat -> l !! i = Some x) -> Forall P l.
Proof.
  intros HP H. apply Forall_lookup. intros i y Hi.
  rewrite (H i) in Hi by (by eapply lookup_lt_Some). by simplify_eq.
Qed.

(** Liveness: all callers can come to wait on the deduplicator, and from
    there all can settle. *)
Lemma can_share (n : nat) :
  store w !! ip = None ->
  exists sched1 sched2,
    let s1 := schedule sched1 (start (replicate n lookup) w) in
    Forall (fun t => isWaiting t = true) (callers s1) /\
    Forall (fun t => isSettled t = true) (callers (schedule sched2 s1)).
Proof.
  intros Habs. set (s0 := start (replicate n lookup) w).
  assert (Hlen0 : length (callers s0) = n).
  { cbn. by rewrite length_fmap, length_replicate. }
  assert (HQ : Quiet s0).
  { split; [done|]. cbn. apply Forall_fmap, Forall_replicate. by left. }
  destruct (enter_waits (seq 0 n) s0 HQ) as (HQ1 & Hlen1 & Hw1).
  set (s1 := schedule (enter (seq 0 n)) s0) in *.
  assert (Hwait : Forall (fun t => isWaiting t = true) (callers s1)).
  { apply (Forall_lookup_all _ _ (Waiting key settle)); [done|].
    intros i Hi. apply Hw1; [lia|]. left. apply elem_of_seq. lia. }
  exists (enter (seq 0 n)).
  destruct n as [|n'].
  { exists []. split; [done|].
    change (Forall (fun t => isSettled t = true) (callers s1)).
    assert (callers s1 = []) as -> by (apply nil_length_inv; lia). by constructor. }
  assert (Hne1 : callers s1 <> []).
  { intros H. rewrite H in Hlen1. cbn in Hlen1. lia. }
  pose proof (Entering_all_waiting s1 (Entering_schedule _ _ (Entering_start (S n'))) Hne1 Hwait)
    as Hres.
  destruct Hres as [(p & Hp & Hinv & Hall & Hdf & Hrun)|(r & Hp & _ & Hall & _)].
  2:{ exfalso. destruct (callers s1) as [|t l]; [done|].
      apply Forall_cons in Hall as [[->| ->] _]; by apply Forall_cons in Hwait as [Ht _]. }
  set (m := turns p (world s1)).
  set (s1' := schedule (replicate m (StepFactory key)) s1).
  assert (Hp' : pending s1' = ∅) by (by apply (factory_settles m p s1)).
  assert (Hres' : Resolving s1').
  { apply Resolving_schedule. left. by exists p. }
  destruct Hres' as [(p' & Hp'' & _)|(r & _ & _ & Hall' & _)].
  { rewrite Hp'' in Hp'. by apply map_non_empty_singleton in Hp'. }
  destruct (finish_settles r (seq 0 (S n')) s1' (conj Hp' Hall')) as (Hlen2 & Hs2).
  exists (replicate m (StepFactory key) ++ (StepCaller <$> seq 0 (S n'))).
  split; [done|]. rewrite schedule_app.
  change (Forall (fun t => isSettled t = true)
            (callers (schedule (StepCaller <$> seq 0 (S n')) s1'))).
  apply (Forall_lookup_all _ _ (Settled r)); [done|].
  intros i Hi. rewrite Hlen2 in Hi. apply Hs2; [done|].
  left. apply elem_of_seq. unfold s1' in Hi. rewrite schedule_length in Hi. lia.
Qed.

(** C4 (as amended).  [n] concurrent lookups of a never-cached address.
    There are interleavings in which all [n] callers come to wait on the
    deduplicator, under the key "ip:" followed by the address, and then all
    settle.  In every such interleaving the factory is invoked exactly
    once; all callers settle with one and the same outcome, that of a
    single lookup run alone; the store, the network requests and the cache
    writes are those of that single lookup: at most one request to each
    provider, the primary's and then, only if it is tried, the
    secondary's. *)
Theorem concurrent_lookups_share_one_resolution (n : nat) :
  store w !! ip = None ->
  (0 < n)%nat ->
  (exists sched1 sched2,
     let s1 := schedule sched1 (start (replicate n lookup) w) in
     Forall (fun t => isWaiting t = true) (callers s1) /\
     Forall (fun t => isSettled t = true) (callers (schedule sched2 s1))) /\
  (forall sched1 sched2,
     let s1 := schedule sched1 (start (replicate n lookup) w) in
     let s2 := schedule sched2 s1 in
     Forall (fun t => isWaiting t = true) (callers s1) ->
     Forall (fun t => isSettled t = true) (callers s2) ->
     (exists p, pending s1 = {[key := Running p]}) /\
     pending s2 = ∅ /\
     invoked s2 = 1%nat /\
     callers s2 = replicate n (Settled (exec lookup w).1) /\
     store (world s2) = store (exec lookup w).2 /\
     fetches (log (world s2)) = fetches (log (exec lookup w).2) /\
     cacheSets (log (world s2)) = cacheSets (log (exec lookup w).2) /\
     exists evs,
       fetches (log (world s2)) = evs ++ fetches (log w) /\
       (evs = primaryFetches env encodeURIComponent ip \/
        evs = secondaryFetches env encodeURIComponent ip
              ++ primaryFetches env encodeURIComponent ip)).
Proof.
  intros Habs Hn. split; [by apply can_share|].
  intros sched1 sched2 s1 s2 Hwait Hset.
  destruct (shared_resolution n sched1 sched2 Habs Hn Hwait Hset)
    as (Hp1 & Hp2 & Hinv & Hcallers & Hs & Hnow & Hf & Hc).
  do 4 (split; [done|]). split; [done|]. split; [done|]. split; [done|].
  destruct (lookup_fetches env encodeURIComponent normalizeIpInfo normalizeRadar
              ttlMs staleTtlMs net ip w) as (evs & Hevs & Hor).
  { by rewrite (getWithStale_absent ttlMs staleTtlMs ip w Habs). }
  exists evs. split; [exact (eq_trans Hf Hevs)|done].
Qed.

End Dedup.

(** * Properties of the rest of the code *)

(** ** What the address pattern accepts *)

Section RegexProperties.

Import Regex.

Lemma app_empty_inv (s1 s2 : string) : s1 +:+ s2 = "" -> s1 = "" /\ s2 = "".
Proof. destruct s1; [done|discriminate]. Qed.

Lemma nullable_Matches (r : Regex) : nullable r = true <-> Matches r "".
Proof.
  split.
  - induction r as [| |p|r1 IH1 r2 IH2|r1 IH1 r2 IH2]; cbn; intros H; try discriminate.
    + constructor.
    + apply andb_true_iff in H as [H1 H2].
      change "" with ("" +:+ ""). constructor; auto.
    + apply orb_true_iff in H as [H|H]; [apply Matches_AltL|apply Matches_AltR]; auto.
  - remember "" as s eqn:Hs. intros H.
    induction H as [|p c Hp|r1 r2 s1 s2 H1 IH1 H2 IH2|r1 r2 s H IH|r1 r2 s H IH]; cbn.
    + done.
    + discriminate.
    + apply app_empty_inv in Hs as [-> ->]. rewrite IH1, IH2; done.
    + rewrite IH; done.
    + rewrite IH by done. apply orb_true_r.
Qed.

Lemma derive_Matches (c : ascii) (r : Regex) (s : string) :
  Matches (derive c r) s <-> Matches r (String c s).
Proof.
  split.
  - revert s. induction r as [| |p|r1 IH1 r2 IH2|r1 IH1 r2 IH2]; cbn; intros s H.
    + inversion H.
    + inversion H.
    + destruct (p c) eqn:Hp; inversion H; subst. by constructor.
    + destruct (nullable r1) eqn:Hn.
      * inversion H as [| | |? ? ? H'|? ? ? H']; subst.
        -- inversion H' as [| |? ? s1 s2 Ha Hb| |]; subst.
           change (String c (s1 +:+ s2)) with (String c s1 +:+ s2). constructor; auto.
        -- change (String c s) with ("" +:+ String c s). constructor; [|auto].
           by apply nullable_Matches.
      * inversion H as [| |? ? s1 s2 Ha Hb| |]; subst.
        change (String c (s1 +:+ s2)) with (String c s1 +:+ s2). constructor; auto.
    + inversion H; subst; [apply Matches_AltL|apply Matches_AltR]; auto.
  - remember (String c s) as t eqn:Ht. intros H. revert s Ht.
    induction H as [|p a Hp|r1 r2 s1 s2 H1 IH1 H2 IH2|r1 r2 t H IH|r1 r2 t H IH];
      intros s Ht; cbn.
    + discriminate.
    + injection Ht as -> <-. rewrite Hp. constructor.
    + destruct s1 as [|a s1'].
      * change (s2 = String c s) in Ht. subst s2.
        apply nullable_Matches in H1. rewrite H1. apply Matches_AltR. by apply IH2.
      * change (String a (s1' +:+ s2) = String c s) in Ht. injection Ht as -> <-.
        destruct (nullable r1).
        -- apply Matches_AltL. constructor; [by apply IH1|done].
        -- constructor; [by apply IH1|done].
    + apply Matches_AltL. by apply IH.
    + apply Matches_AltR. by apply IH.
Qed.

(** The derivative matcher decides [Matches]. *)
Lemma test_Matches (r : Regex) (s : string) : test r s = true <-> Matches r s.
Proof.
  revert r. induction s as [|c s IH]; intros r; cbn.
  - apply nullable_Matches.
  - rewrite IH. apply derive_Matches.
Qed.

End RegexProperties.

Section StringLemmas.

Lemma append_nil_r (s : string) : s +:+ "" = s.
Proof. induction s as [|c s IH]; [done|]. change (String c (s +:+ "") = String c s). by rewrite IH. Qed.

Lemma append_cons (c : ascii) (s1 s2 : string) : String c s1 +:+ s2 = String c (s1 +:+ s2).
Proof. reflexivity. Qed.

Lemma append_assoc (s1 s2 s3 : string) : (s1 +:+ s2) +:+ s3 = s1 +:+ (s2 +:+ s3).
Proof.
  induction s1 as [|c s1 IH]; [done|]. rewrite !append_cons. by rewrite IH.
Qed.

Lemma length_append (s1 s2 : string) :
  String.length (s1 +:+ s2) = (String.length s1 + String.length s2)%nat.
Proof. induction s1 as [|c s1 IH]; [done|]. rewrite append_cons. cbn. by rewrite IH. Qed.

Lemma contains_append (c : ascii) (s1 s2 : string) :
  contains c (s1 +:+ s2) = contains c s1 || contains c s2.
Proof.
  induction s1 as [|a s1 IH]; [done|]. rewrite append_cons. cbn. rewrite IH.
  by rewrite orb_assoc.
Qed.

Lemma allDigits_append (s1 s2 : string) :
  allDigits (s1 +:+ s2) = allDigits s1 && allDigits s2.
Proof.
  induction s1 as [|a s1 IH]; [done|]. rewrite append_cons. cbn. rewrite IH.
  by rewrite andb_assoc.
Qed.

End StringLemmas.

Section PatternProperties.

Import Regex.

Lemma Matches_Cat_inv (r1 r2 : Regex) (s : string) :
  Matches (Cat r1 r2) s <-> exists s1 s2, s = s1 +:+ s2 /\ Matches r1 s1 /\ Matches r2 s2.
Proof.
  split.
  - intros H. inversion H; subst. eauto.
  - intros (s1 & s2 & -> & H1 & H2). by constructor.
Qed.

Lemma Matches_chr (a : ascii) (s : string) : Matches (chr a) s <-> s = String a "".
Proof.
  split.
  - intros H. inversion H as [|p c Hp| | |]; subst. by apply Ascii.eqb_eq in Hp as ->.
  - intros ->. constructor. apply Ascii.eqb_refl.
Qed.

Lemma dead_after_group (r : Regex) (s : string) :
  (forall c, derive c r = r) -> nullable r = false -> test r s = false.
Proof. intros Hd Hn. induction s as [|c s IH]; cbn; [done|]. by rewrite Hd. Qed.

(** [\d{1,3}] matches the groups of one to three digits. *)
Lemma test_group (s : string) : test (between 1 3 digit) s = isGroup s.
Proof.
  change digit with (Class isDigit). unfold isGroup.
  destruct s as [|c1 [|c2 [|c3 [|c4 s]]]]; cbn -[isDigit];
    repeat (match goal with
            | |- context [isDigit ?c] => destruct (isDigit c)
            end; cbn -[isDigit]);
    try done; apply dead_after_group; done.
Qed.

End PatternProperties.

Section AddressPattern.

Import Regex.

Lemma Matches_group (s : string) : Matches (between 1 3 digit) s <-> isGroup s = true.
Proof. by rewrite <- test_Matches, test_group. Qed.

Lemma Matches_group_dot (s : string) :
  Matches (Cat (between 1 3 digit) (chr ".")) s <->
  exists a, s = a +:+ "." /\ isGroup a = true.
Proof.
  rewrite Matches_Cat_inv. split.
  - intros (a & dot & -> & Ha & Hdot). apply Matches_chr in Hdot as ->.
    exists a. by rewrite <- Matches_group.
  - intros (a & -> & Ha). exists a, ".". by rewrite Matches_group, Matches_chr.
Qed.

Lemma Matches_ipPattern (s : string) : Matches ipPattern s <-> DottedQuad s.
Proof.
  unfold ipPattern, DottedQuad. cbn [times]. split.
  - intros H.
    apply Matches_Cat_inv in H as (x & d & -> & H & Hd).
    apply Matches_Cat_inv in H as (x1 & y & -> & (a & -> & Ha)%Matches_group_dot & H).
    apply Matches_Cat_inv in H as (x2 & z & -> & (b & -> & Hb)%Matches_group_dot & H).
    apply Matches_Cat_inv in H as (x3 & u & -> & (c & -> & Hc)%Matches_group_dot & H).
    inversion H; subst. apply Matches_group in Hd.
    exists a, b, c, d. split; [|done].
    by rewrite append_nil_r, !append_assoc.
  - intros (a & b & c & d & -> & Ha & Hb & Hc & Hd).
    replace (a +:+ "." +:+ b +:+ "." +:+ c +:+ "." +:+ d)
      with (((a +:+ ".") +:+ (b +:+ ".") +:+ (c +:+ ".") +:+ "") +:+ d)
      by (by rewrite append_nil_r, !append_assoc).
    constructor; [|by apply Matches_group].
    repeat (constructor; [apply Matches_group_dot; eauto|]). constructor.
Qed.

Lemma isGroup_length (s : string) :
  isGroup s = true -> (1 <= String.length s <= 3)%nat /\ allDigits s = true.
Proof.
  unfold isGroup. rewrite !andb_true_iff, !Nat.leb_le. tauto.
Qed.

Lemma allDigits_digitsAndDots (s : string) : allDigits s = true -> digitsAndDots s = true.
Proof.
  induction s as [|c s IH]; cbn -[isDigit]; [done|].
  rewrite andb_true_iff. intros [-> H]. by rewrite IH.
Qed.

Lemma digitsAndDots_append (s1 s2 : string) :
  digitsAndDots (s1 +:+ s2) = digitsAndDots s1 && digitsAndDots s2.
Proof.
  induction s1 as [|a s1 IH]; [done|]. rewrite append_cons. cbn -[isDigit]. rewrite IH.
  by rewrite andb_assoc.
Qed.

(** X7.  The address routes accept exactly the dotted quads of one to three
    digits each: the pattern puts no bound on a group's value. *)
Theorem invalidIp_dotted_quad (s : string) :
  invalidIp (Some s) = false <-> DottedQuad s.
Proof.
  unfold invalidIp. rewrite orb_false_iff, negb_false_iff, test_Matches, Matches_ipPattern.
  split; [tauto|]. intros H. split; [|done].
  destruct H as (a & b & c & d & -> & Ha & _).
  destruct a; [discriminate Ha|done].
Qed.

(** X8.  An accepted address holds digits and dots only and has 7 to 15
    characters; a missing parameter is not accepted. *)
Theorem accepted_address_shape (param : option string) :
  invalidIp param = false ->
  exists s, param = Some s /\
    digitsAndDots s = true /\ (7 <= String.length s <= 15)%nat.
Proof.
  destruct param as [s|]; [|discriminate]. unfold invalidIp.
  rewrite orb_false_iff, negb_false_iff, test_Matches, Matches_ipPattern.
  intros (_ & a & b & c & d & -> & Ha & Hb & Hc & Hd).
  apply isGroup_length in Ha as [Hla Ha], Hb as [Hlb Hb], Hc as [Hlc Hc], Hd as [Hld Hd].
  eexists. split; [done|]. split.
  - rewrite !digitsAndDots_append.
    by rewrite (allDigits_digitsAndDots a), (allDigits_digitsAndDots b),
      (allDigits_digitsAndDots c), (allDigits_digitsAndDots d).
  - rewrite !length_append. cbn. lia.
Qed.

End AddressPattern.

(** ** Splitting and joining *)

Section Splitting.

Variable sep : ascii.

Lemma split_cons (s : string) : exists piece pieces, split sep s = piece :: pieces.
Proof.
  induction s as [|c s (p & ps & IH)]; cbn; [by eauto|].
  destruct (Ascii.eqb c sep); [by eauto|]. rewrite IH. eauto.
Qed.

Lemma split_free (s : string) : Forall (fun piece => contains sep piece = false) (split sep s).
Proof.
  induction s as [|c s IH]; cbn.
  - by repeat constructor.
  - destruct (Ascii.eqb c sep) eqn:Hc; [by constructor|].
    destruct (split sep s) as [|p ps]; [by repeat constructor; cbn; rewrite Hc|].
    inversion IH as [|? ? Hp Hps]; subst. constructor; [|done]. cbn. by rewrite Hc.
Qed.

Lemma joinWith_split (s : string) : joinWith (String sep "") (split sep s) = s.
Proof.
  induction s as [|c s IH]; cbn; [done|].
  destruct (Ascii.eqb_spec c sep) as [->|Hne].
  - destruct (split_cons s) as (p & ps & Hs). rewrite Hs in IH |- *.
    change (joinWith (String sep "") ("" :: p :: ps))
      with ("" +:+ String sep "" +:+ joinWith (String sep "") (p :: ps)).
    by rewrite IH.
  - destruct (split_cons s) as (p & ps & Hs). rewrite Hs in IH |- *.
    destruct ps as [|q qs].
    + cbn in IH |- *. by rewrite IH.
    + change (joinWith (String sep "") (String c p :: q :: qs))
        with (String c (p +:+ String sep "" +:+ joinWith (String sep "") (q :: qs))).
      by rewrite <- IH.
Qed.

Lemma split_whole (s : string) : contains sep s = false -> split sep s = [s].
Proof.
  induction s as [|c s IH]; cbn; [done|].
  intros [Hc Hs]%orb_false_iff. rewrite Hc, IH; done.
Qed.

Lemma split_append (a b : string) :
  contains sep a = false -> split sep (a +:+ String sep b) = a :: split sep b.
Proof.
  induction a as [|c a IH].
  - intros _. change (split sep (String sep b) = "" :: split sep b). cbn.
    by rewrite Ascii.eqb_refl.
  - cbn [contains]. intros [Hc Ha]%orb_false_iff. rewrite append_cons. cbn.
    by rewrite Hc, IH.
Qed.

End Splitting.

(** ** The client address *)

Section ClientAddress.

Lemma credential_Some (s : option string) (t : string) :
  credential s = Some t -> s = Some t /\ String.eqb t "" = false.
Proof.
  destruct s as [u|]; [|discriminate]. cbn.
  destruct (String.eqb u "") eqn:Hu; [discriminate|]. by intros [= ->].
Qed.


End ClientAddress.

(** ** The enhanced analysis *)

Section Enhanced.

(** X15.  The coordinates of the enhanced analysis are the two halves of the
    insight's [loc]: a [loc] made of a latitude, a comma and a longitude
    gives them back as they are, and without [loc] both are the number 0. *)
Theorem enhancedAnalysis_coordinates (ip : string) (result : NormalizedIpInsight)
    (timestamp : string) :
  exists geolocation,
    field "geolocation" (enhancedAnalysis ip result timestamp) = Some geolocation /\
    (forall latitude longitude,
       loc result = Some (latitude +:+ "," +:+ longitude) ->
       contains "," latitude = false -> contains "," longitude = false ->
       String.eqb latitude "" = false -> String.eqb longitude "" = false ->
       field "latitude" geolocation = Some (JStr latitude) /\
       field "longitude" geolocation = Some (JStr longitude)) /\
    (credential (loc result) = None ->
       field "latitude" geolocation = Some (JNum 0) /\
       field "longitude" geolocation = Some (JNum 0)).
Proof.
  eexists. split; [reflexivity|]. cbn [field assoc String.eqb Ascii.eqb Bool.eqb]. split.
  - intros latitude longitude Hloc Hlat Hlon Hne1 Hne2. unfold coordinate. rewrite Hloc.
    cbn [mbind option_bind]. change ("," +:+ longitude) with (String "," longitude).
    rewrite (split_append "," latitude longitude Hlat), (split_whole "," longitude Hlon).
    cbn. by rewrite Hne1, Hne2.
  - intros Hnone. unfold coordinate.
    destruct (loc result) as [x|]; [|done]. cbn in Hnone.
    destruct (String.eqb x "") eqn:Hxe; [|discriminate Hnone].
    by apply String.eqb_eq in Hxe as ->.
Qed.

Lemma orUnknown_text (value : option string) :
  exists s, orUnknown value = JStr s /\ String.eqb s "" = false.
Proof.
  unfold orUnknown. destruct (credential value) as [s|] eqn:Hv; cbn.
  - apply credential_Some in Hv as [_ ?]. eauto.
  - eauto.
Qed.

(** X16.  Every named part of the enhanced analysis is a non-empty text,
    ['Unknown'] standing in for what the insight lacks, and the ASN is
    ['Unknown'] whatever the insight holds. *)
Theorem enhancedAnalysis_never_blank (ip : string) (result : NormalizedIpInsight)
    (timestamp : string) :
  exists geolocation asn,
    field "geolocation" (enhancedAnalysis ip result timestamp) = Some geolocation /\
    field "asn_analysis" (enhancedAnalysis ip result timestamp) = Some asn /\
    Forall (fun name => exists s, field name geolocation = Some (JStr s) /\
                                  String.eqb s "" = false)
           ["country"; "region"; "city"; "timezone"] /\
    Forall (fun name => exists s, field name asn = Some (JStr s) /\
                                  String.eqb s "" = false)
           ["org"; "country"] /\
    field "asn" asn = Some (JStr "Unknown").
Proof.
  assert (Htext : forall name value (fields : list (string * Json)),
            assoc name fields = Some (orUnknown value) ->
            exists s, field name (JObj fields) = Some (JStr s) /\ String.eqb s "" = false).
  { intros name value fields Hf. destruct (orUnknown_text value) as (s & Hs & Hne).
    exists s. cbn. by rewrite Hf, Hs. }
  eexists _, _. split; [reflexivity|]. split; [reflexivity|].
  split; [|split].
  - repeat constructor; eapply Htext; reflexivity.
  - repeat constructor; eapply Htext; reflexivity.
  - cbn. by destruct (isSet (org result)).
Qed.

End Enhanced.

(** ** The translations *)

Section Translations.

Import Web.

Lemma property_In (k : string) (entries : list (string * Translation)) (v : Translation) :
  property k entries = Some v -> In (k, v) entries.
Proof.
  induction entries as [|[name u] entries IH]; cbn; [done|].
  destruct (String.eqb_spec name k) as [->|_]; [intros [= ->]; by left|auto].
Qed.

Lemma walk_undefined (key : string) (keys : list string) : walk key keys None = key.
Proof. by destruct keys. Qed.

(** In an object of texts a lookup ends at the first key: a second key
    finds a text where it needs an object. *)
Lemma walk_texts (key k : string) (keys : list string) (entries : list (string * Translation)) :
  forallb (fun '(_, v) => isText v) entries = true ->
  walk key (k :: keys) (Some (Dict entries)) = key \/
  keys = [] /\
  exists text, In (k, Text text) entries /\ walk key [k] (Some (Dict entries)) = text.
Proof.
  intros Htexts. cbn. destruct (property k entries) as [v|] eqn:Hk.
  - apply property_In in Hk.
    assert (isText v = true) as Hv.
    { rewrite forallb_forall in Htexts. exact (Htexts _ Hk). }
    destruct v as [s|es]; [|discriminate].
    destruct keys; [right|left]; eauto.
  - left. apply walk_undefined.
Qed.

Lemma useTranslations_split (namespace key : string) :
  exists k keys,
    split "." key = k :: keys /\
    joinWith "." (k :: keys) = key /\
    Forall (fun piece => contains "." piece = false) (k :: keys).
Proof.
  destruct (split_cons "." key) as (k & keys & Hs). exists k, keys.
  split; [done|]. rewrite <- Hs. split; [apply joinWith_split|apply split_free].
Qed.

(** X21.  Only five keys are translated: the four actions of [common] and
    [localhostIPv6] of [home].  Every other key comes back as it is, the
    keys of [home] that are written with a dot among them, since the lookup
    splits the key at its dots. *)
Theorem useTranslations_translated (namespace key : string) :
  (useTranslations namespace key = key \/
   In (namespace, key, useTranslations namespace key) translated) /\
  Forall (fun '(n, k, text) => useTranslations n k = text) translated.
Proof.
  split; [|by repeat constructor].
  unfold useTranslations.
  destruct (useTranslations_split namespace key) as (k & keys & -> & Hjoin & Hfree).
  inversion Hfree as [|? ? Hk Hkeys]; subst.
  unfold translations. cbn [property].
  destruct (String.eqb_spec "common" namespace) as [<-|_].
  { cbn [walk property].
    destruct (String.eqb_spec "actions" k) as [<-|_]; [|left; apply walk_undefined].
    destruct keys as [|k2 keys]; [by left|].
    match goal with
    | |- context [walk ?key (k2 :: keys) (Some (Dict ?es))] =>
        destruct (walk_texts key k2 keys es eq_refl) as [->|[-> (text & Hin & ->)]];
          [by left|right]
    end.
    cbn [In] in Hin.
    repeat (destruct Hin as [Hin|Hin]; [injection Hin as <- <-; cbn; tauto|]).
    done. }
  destruct (String.eqb_spec "home" namespace) as [<-|_]; [|left; apply walk_undefined].
  match goal with
  | |- context [walk ?key (k :: keys) (Some (Dict ?es))] =>
      destruct (walk_texts key k keys es eq_refl) as [->|[-> (text & Hin & ->)]]; [by left|]
  end.
  cbn [joinWith]. cbn [In] in Hin.
  repeat (destruct Hin as [Hin|Hin];
          [injection Hin as <- <-; first [discriminate Hk|right; cbn; tauto]|]).
  done.
Qed.

(** X22.  The radar chart asks the namespace [interactiveRadar], which the table
    does not have: every label of the chart is the key it was asked under,
    [panels.] followed by the panel's name. *)
Theorem chartData_labels (panels : list (string * Panel)) :
  name <$> chartData (Some panels) = (fun '(key, _) => "panels." +:+ key) <$> panels.
Proof.
  unfold chartData. rewrite <- list_fmap_compose. apply list_fmap_ext.
  intros i [key panel] _. cbn. unfold useTranslations.
  change (property "interactiveRadar" translations) with (@None Translation).
  apply walk_undefined.
Qed.

End Translations.

(** ** The radar chart *)

Section RadarChart.

Import Web.

Lemma severity_le (s : string) : (severity s <= 2)%nat.
Proof. unfold severity. repeat case_match; lia. Qed.

(** X23.  The overall status is the worst status among the panels: unreliable
    if any panel is, else suspicious if any panel is, else trustworthy, a
    status that is none of the three counting as trustworthy.  Without
    data it is trustworthy. *)
Theorem overallStatus_worst (panels : list (string * Panel)) :
  severity (overallStatus (Some panels))
    = max_list ((fun '(_, d) => severity (status d)) <$> panels) /\
  In (overallStatus (Some panels)) ["trustworthy"; "suspicious"; "unreliable"] /\
  overallStatus None = "trustworthy".
Proof.
  split; [|split; [|done]].
  - induction panels as [|[key p] ps IH]; [done|].
    unfold overallStatus in *. rewrite !fmap_cons. cbn [existsb max_list].
    rewrite <- IH. clear IH. unfold severity at 2.
    pose proof (severity_le (status p)).
    destruct (String.eqb (status p) "unreliable") eqn:H1; cbn [orb];
      [repeat case_match; done|].
    destruct (String.eqb (status p) "suspicious") eqn:H2; cbn [orb];
      repeat case_match; done.
  - unfold overallStatus. repeat case_match; cbn; tauto.
Qed.

Lemma foldl_scores (points : list ChartDataPoint) (lo hi acc : Z) :
  Forall (fun d => lo <= value d <= hi) points ->
  acc + Z.of_nat (length points) * lo
    <= foldl (fun sum d => sum + value d) acc points
    <= acc + Z.of_nat (length points) * hi.
Proof.
  intros H. revert acc. induction H as [|d ds Hd _ IH]; intros acc; cbn [foldl length].
  - lia.
  - specialize (IH (acc + value d)). lia.
Qed.

(** X24.  The overall score lies between the lowest and the highest score of
    the panels; when all panels have one score, it is that score. *)
Theorem overallScore_between (panels : list (string * Panel)) (lo hi : Z) :
  panels <> [] ->
  Forall (fun '(_, d) => lo <= score d <= hi) panels ->
  lo <= overallScore (Some panels) <= hi.
Proof.
  intros Hne Hall. unfold overallScore.
  set (points := chartData (Some panels)).
  assert (Hpoints : Forall (fun d => lo <= value d <= hi) points).
  { unfold points, chartData. apply Forall_fmap. eapply Forall_impl; [exact Hall|].
    by intros [key d]. }
  assert (Hlen : (0 < length points)%nat).
  { unfold points, chartData. rewrite length_fmap. destruct panels; [done|cbn; lia]. }
  pose proof (foldl_scores points lo hi 0 Hpoints) as Hsum.
  destruct points as [|d ds] eqn:Hp; [cbn in Hlen; lia|]. rewrite <- Hp in *.
  unfold roundedQuotient.
  set (n := Z.of_nat (length points)) in *.
  set (sum := foldl _ 0 points) in *.
  assert (0 < n) by lia.
  split.
  - apply Z.div_le_lower_bound; lia.
  - apply Z.lt_succ_r. apply Z.div_lt_upper_bound; lia.
Qed.

End RadarChart.

(** ** More on the lookup service *)

Section ServiceProperties.

Variable env : Env.
Variable encodeURIComponent : string -> string.
Variable normalizeIpInfo : Json -> NormalizedIpInsight.
Variable normalizeRadar : Json -> NormalizedIpInsight.
Variable ttlMs : Z.
Variable staleTtlMs : Z.
Variable net : string -> RequestInit -> FetchOutcome.

Local Abbreviation exec := (run ttlMs staleTtlMs net).
Local Abbreviation fetchIpInfo := (fetchIpInfoWorker env encodeURIComponent).
Local Abbreviation fetchRadar := (fetchRadarWorker env encodeURIComponent).
Local Abbreviation lookup := (lookupIpInsight env encodeURIComponent normalizeIpInfo normalizeRadar).
Local Abbreviation factory := (lookupFactory env encodeURIComponent normalizeIpInfo normalizeRadar).
Local Abbreviation revalidate := (revalidateIpInsight env encodeURIComponent normalizeIpInfo normalizeRadar).
Local Abbreviation background := (backgroundRevalidation env encodeURIComponent normalizeIpInfo normalizeRadar).
Local Abbreviation attempts := (attempts env encodeURIComponent normalizeIpInfo normalizeRadar).
Local Abbreviation found := (found env encodeURIComponent normalizeIpInfo normalizeRadar ttlMs staleTtlMs net).
Local Abbreviation unavailable := (ApiError 502 "Unable to fetch IP intelligence").

Lemma attempts_found ip msg1 msg2 w :
  (exec (attempts ip msg1 msg2) w).1 = Resolved (found ip).
Proof.
  unfold attempts, found, insightFrom. rewrite run_bind.
  pose proof (attempt_result ttlMs staleTtlMs net (fetchIpInfo ip) normalizeIpInfo msg1 w) as H1.
  rewrite (NetLog_result _ _ _ _ w blank (NetLog_fetchIpInfoWorker env encodeURIComponent ip)) in H1.
  destruct (exec (attempt (fetchIpInfo ip) normalizeIpInfo msg1) w) as [r1 w1].
  cbn in H1. subst r1.
  destruct (match (exec (fetchIpInfo ip) blank).1 with
            | Resolved payload => insightOf normalizeIpInfo payload
            | Rejected _ => None
            end) as [i|]; [done|].
  rewrite (attempt_result ttlMs staleTtlMs net).
  by rewrite (NetLog_result _ _ _ _ w1 blank (NetLog_fetchRadarWorker env encodeURIComponent ip)).
Qed.

Lemma insightOf_is_None normalize payload :
  insightOf normalize payload = None <-> truthyOpt payload = false.
Proof. destruct payload as [j|]; [|done]. cbn. by destruct (truthy j). Qed.

Lemma fetched_None normalize (r : Outcome (option Json)) :
  match r with
  | Resolved payload => insightOf normalize payload
  | Rejected _ => None
  end = None <-> noInsight r.
Proof. destruct r as [payload|e]; cbn; [apply insightOf_is_None|done]. Qed.

Lemma found_None ip w :
  found ip = None <->
  noInsight (exec (fetchIpInfo ip) w).1 /\ noInsight (exec (fetchRadar ip) w).1.
Proof.
  unfold found, insightFrom.
  rewrite (NetLog_result _ _ _ _ w blank (NetLog_fetchIpInfoWorker env encodeURIComponent ip)).
  rewrite (NetLog_result _ _ _ _ w blank (NetLog_fetchRadarWorker env encodeURIComponent ip)).
  rewrite <- (fetched_None normalizeIpInfo), <- (fetched_None normalizeRadar).
  destruct (match (exec (fetchIpInfo ip) blank).1 with
            | Resolved payload => insightOf normalizeIpInfo payload
            | Rejected _ => None
            end) as [i|]; [|tauto].
  split; [discriminate|]. by intros [? _].
Qed.

(** A lookup that misses the cache: the attempts run after the two cache
    reads and touch neither the store nor the clock; the lookup resolves to
    what they found and stores it, or it rejects. *)
Lemma run_lookup_found ip w :
  (getWithStale ttlMs staleTtlMs ip w).1 = None ->
  exists w1,
    store w1 = store w /\ now w1 = now w /\ detached w1 = detached w /\
    cacheSets (log w1) = cacheSets (log w) /\
    exec (lookup ip) w =
    match found ip with
    | Some i => (Resolved i, record (EvCacheSet ip i) (cacheSet ip i w1))
    | None => (Rejected unavailable, w1)
    end.
Proof.
  intros Hmiss.
  set (w2 := record (EvGetWithStale ip) (record (EvGetWithStale ip) w)).
  set (m1 := "ipinfo lookup failed"). set (m2 := "Cloudflare Radar lookup failed").
  pose proof (NetLog_untouched ttlMs staleTtlMs net _
                (NetLog_attempts env encodeURIComponent normalizeIpInfo normalizeRadar ip m1 m2) w2)
    as (Hs & Hn & Hd & Hc).
  pose proof (attempts_found ip m1 m2 w2) as Hr.
  exists (exec (attempts ip m1 m2) w2).2. repeat (split; [done|]).
  rewrite (run_lookup_miss env encodeURIComponent normalizeIpInfo normalizeRadar
             ttlMs staleTtlMs net ip w Hmiss).
  rewrite (run_factory_miss env encodeURIComponent normalizeIpInfo normalizeRadar
             ttlMs staleTtlMs net ip) by (by rewrite getWithStale_record).
  fold m1 m2 w2. destruct (exec (attempts ip m1 m2) w2) as [r w1]. cbn in Hr |- *. subst r.
  by destruct (found ip).
Qed.

Lemma run_lookup_hit ip w entry isStale :
  getWithStale ttlMs staleTtlMs ip w = (Some entry, isStale) ->
  exec (lookup ip) w =
  (Resolved (data entry),
   if isStale
   then detach (background ip)
          (record (EvLog Debug "Serving stale data, revalidating in background" None)
             (record (EvGetWithStale ip) w))
   else record (EvGetWithStale ip) w).
Proof.
  intros Hg. unfold lookupIpInsight. rewrite run_bind, run_await.
  cbn -[mbind backgroundRevalidation]. rewrite Hg. cbn -[mbind backgroundRevalidation].
  rewrite run_bind. destruct isStale; reflexivity.
Qed.

Lemma lookup_rejected ip w e :
  (exec (lookup ip) w).1 = Rejected e -> e = unavailable.
Proof.
  destruct (getWithStale ttlMs staleTtlMs ip w) as [[entry|] isStale] eqn:Hg.
  - by rewrite (run_lookup_hit ip w entry isStale Hg).
  - destruct (run_lookup_found ip w) as (w1 & _ & _ & _ & _ & ->); [by rewrite Hg|].
    destruct (found ip); [done|]. by intros [= <-].
Qed.

(** The first thing a lookup does is to read the cache under its
    address. *)
Lemma lookup_reads_first ip w :
  exists evs, log (exec (lookup ip) w).2 = evs ++ EvGetWithStale ip :: log w.
Proof.
  unfold lookupIpInsight. rewrite run_bind, run_await. cbn -[mbind backgroundRevalidation].
  match goal with
  | |- context [exec ?p (record ?ev w)] =>
      destruct (run_log_grows ttlMs staleTtlMs net p (record ev w)) as [evs ->]
  end.
  by exists evs.
Qed.

Lemma verifyRadarToken_true w :
  (exec (verifyRadarToken env) w).1 = Resolved true ->
  isSet (CLOUDFLARE_ACCOUNT_ID env) = true /\ isSet (CLOUDFLARE_RADAR_TOKEN env) = true.
Proof.
  unfold verifyRadarToken, isSet.
  destruct (credential (CLOUDFLARE_ACCOUNT_ID env)) as [account|]; [|done].
  destruct (credential (CLOUDFLARE_RADAR_TOKEN env)) as [token|]; [|done].
  intros _. split; apply bool_decide_eq_true; eauto.
Qed.

(** X1.  The one way a lookup fails.  [lookupIpInsight] rejects with nothing
    but the [ApiError] 502, whatever the providers threw, and it does so
    only when the cache had no usable entry and neither provider gave an
    insight. *)
Theorem lookup_rejects_only_unavailable (ip : string) (w : World) (e : JsError) :
  (exec (lookup ip) w).1 = Rejected e ->
  e = ApiError 502 "Unable to fetch IP intelligence" /\
  (getWithStale ttlMs staleTtlMs ip w).1 = None /\
  noInsight (exec (fetchIpInfo ip) w).1 /\
  noInsight (exec (fetchRadar ip) w).1.
Proof.
  destruct (getWithStale ttlMs staleTtlMs ip w) as [[entry|] isStale] eqn:Hg.
  - by rewrite (run_lookup_hit ip w entry isStale Hg).
  - destruct (run_lookup_found ip w) as (w1 & _ & _ & _ & _ & ->); [by rewrite Hg|].
    destruct (found ip) as [i|] eqn:Hf; [done|]. intros [= <-].
    by apply (found_None ip w) in Hf.
Qed.


(** X4.  Background revalidation finds what a lookup would.  Where a lookup of
    the address that misses the cache resolves to an insight, the
    revalidation stores that very insight, stamped with its own time; where
    the lookup rejects, the revalidation leaves the cache as it is. *)
Theorem revalidation_stores_what_lookup_returns (ip : string) (w w0 : World) :
  (getWithStale ttlMs staleTtlMs ip w0).1 = None ->
  let r := exec (revalidate ip) w in
  match (exec (lookup ip) w0).1 with
  | Resolved i =>
      store r.2 = <[ip := {| data := i; storedAt := now w |}]> (store w) /\
      cacheSets (log r.2) = EvCacheSet ip i :: cacheSets (log w)
  | Rejected _ =>
      store r.2 = store w /\ cacheSets (log r.2) = cacheSets (log w)
  end.
Proof.
  intros Hmiss. cbn zeta.
  destruct (run_lookup_found ip w0 Hmiss) as (w1 & _ & _ & _ & _ & ->).
  rewrite (run_revalidate env encodeURIComponent normalizeIpInfo normalizeRadar ttlMs staleTtlMs net).
  set (m1 := "ipinfo revalidation failed"). set (m2 := "Cloudflare Radar revalidation failed").
  pose proof (NetLog_untouched ttlMs staleTtlMs net _
                (NetLog_attempts env encodeURIComponent normalizeIpInfo normalizeRadar ip m1 m2) w)
    as (Hs & Hn & _ & Hc).
  pose proof (attempts_found ip m1 m2 w) as Hr.
  destruct (exec (attempts ip m1 m2) w) as [r w2]. cbn in Hr, Hs, Hn, Hc. subst r.
  destruct (found ip) as [i|]; cbn [fst snd].
  - unfold cacheSets in *. cbn. by rewrite Hs, Hn, Hc.
  - by rewrite Hs, Hc.
Qed.

(** X5.  A lookup right after a lookup.  Once a lookup that missed the cache
    has resolved, a lookup of the same address [ms] milliseconds later is
    served from the cache with the same insight: within [ttlMs] it only
    reads the cache; after that and within [staleTtlMs] it also starts one
    background revalidation.  Neither sends a request. *)
Theorem lookup_then_served_from_cache (ip : string) (w w' : World)
    (i : NormalizedIpInsight) (ms : Z) :
  (getWithStale ttlMs staleTtlMs ip w).1 = None ->
  exec (lookup ip) w = (Resolved i, w') ->
  (ms <= ttlMs ->
     exec (lookup ip) (later ms w') = (Resolved i, record (EvGetWithStale ip) (later ms w'))) /\
  (ttlMs < ms <= staleTtlMs ->
     exec (lookup ip) (later ms w')
     = (Resolved i,
        detach (background ip)
          (record (EvLog Debug "Serving stale data, revalidating in background" None)
             (record (EvGetWithStale ip) (later ms w'))))).
Proof.
  intros Hmiss Hrun.
  destruct (run_lookup_found ip w Hmiss) as (w1 & Hs & Hn & _ & _ & Hrun').
  rewrite Hrun in Hrun'. destruct (found ip) as [i'|]; [|discriminate].
  injection Hrun' as <- ->.
  assert (Hget : getWithStale ttlMs staleTtlMs ip
                   (later ms (record (EvCacheSet ip i) (cacheSet ip i w1)))
                 = if Z.leb ms ttlMs then (Some {| data := i; storedAt := now w1 |}, false)
                   else if Z.leb ms staleTtlMs
                        then (Some {| data := i; storedAt := now w1 |}, true)
                        else (None, false)).
  { unfold getWithStale. cbn. rewrite lookup_insert_eq. cbn.
    by replace (now w1 + ms - now w1) with ms by lia. }
  split.
  - intros Hms. apply Z.leb_le in Hms. rewrite Hms in Hget.
    by rewrite (run_lookup_hit _ _ _ _ Hget).
  - intros [Hlt Hle]. apply Z.leb_gt in Hlt. apply Z.leb_le in Hle. rewrite Hlt, Hle in Hget.
    by rewrite (run_lookup_hit _ _ _ _ Hget).
Qed.

Lemma attempts_requests ip msg1 msg2 w :
  fetches (log (exec (attempts ip msg1 msg2) w).2)
  = (if noInsightb (exec (fetchIpInfo ip) blank).1
     then secondaryFetches env encodeURIComponent ip else [])
    ++ primaryFetches env encodeURIComponent ip ++ fetches (log w).
Proof.
  unfold attempts. rewrite run_bind.
  pose proof (attempt_fetches ttlMs staleTtlMs net (fetchIpInfo ip) normalizeIpInfo msg1 w) as Hf.
  rewrite (fetchIpInfo_fetches env encodeURIComponent ttlMs staleTtlMs net) in Hf.
  pose proof (attempt_result ttlMs staleTtlMs net (fetchIpInfo ip) normalizeIpInfo msg1 w) as Hr.
  rewrite (NetLog_result _ _ _ _ w blank (NetLog_fetchIpInfoWorker env encodeURIComponent ip)) in Hr.
  destruct (exec (attempt (fetchIpInfo ip) normalizeIpInfo msg1) w) as [r1 w1].
  cbn in Hf, Hr. subst r1. unfold noInsightb.
  destruct (exec (fetchIpInfo ip) blank).1 as [[j|]|e]; cbn -[attempt].
  - destruct (truthy j); cbn -[attempt]; [done|].
    by rewrite (attempt_fetches ttlMs staleTtlMs net),
      (fetchRadar_fetches env encodeURIComponent ttlMs staleTtlMs net), Hf.
  - by rewrite (attempt_fetches ttlMs staleTtlMs net),
      (fetchRadar_fetches env encodeURIComponent ttlMs staleTtlMs net), Hf.
  - by rewrite (attempt_fetches ttlMs staleTtlMs net),
      (fetchRadar_fetches env encodeURIComponent ttlMs staleTtlMs net), Hf.
Qed.

(** X3.  The requests of a lookup, exactly.  A lookup that misses the cache
    sends the primary's request when the primary has its token, and after
    it the secondary's when the secondary has its credentials and the
    primary gave no insight, and nothing else; a lookup served from the
    cache sends none.  A background revalidation sends what a lookup that
    misses does. *)
Theorem lookup_requests (ip : string) (w : World) :
  let sent := (if noInsightb (exec (fetchIpInfo ip) w).1
               then secondaryFetches env encodeURIComponent ip else [])
              ++ primaryFetches env encodeURIComponent ip in
  fetches (log (exec (lookup ip) w).2)
  = match (getWithStale ttlMs staleTtlMs ip w).1 with
    | Some _ => []
    | None => sent
    end ++ fetches (log w) /\
  fetches (log (exec (revalidate ip) w).2) = sent ++ fetches (log w).
Proof.
  cbn zeta.
  rewrite (NetLog_result _ _ _ _ w blank (NetLog_fetchIpInfoWorker env encodeURIComponent ip)).
  split.
  - destruct (getWithStale ttlMs staleTtlMs ip w) as [[entry|] isStale] eqn:Hg.
    + rewrite (run_lookup_hit ip w entry isStale Hg). by destruct isStale.
    + cbn [fst].
      rewrite (run_lookup_miss env encodeURIComponent normalizeIpInfo normalizeRadar
                 ttlMs staleTtlMs net ip w) by (by rewrite Hg).
      rewrite (run_factory_miss env encodeURIComponent normalizeIpInfo normalizeRadar
                 ttlMs staleTtlMs net ip) by (by rewrite getWithStale_record, Hg).
      match goal with
      | |- context [exec (attempts ip ?m1 ?m2) ?w2] =>
          pose proof (attempts_requests ip m1 m2 w2) as Hf;
          destruct (exec (attempts ip m1 m2) w2) as [[[i|]|e] w1]
      end; unfold fetches in *; cbn in Hf |- *; by rewrite Hf, app_assoc.
  - rewrite (run_revalidate env encodeURIComponent normalizeIpInfo normalizeRadar
               ttlMs staleTtlMs net).
    match goal with
    | |- context [exec (attempts ip ?m1 ?m2) w] =>
        pose proof (attempts_requests ip m1 m2 w) as Hf;
        destruct (exec (attempts ip m1 m2) w) as [[[i|]|e] w1]
    end; unfold fetches in *; cbn in Hf |- *; by rewrite Hf, app_assoc.
Qed.

(** X6.  The token probe keeps to itself.  [verifyRadarToken] reads and writes
    no cache entry and starts nothing in the background; it sends one
    request, to the token verification endpoint of the account with the
    token as bearer, when both credentials are set, and none otherwise. *)
Theorem verifyRadarToken_probe (w : World) :
  let r := exec (verifyRadarToken env) w in
  store r.2 = store w /\ detached r.2 = detached w /\
  cacheSets (log r.2) = cacheSets (log w) /\
  fetches (log r.2)
  = match credential (CLOUDFLARE_ACCOUNT_ID env), credential (CLOUDFLARE_RADAR_TOKEN env) with
    | Some account, Some token => [EvFetch (verifyUrl account) (radarHeaders token)]
    | _, _ => []
    end ++ fetches (log w).
Proof.
  cbn zeta.
  pose proof (NetLog_untouched ttlMs staleTtlMs net _ (NetLog_verifyRadarToken env) w)
    as (Hs & _ & Hd & Hc).
  do 3 (split; [done|]). clear Hs Hd Hc.
  unfold verifyRadarToken.
  destruct (credential (CLOUDFLARE_ACCOUNT_ID env)) as [account|]; [|done].
  destruct (credential (CLOUDFLARE_RADAR_TOKEN env)) as [token|]; [|done].
  unfold fetchWithTimeout, json. cbn.
  destruct (net (verifyUrl account) (radarHeaders token)) as [e|resp]; cbn; [done|].
  destruct (ok resp); cbn; [|done].
  destruct (body resp) as [payload|]; cbn; [|done].
  destruct payload; cbn; done.
Qed.

End ServiceProperties.

(** ** The other routes *)

Section MoreRouteProperties.

Variable env : Env.
Variable encodeURIComponent : string -> string.
Variable normalizeIpInfo : Json -> NormalizedIpInsight.
Variable normalizeRadar : Json -> NormalizedIpInsight.
Variable ttlMs : Z.
Variable staleTtlMs : Z.
Variable net : string -> RequestInit -> FetchOutcome.

Local Abbreviation exec := (run ttlMs staleTtlMs net).
Local Abbreviation lookup := (lookupIpInsight env encodeURIComponent normalizeIpInfo normalizeRadar).
Local Abbreviation ipRoute := (getIp env encodeURIComponent normalizeIpInfo normalizeRadar).
Local Abbreviation legacyRoute := (getIpLegacy encodeURIComponent normalizeIpInfo normalizeRadar env).
Local Abbreviation clientRoute := (getClientIp encodeURIComponent normalizeIpInfo normalizeRadar env).

(** What the routes answer when the lookup has failed. *)
Local Abbreviation unavailable500 :=
  (jsonResponse (JObj [("error", JStr "Internal Server Error");
                       ("message", JStr "Unable to fetch IP intelligence")]) 500).

Lemma run_internalServerError msg e w :
  exec (internalServerError msg e) w
  = (Resolved (jsonResponse (JObj [("error", JStr "Internal Server Error");
                                   ("message", JStr (message e))]) 500),
     record (EvLog LogError msg (Some e)) w).
Proof. reflexivity. Qed.

(** X9.  The address route answers 400, 200 or 500 and nothing else.  It
    answers 400, having done nothing, exactly when the parameter is not a
    dotted quad; otherwise 200 with the insight, or 500 with the message of
    the lookup's one failure: an unavailable upstream is never answered
    with 502. *)
Theorem getIp_answers (param : option string) (w : World) :
  exists resp w',
    exec (ipRoute param) w = (Resolved resp, w') /\
    if invalidIp param
    then resp = jsonResponse (JObj [("error", JStr "Invalid IP address")]) 400 /\ w' = w
    else (exists insight, resp = jsonResponse (insightJson insight) 200) \/
         resp = unavailable500.
Proof.
  destruct (invalidIp param) eqn:Hinv.
  - eexists _, _. split; [by apply getIp_invalid|done].
  - destruct param as [ip|]; [|done].
    destruct (exec (lookup ip) w) as [[insight|e] w1] eqn:Hrun.
    + eexists _, _. split; [by eapply getIp_found|]. eauto.
    + pose proof (lookup_rejected env encodeURIComponent normalizeIpInfo normalizeRadar
                    ttlMs staleTtlMs net ip w e) as He.
      rewrite Hrun in He. specialize (He eq_refl). subst e.
      eexists _, _. split; [by eapply getIp_rejected|]. by right.
Qed.

Lemma sameEffects_log level msg err w : sameEffects (record (EvLog level msg err) w) w.
Proof. done. Qed.

(** X10.  The route without a version, [/api/ip/:ip], and [/api/v1/ip/:ip] give
    the same answer and have the same effects: they differ in the message
    they log when the lookup fails. *)
Theorem getIpLegacy_agrees (param : option string) (w : World) :
  sameRun (exec (legacyRoute param) w) (exec (ipRoute param) w).
Proof.
  unfold getIpLegacy, getIp. rewrite !run_tryCatch.
  match goal with
  | |- context [exec ?body w] => destruct (exec body w) as [[resp|e] w1]
  end.
  - split; [done|apply sameEffects_refl].
  - rewrite !run_internalServerError. split; [done|].
    eapply sameEffects_trans; [apply sameEffects_log|].
    apply sameEffects_sym, sameEffects_log.
Qed.

(** X12.  The client route validates nothing.  It never answers 400: it looks
    up whatever address the headers give it, the first thing it does being
    to read the cache under that address, and answers 200 with the insight
    or 500 when the lookup failed. *)
Theorem getClientIp_answers (cfConnectingIp xForwardedFor : option string) (w : World) :
  exists resp w' evs,
    exec (clientRoute cfConnectingIp xForwardedFor) w = (Resolved resp, w') /\
    ((exists insight, resp = jsonResponse (insightJson insight) 200) \/
     resp = unavailable500) /\
    log w' = evs ++ EvGetWithStale (clientIp cfConnectingIp xForwardedFor) :: log w.
Proof.
  unfold getClientIp. rewrite run_tryCatch, run_bind. cbn zeta.
  set (ip := clientIp cfConnectingIp xForwardedFor).
  destruct (lookup_reads_first env encodeURIComponent normalizeIpInfo normalizeRadar
              ttlMs staleTtlMs net ip w) as [evs Hlog].
  pose proof (lookup_rejected env encodeURIComponent normalizeIpInfo normalizeRadar
                ttlMs staleTtlMs net ip w) as He.
  destruct (exec (lookup ip) w) as [[insight|e] w1]; cbn in Hlog.
  - eexists _, _, evs. split; [reflexivity|]. split; [eauto|done].
  - rewrite (He e eq_refl), run_internalServerError.
    eexists _, _, (_ :: evs). split; [reflexivity|]. split; [by right|].
    cbn. by rewrite Hlog.
Qed.

(** X13.  The status route always answers 200 with [geolocation] true: the probe
    never throws, so the answer of the [catch] is never given.  Threat
    intelligence and ASN analysis are reported as the probe found the
    Radar token, and they are reported up only when the token is set. *)
Theorem getServicesStatus_answer (abuseipdbApiKey : option string) (w : World) :
  exists radarHealthy w',
    exec (verifyRadarToken env) w = (Resolved radarHealthy, w') /\
    exec (getServicesStatus env abuseipdbApiKey) w
    = (Resolved
         (jsonResponse
            (JObj [("geolocation", JBool true);
                   ("threat_intelligence", JBool radarHealthy);
                   ("asn_analysis", JBool radarHealthy);
                   ("ipinfo", JBool (isSet (IPINFO_TOKEN env)));
                   ("radar", JBool (isSet (CLOUDFLARE_RADAR_TOKEN env)));
                   ("abuseipdb", JBool (isSet abuseipdbApiKey))])
            200),
       w') /\
    (radarHealthy = true -> isSet (CLOUDFLARE_RADAR_TOKEN env) = true).
Proof.
  destruct (verifyRadarToken_resolves env ttlMs staleTtlMs net w) as (b & w' & Hrun).
  exists b, w'. split; [done|]. split.
  - unfold getServicesStatus. rewrite run_tryCatch, run_bind, Hrun. reflexivity.
  - intros ->. eapply verifyRadarToken_true. by rewrite Hrun.
Qed.

Section Report.

Variable generateReport :
  Json -> option string -> (string -> Async NormalizedIpInsight) -> Async Json.

Local Abbreviation reportRoute :=
  (postReport encodeURIComponent normalizeIpInfo normalizeRadar env generateReport).

(** X14.  The report route, whatever [generateReport] does.  A body that is not
    JSON is answered 500, not 400, with the parser's message; a body with
    no fingerprint (null, a number, a text, a list, or an object whose
    [fingerprint] is missing or falsy) is answered 400 before anything is
    done; and the route itself never throws: it answers 200, 400 or 500. *)
Theorem postReport_answers (parsed : Outcome Json) (cfConnectingIp : option string)
    (w : World) :
  (forall e, parsed = Rejected e ->
     exec (reportRoute parsed cfConnectingIp) w
     = (Resolved (jsonResponse (JObj [("error", JStr "Internal Server Error");
                                      ("message", JStr (message e))]) 500),
        record (EvLog LogError "Report generation failed" (Some e)) w)) /\
  (forall body, parsed = Resolved body ->
     truthyOpt (field "fingerprint" body) = false ->
     exec (reportRoute parsed cfConnectingIp) w
     = (Resolved (jsonResponse (JObj [("error", JStr "Missing fingerprint data")]) 400), w)) /\
  (exists resp w',
     exec (reportRoute parsed cfConnectingIp) w = (Resolved resp, w') /\
     In (status resp) [200; 400; 500]).
Proof.
  unfold postReport. rewrite run_tryCatch, run_bind, run_settle.
  split; [|split].
  - by intros e ->.
  - intros body -> Hf. by rewrite Hf.
  - destruct parsed as [body|e]; [|eexists _, _; split; [reflexivity|cbn; tauto]].
    destruct (truthyOpt (field "fingerprint" body)); cbn -[mbind In];
      [|eexists _, _; split; [reflexivity|cbn; tauto]].
    rewrite run_bind.
    destruct (exec (generateReport body cfConnectingIp lookup) w) as [[report|e] w1];
      eexists _, _; (split; [reflexivity|cbn; tauto]).
Qed.

End Report.


(** X19.  What the Express error handler makes of a failed lookup.  Whatever
    makes [lookupIpInsight] reject, [errorHandler] answers it with status
    502 and the message of the failure, and logs it as an unhandled error:
    the providers' own errors never reach the client. *)
Theorem errorHandler_on_lookup_failure (ip : string) (w w1 : World) (e : JsError) :
  exec (lookup ip) w = (Rejected e, w1) ->
  exec (Express.errorHandler e) w1
  = (Resolved (jsonResponse (JObj [("error", JStr "Unable to fetch IP intelligence")]) 502),
     record (EvLog LogError "Unhandled error" (Some e)) w1).
Proof.
  intros Hrun.
  pose proof (lookup_rejected env encodeURIComponent normalizeIpInfo normalizeRadar
                ttlMs staleTtlMs net ip w e) as He.
  rewrite Hrun in He. by rewrite (He eq_refl).
Qed.

(** X20.  The probe of the Express health route.  With a Radar credential
    missing the route does not call the probe: it reports [radarHealthy]
    as null and changes nothing.  With both set it reports what the probe
    resolves to, and a probe that rejects makes the route reject: the
    route has no [catch]. *)
Theorem Express_health_probe (config : Express.Config) (appVersion : string) (uptime : Z)
    (verify : Async bool) (cacheWarmer : Express.CacheWarmer) (w : World) :
  let configured := isSet (Express.CLOUDFLARE_ACCOUNT_ID config)
                    && isSet (Express.CLOUDFLARE_RADAR_TOKEN config) in
  let answer := exec (Express.health config appVersion uptime verify cacheWarmer) w in
  (configured = false ->
     exists report,
       answer = (Resolved (jsonResponse report 200), w) /\
       field "radarHealthy" report = Some JNull) /\
  (configured = true ->
     match exec verify w with
     | (Resolved healthy, w1) =>
         exists report,
           answer = (Resolved (jsonResponse report 200), w1) /\
           field "radarHealthy" report = Some (JBool healthy)
     | (Rejected e, w1) => answer = (Rejected e, w1)
     end).
Proof.
  cbn zeta. unfold isSet, Express.health. rewrite run_bind.
  destruct (credential (Express.CLOUDFLARE_ACCOUNT_ID config)) as [account|];
    [destruct (credential (Express.CLOUDFLARE_RADAR_TOKEN config)) as [token|]|].
  - split; [by rewrite !bool_decide_eq_true_2 by eauto|]. intros _.
    rewrite run_bind. destruct (exec verify w) as [[healthy|e] w1]; [|done].
    eexists. split; reflexivity.
  - split; [|by rewrite andb_comm, bool_decide_eq_false_2 by (by intros [? ?])].
    intros _. eexists. split; reflexivity.
  - split; [|by rewrite bool_decide_eq_false_2 by (by intros [? ?])].
    intros _. eexists. split; reflexivity.
Qed.

(** X17.  The isolate has one service.  [getWorkerIpService] builds the service
    from the bindings of the first request and hands that same service to
    every later request, whatever bindings it comes with. *)
Theorem getWorkerIpService_once (env1 : Env) (envs : list Env) (initialized : bool) :
  servicesOf encodeURIComponent normalizeIpInfo normalizeRadar (env1 :: envs)
    {| ipCacheInitialized := initialized; workerServices := None |}
  = replicate (S (length envs))
      (createWorkerIpService encodeURIComponent normalizeIpInfo normalizeRadar env1).
Proof.
  cbn. f_equal.
  generalize (createWorkerIpService encodeURIComponent normalizeIpInfo normalizeRadar env1).
  intros services. induction envs as [|env2 envs IH]; [done|]. cbn. by rewrite IH.
Qed.

End MoreRouteProperties.

(** * Worked scenarios *)

Module Demo.

(** The defaults of [createWorkerIpService]: five and thirty minutes. *)
Definition ttlMs : Z := 5 * 60 * 1000.
Definition staleTtlMs : Z := 30 * 60 * 1000.

Definition env : Env :=
  {| IPINFO_TOKEN := Some "ipinfo-token";
     CLOUDFLARE_ACCOUNT_ID := Some "account";
     CLOUDFLARE_RADAR_TOKEN := Some "radar-token";
     CACHE_BACKEND := Some "kv" |}.

Definition unconfigured : Env :=
  {| IPINFO_TOKEN := None;
     CLOUDFLARE_ACCOUNT_ID := None;
     CLOUDFLARE_RADAR_TOKEN := None;
     CACHE_BACKEND := None |}.

Definition stringField (name : string) (j : Json) : option string :=
  match field name j with
  | Some (JStr s) => Some s
  | _ => None
  end.

(** A normalizer that copies the fields it knows. *)
Definition normalize (j : Json) : NormalizedIpInsight :=
  {| ip := default "" (stringField "ip" j);
     country := stringField "country" j;
     region := stringField "region" j;
     city := stringField "city" j;
     timezone := stringField "timezone" j;
     org := stringField "org" j;
     loc := stringField "loc" j |}.

Definition google : Json :=
  JObj [("ip", JStr "8.8.8.8"); ("country", JStr "US"); ("org", JStr "Google LLC")].

Definition insight : NormalizedIpInsight := normalize google.

Definition isIpinfo (url : string) : bool := String.prefix "https://ipinfo.io/" url.

(** Nothing answers. *)
Definition unreachable (url : string) (init : RequestInit) : FetchOutcome :=
  FetchRejects (TypeError "fetch failed").

(** ipinfo answers; Radar does not. *)
Definition primaryUp (url : string) (init : RequestInit) : FetchOutcome :=
  if isIpinfo url
  then FetchResponds {| status := 200; body := Some google |}
  else FetchRejects (TypeError "fetch failed").

(** ipinfo answers 500; Radar answers with the insight. *)
Definition primaryDown (url : string) (init : RequestInit) : FetchOutcome :=
  if isIpinfo url
  then FetchResponds {| status := 500; body := None |}
  else FetchResponds
         {| status := 200;
            body := Some (JObj [("success", JBool true); ("result", google)]) |}.

(** ipinfo answers 503; Radar answers an unsuccessful envelope. *)
Definition bothDown (url : string) (init : RequestInit) : FetchOutcome :=
  if isIpinfo url
  then FetchResponds {| status := 503; body := None |}
  else FetchResponds {| status := 200; body := Some (JObj [("success", JBool false)]) |}.

(** Cloudflare accepts the token. *)
Definition tokenValid (url : string) (init : RequestInit) : FetchOutcome :=
  FetchResponds {| status := 200; body := Some (JObj [("success", JBool true)]) |}.

Definition empty : World := {| store := ∅; now := 1000; log := []; detached := [] |}.

Definition entry : CacheEntry := {| data := insight; storedAt := 0 |}.

(** The insight was cached at time 0; it is now [t]. *)
Definition cachedAt (t : Z) : World :=
  {| store := {["8.8.8.8" := entry]}; now := t; log := []; detached := [] |}.

Definition fresh : World := cachedAt 1000.
Definition stale : World := cachedAt (10 * 60 * 1000).

Definition lookup (e : Env) : Async NormalizedIpInsight :=
  lookupIpInsight e id normalize normalize "8.8.8.8".

Lemma lookup_total_failure_witness :
  exists w',
    run ttlMs staleTtlMs bothDown (lookup env) empty
    = (Rejected (ApiError 502 "Unable to fetch IP intelligence"), w') /\
    store w' = store empty /\
    cacheSets (log w') = cacheSets (log empty).
Proof.
  apply (lookup_total_failure env id normalize normalize ttlMs staleTtlMs bothDown
           "8.8.8.8" empty); [reflexivity|exact I|exact I].
Defined.

Lemma lookup_fallback_order_witness :
  (exists token w',
     credential (IPINFO_TOKEN env) = Some token /\
     run ttlMs staleTtlMs primaryUp (lookup env) empty = (Resolved insight, w') /\
     store w' = <["8.8.8.8" := {| data := insight; storedAt := 1000 |}]> (store empty) /\
     fetches (log w') = [EvFetch (ipinfoUrl id "8.8.8.8" token) ipinfoInit] ++ fetches (log empty))
  /\
  (exists token account radarToken w',
     credential (IPINFO_TOKEN env) = Some token /\
     credential (CLOUDFLARE_ACCOUNT_ID env) = Some account /\
     credential (CLOUDFLARE_RADAR_TOKEN env) = Some radarToken /\
     run ttlMs staleTtlMs primaryDown (lookup env) empty = (Resolved insight, w') /\
     store w' = <["8.8.8.8" := {| data := insight; storedAt := 1000 |}]> (store empty) /\
     fetches (log w') =
       [EvFetch (radarUrl id account "8.8.8.8") (radarHeaders radarToken);
        EvFetch (ipinfoUrl id "8.8.8.8" token) ipinfoInit] ++ fetches (log empty))
  /\
  (exists evs,
     fetches (log (run ttlMs staleTtlMs bothDown (lookup env) empty).2)
       = evs ++ fetches (log empty) /\
     (evs = primaryFetches env id "8.8.8.8" \/
      evs = secondaryFetches env id "8.8.8.8" ++ primaryFetches env id "8.8.8.8")).
Proof.
  split; [|split].
  - apply (proj1 (lookup_fallback_order env id normalize normalize ttlMs staleTtlMs primaryUp
                    "8.8.8.8" empty eq_refl) google); reflexivity.
  - apply (proj1 (proj2 (lookup_fallback_order env id normalize normalize ttlMs staleTtlMs
                           primaryDown "8.8.8.8" empty eq_refl))
             (Error "ipinfo request failed: 500") google); reflexivity.
  - apply (proj2 (proj2 (lookup_fallback_order env id normalize normalize ttlMs staleTtlMs
                           bothDown "8.8.8.8" empty eq_refl))).
Defined.

Lemma lookup_cache_hit_witness :
  (let r := run ttlMs staleTtlMs unreachable (lookup env) fresh in
   r.1 = Resolved insight /\ r.2 = record (EvGetWithStale "8.8.8.8") fresh)
  /\
  (let r := run ttlMs staleTtlMs unreachable (lookup env) stale in
   r.1 = Resolved insight /\
   fetches (log r.2) = [] /\
   detached r.2 = [backgroundRevalidation env id normalize normalize "8.8.8.8"]).
Proof.
  split.
  - destruct (lookup_cache_hit env id normalize normalize ttlMs staleTtlMs unreachable
                "8.8.8.8" fresh entry false eq_refl) as (H1 & H2 & _).
    split; [exact H1|exact H2].
  - destruct (lookup_cache_hit env id normalize normalize ttlMs staleTtlMs unreachable
                "8.8.8.8" stale entry true eq_refl) as (H1 & _ & H3 & _ & H5 & _).
    split; [exact H1|]. split; [exact H3|exact H5].
Defined.

Lemma factory_recheck_witness :
  run ttlMs staleTtlMs unreachable (lookupFactory env id normalize normalize "8.8.8.8") stale
  = (Resolved insight, record (EvGetWithStale "8.8.8.8") stale).
Proof.
  apply (proj1 (factory_recheck env id normalize normalize ttlMs staleTtlMs unreachable
                  "8.8.8.8" stale) entry true).
  reflexivity.
Defined.

Lemma revalidation_failure_is_silent_witness :
  (let r := run ttlMs staleTtlMs unreachable
              (backgroundRevalidation env id normalize normalize "8.8.8.8") stale in
   r.1 = Resolved tt /\
   store r.2 = store stale /\
   cacheSets (log r.2) = cacheSets (log stale) /\
   EvLog Warn "ipinfo revalidation failed" (Some (TypeError "fetch failed")) ∈ log r.2 /\
   EvLog Warn "Cloudflare Radar revalidation failed" (Some (TypeError "fetch failed"))
     ∈ log r.2)
  /\
  store (run ttlMs staleTtlMs primaryDown
           (backgroundRevalidation env id normalize normalize "8.8.8.8") stale).2
  = <["8.8.8.8" := {| data := insight; storedAt := 10 * 60 * 1000 |}]> (store stale).
Proof.
  split.
  - destruct (revalidation_failure_is_silent env id normalize normalize ttlMs staleTtlMs
                unreachable "8.8.8.8" stale) as (H1 & _ & H3 & H4 & H5 & _).
    split; [exact H1|].
    destruct (H5 I I) as [Hs Hc].
    split; [exact Hs|]. split; [exact Hc|].
    split; [exact (H3 _ eq_refl)|exact (H4 _ I eq_refl)].
  - destruct (revalidation_failure_is_silent env id normalize normalize ttlMs staleTtlMs
                primaryDown "8.8.8.8" stale) as (_ & _ & _ & _ & _ & _ & H7).
    exact (H7 google I eq_refl eq_refl).
Defined.

Lemma provider_fetch_outcomes_witness :
  run ttlMs staleTtlMs unreachable (fetchIpInfoWorker unconfigured id "8.8.8.8") empty
  = (Resolved None, empty) /\
  run ttlMs staleTtlMs unreachable (fetchRadarWorker unconfigured id "8.8.8.8") empty
  = (Resolved None, empty) /\
  (run ttlMs staleTtlMs primaryDown (fetchIpInfoWorker env id "8.8.8.8") empty).1
  = Rejected (Error "ipinfo request failed: 500") /\
  (run ttlMs staleTtlMs primaryUp (fetchIpInfoWorker env id "8.8.8.8") empty).1
  = Resolved (Some google) /\
  (run ttlMs staleTtlMs bothDown (fetchRadarWorker env id "8.8.8.8") empty).1
  = Rejected (Error "Radar lookup unsuccessful") /\
  (run ttlMs staleTtlMs primaryDown (fetchRadarWorker env id "8.8.8.8") empty).1
  = Resolved (Some google).
Proof.
  destruct (provider_fetch_outcomes unconfigured id ttlMs staleTtlMs unreachable
              "8.8.8.8" empty) as (Ha & _ & Hb & _).
  destruct (provider_fetch_outcomes env id ttlMs staleTtlMs primaryDown
              "8.8.8.8" empty) as (_ & Hc & _ & Hd).
  destruct (provider_fetch_outcomes env id ttlMs staleTtlMs primaryUp
              "8.8.8.8" empty) as (_ & He & _ & _).
  destruct (provider_fetch_outcomes env id ttlMs staleTtlMs bothDown
              "8.8.8.8" empty) as (_ & _ & _ & Hf).
  split; [exact (Ha eq_refl)|]. split; [exact (Hb (or_introl eq_refl))|].
  split; [exact (f_equal fst (proj1 (Hc _ _ eq_refl eq_refl) eq_refl))|].
  split; [exact (f_equal fst (proj2 (He _ _ eq_refl eq_refl) google eq_refl eq_refl))|].
  split.
  - exact (f_equal fst (proj1 (proj2 (Hf _ _ _ eq_refl eq_refl eq_refl))
                          [("success", JBool false)] eq_refl eq_refl eq_refl)).
  - exact (f_equal fst (proj2 (proj2 (Hd _ _ _ eq_refl eq_refl eq_refl))
                          [("success", JBool true); ("result", google)]
                          eq_refl eq_refl eq_refl)).
Defined.

Lemma verifyRadarToken_never_throws_witness :
  (exists b w',
     run ttlMs staleTtlMs tokenValid (verifyRadarToken env) empty = (Resolved b, w') /\
     b = true)
  /\
  (exists b w',
     run ttlMs staleTtlMs unreachable (verifyRadarToken env) empty = (Resolved b, w') /\
     b = false).
Proof.
  split.
  - destruct (verifyRadarToken_never_throws env ttlMs staleTtlMs tokenValid empty)
      as (b & w' & Hrun & _ & Hflag).
    exists b, w'. split; [exact Hrun|].
    exact (Hflag "account" "radar-token" _ [("success", JBool true)] true
             eq_refl eq_refl eq_refl eq_refl eq_refl eq_refl).
  - destruct (verifyRadarToken_never_throws env ttlMs staleTtlMs unreachable empty)
      as (b & w' & Hrun & Hiff & _).
    exists b, w'. split; [exact Hrun|].
    destruct b; [|reflexivity].
    destruct (proj1 Hiff eq_refl) as (account & token & r & fields & _ & _ & Hnet & _).
    discriminate Hnet.
Defined.

(** Three callers at once; the interleaving lets the factory take turns
    while the others are still arriving. *)
Definition arrive : list Choice :=
  [StepCaller 0; StepCaller 1; StepCaller 0; StepFactory "ip:8.8.8.8";
   StepCaller 2; StepCaller 1; StepFactory "ip:8.8.8.8"; StepCaller 2]%nat.

Definition resolve : list Choice :=
  replicate 4 (StepFactory "ip:8.8.8.8") ++ [StepCaller 1; StepCaller 0; StepCaller 2]%nat.

Lemma concurrent_lookups_share_one_resolution_witness :
  let s1 := schedule ttlMs staleTtlMs primaryDown arrive
              (start (replicate 3 (lookup env)) empty) in
  let s2 := schedule ttlMs staleTtlMs primaryDown resolve s1 in
  (exists p, pending s1 = {["ip:8.8.8.8" := Running p]}) /\
  pending s2 = ∅ /\
  invoked s2 = 1%nat /\
  callers s2 = replicate 3 (Settled (Resolved insight)) /\
  store (world s2) = store (run ttlMs staleTtlMs primaryDown (lookup env) empty).2.
Proof.
  destruct (concurrent_lookups_share_one_resolution env id normalize normalize
              ttlMs staleTtlMs primaryDown "8.8.8.8" empty 3 eq_refl) as [_ Hall]; [lia|].
  destruct (Hall arrive resolve) as (H1 & H2 & H3 & H4 & H5 & _).
  - vm_compute. repeat constructor.
  - vm_compute. repeat constructor.
  - split; [exact H1|]. split; [exact H2|]. split; [exact H3|]. split; [exact H4|exact H5].
Defined.

(** C4, as stated: two concurrent lookups of a never-cached address, with
    ipinfo answering 500 and Radar answering.  Both settle, one factory was
    invoked, and the network saw two requests, not one. *)
Lemma concurrent_lookups_send_two_requests :
  let s := schedule ttlMs staleTtlMs primaryDown
             ([StepCaller 0; StepCaller 1; StepCaller 0; StepCaller 1]%nat
              ++ replicate 6 (StepFactory "ip:8.8.8.8")
              ++ [StepCaller 0; StepCaller 1]%nat)
             (start [lookup env; lookup env] empty) in
  store empty !! "8.8.8.8" = None /\
  callers s = [Settled (Resolved insight); Settled (Resolved insight)] /\
  invoked s = 1%nat /\
  fetches (log (world s)) =
    [EvFetch "https://api.cloudflare.com/client/v4/accounts/account/intelligence/ip?ip=8.8.8.8"
       (radarHeaders "radar-token");
     EvFetch "https://ipinfo.io/8.8.8.8/json?token=ipinfo-token" ipinfoInit] /\
  length (fetches (log (world s))) = 2%nat.
Proof. vm_compute. repeat split. Qed.

(** The pattern of the IP routes looks at the shape only: four groups of
    one to three digits. *)
Example ipPattern_examples :
  Regex.test ipPattern "8.8.8.8" = true /\
  Regex.test ipPattern "192.168.100.1" = true /\
  Regex.test ipPattern "999.999.999.999" = true /\
  Regex.test ipPattern "1.2.3" = false /\
  Regex.test ipPattern "1.2.3.4.5" = false /\
  Regex.test ipPattern "1234.1.1.1" = false /\
  Regex.test ipPattern "a.b.c.d" = false /\
  Regex.test ipPattern "1.2.3.4 " = false /\
  Regex.test ipPattern "::1" = false /\
  Regex.test ipPattern "" = false.
Proof. vm_compute. repeat split. Qed.

(** C9.  The route [GET /api/v1/ip/:ip] of the worker.  A malformed
    address is answered 400 and nothing else happens; an address the
    service resolves is answered 200 with the insight as JSON.  When both
    providers fail the service rejects with [ApiError 502], and the route
    answers 500 with that error's message, not 502; the Express error
    handler, given the same error, answers 502. *)
Theorem getIp_total_failure_answers_500 :
  let route := getIp env id normalize normalize in
  let unavailable := ApiError 502 "Unable to fetch IP intelligence" in
  run ttlMs staleTtlMs bothDown (route (Some "8.8.8.8.8")) empty
  = (Resolved (jsonResponse (JObj [("error", JStr "Invalid IP address")]) 400), empty) /\
  (run ttlMs staleTtlMs primaryUp (route (Some "8.8.8.8")) empty).1
  = Resolved (jsonResponse (insightJson insight) 200) /\
  (run ttlMs staleTtlMs bothDown (lookup env) empty).1 = Rejected unavailable /\
  (run ttlMs staleTtlMs bothDown (route (Some "8.8.8.8")) empty).1
  = Resolved (jsonResponse
                (JObj [("error", JStr "Internal Server Error");
                       ("message", JStr "Unable to fetch IP intelligence")])
                500) /\
  (run ttlMs staleTtlMs bothDown (Express.errorHandler unavailable) empty).1
  = Resolved (jsonResponse (JObj [("error", JStr "Unable to fetch IP intelligence")]) 502).
Proof. vm_compute. repeat split. Qed.

(** ** The rest of the code *)

Lemma accepted_address_shape_witness :
  exists s, Some "8.8.8.8" = Some s /\
    digitsAndDots s = true /\ (7 <= String.length s <= 15)%nat.
Proof. apply (accepted_address_shape (Some "8.8.8.8")). reflexivity. Defined.


(** An insight with coordinates. *)
Definition mountainView : NormalizedIpInsight :=
  {| ip := "8.8.8.8"; country := Some "US"; region := None; city := Some "";
     timezone := None; org := Some "Google LLC"; loc := Some "37.4056,-122.0775" |}.

Lemma enhancedAnalysis_coordinates_witness :
  exists geolocation,
    field "geolocation" (enhancedAnalysis "8.8.8.8" mountainView "2024-01-01T00:00:00.000Z")
    = Some geolocation /\
    field "latitude" geolocation = Some (JStr "37.4056") /\
    field "longitude" geolocation = Some (JStr "-122.0775").
Proof.
  destruct (enhancedAnalysis_coordinates "8.8.8.8" mountainView "2024-01-01T00:00:00.000Z")
    as (geolocation & Hgeo & Hloc & _).
  exists geolocation. split; [exact Hgeo|].
  apply (Hloc "37.4056" "-122.0775"); reflexivity.
Defined.

Definition panels : list (string * Web.Panel) :=
  [("browser", {| Web.score := 90; Web.status := "trustworthy" |});
   ("location", {| Web.score := 85; Web.status := "suspicious" |});
   ("ipAddress", {| Web.score := 80; Web.status := "trustworthy" |})].

Lemma overallScore_between_witness : 80 <= Web.overallScore (Some panels) <= 90.
Proof.
  apply (overallScore_between panels 80 90).
  - discriminate.
  - repeat constructor; cbn; lia.
Defined.

Lemma lookup_rejects_only_unavailable_witness :
  ApiError 502 "Unable to fetch IP intelligence" = ApiError 502 "Unable to fetch IP intelligence" /\
  (getWithStale ttlMs staleTtlMs "8.8.8.8" empty).1 = None /\
  noInsight (run ttlMs staleTtlMs bothDown (fetchIpInfoWorker env id "8.8.8.8") empty).1 /\
  noInsight (run ttlMs staleTtlMs bothDown (fetchRadarWorker env id "8.8.8.8") empty).1.
Proof.
  apply (lookup_rejects_only_unavailable env id normalize normalize ttlMs staleTtlMs bothDown
           "8.8.8.8" empty (ApiError 502 "Unable to fetch IP intelligence")).
  reflexivity.
Defined.

Lemma revalidation_stores_what_lookup_returns_witness :
  let r := run ttlMs staleTtlMs primaryUp
             (revalidateIpInsight env id normalize normalize "8.8.8.8") stale in
  store r.2 = <["8.8.8.8" := {| data := insight; storedAt := now stale |}]> (store stale) /\
  cacheSets (log r.2) = EvCacheSet "8.8.8.8" insight :: cacheSets (log stale).
Proof.
  exact (revalidation_stores_what_lookup_returns env id normalize normalize ttlMs staleTtlMs
           primaryUp "8.8.8.8" stale empty eq_refl).
Defined.

(** The world a first lookup leaves when ipinfo answers. *)
Definition looked : World := (run ttlMs staleTtlMs primaryUp (lookup env) empty).2.

Lemma lookup_then_served_from_cache_witness :
  run ttlMs staleTtlMs primaryUp (lookup env) (later 1000 looked)
  = (Resolved insight, record (EvGetWithStale "8.8.8.8") (later 1000 looked)) /\
  run ttlMs staleTtlMs primaryUp (lookup env) (later 600000 looked)
  = (Resolved insight,
     detach (backgroundRevalidation env id normalize normalize "8.8.8.8")
       (record (EvLog Debug "Serving stale data, revalidating in background" None)
          (record (EvGetWithStale "8.8.8.8") (later 600000 looked)))).
Proof.
  split.
  - apply (proj1 (lookup_then_served_from_cache env id normalize normalize ttlMs staleTtlMs
                    primaryUp "8.8.8.8" empty looked insight 1000 eq_refl eq_refl)).
    unfold ttlMs. lia.
  - apply (proj2 (lookup_then_served_from_cache env id normalize normalize ttlMs staleTtlMs
                    primaryUp "8.8.8.8" empty looked insight 600000 eq_refl eq_refl)).
    unfold ttlMs, staleTtlMs. lia.
Defined.

Lemma getServicesStatus_answer_witness :
  exists radarHealthy w',
    run ttlMs staleTtlMs tokenValid (verifyRadarToken env) empty = (Resolved radarHealthy, w') /\
    radarHealthy = true /\
    isSet (CLOUDFLARE_RADAR_TOKEN env) = true.
Proof.
  destruct (getServicesStatus_answer env ttlMs staleTtlMs tokenValid None empty)
    as (radarHealthy & w' & Hverify & _ & Hset).
  assert (Htrue : radarHealthy = true).
  { vm_compute in Hverify. by injection Hverify as <- _. }
  exists radarHealthy, w'. split; [exact Hverify|]. split; [exact Htrue|exact (Hset Htrue)].
Defined.

(** A report generator that asks for nothing. *)
Definition noReport (body : Json) (clientIp : option string)
    (lookupIp : string -> Async NormalizedIpInsight) : Async Json :=
  Return (JObj [("verdict", JStr "trustworthy")]).

Lemma postReport_answers_witness :
  run ttlMs staleTtlMs unreachable
    (postReport id normalize normalize env noReport
       (Rejected (SyntaxError "Unexpected end of JSON input")) None) empty
  = (Resolved (jsonResponse (JObj [("error", JStr "Internal Server Error");
                                   ("message", JStr "Unexpected end of JSON input")]) 500),
     record (EvLog LogError "Report generation failed"
               (Some (SyntaxError "Unexpected end of JSON input"))) empty) /\
  run ttlMs staleTtlMs unreachable
    (postReport id normalize normalize env noReport (Resolved (JArr [JNum 1])) None) empty
  = (Resolved (jsonResponse (JObj [("error", JStr "Missing fingerprint data")]) 400), empty).
Proof.
  split.
  - apply (proj1 (postReport_answers env id normalize normalize ttlMs staleTtlMs unreachable
                    noReport (Rejected (SyntaxError "Unexpected end of JSON input")) None empty)
             (SyntaxError "Unexpected end of JSON input") eq_refl).
  - apply (proj1 (proj2 (postReport_answers env id normalize normalize ttlMs staleTtlMs
                           unreachable noReport (Resolved (JArr [JNum 1])) None empty))
             (JArr [JNum 1]) eq_refl eq_refl).
Defined.


Lemma errorHandler_on_lookup_failure_witness :
  run ttlMs staleTtlMs bothDown (Express.errorHandler (ApiError 502 "Unable to fetch IP intelligence"))
    (run ttlMs staleTtlMs bothDown (lookup env) empty).2
  = (Resolved (jsonResponse (JObj [("error", JStr "Unable to fetch IP intelligence")]) 502),
     record (EvLog LogError "Unhandled error"
               (Some (ApiError 502 "Unable to fetch IP intelligence")))
       (run ttlMs staleTtlMs bothDown (lookup env) empty).2).
Proof.
  apply (errorHandler_on_lookup_failure env id normalize normalize ttlMs staleTtlMs bothDown
           "8.8.8.8" empty). reflexivity.
Defined.

Definition production : Express.Config :=
  {| Express.NODE_ENV := "production";
     Express.IPINFO_TOKEN := Some "ipinfo-token";
     Express.CLOUDFLARE_ACCOUNT_ID := Some "account";
     Express.CLOUDFLARE_RADAR_TOKEN := None;
     Express.CACHE_BACKEND := "memory";
     Express.CACHE_WARMING_ENABLED := false |}.

Definition idle : Express.CacheWarmer :=
  {| Express.isInProgress := false; Express.getWarmedCount := 0 |}.

Lemma Express_health_probe_witness :
  exists report,
    run ttlMs staleTtlMs unreachable
      (Express.health production "1.0.0" 42 (Throw (Error "probe failed")) idle) empty
    = (Resolved (jsonResponse report 200), empty) /\
    field "radarHealthy" report = Some JNull.
Proof.
  apply (proj1 (Express_health_probe ttlMs staleTtlMs unreachable production "1.0.0" 42
                  (Throw (Error "probe failed")) idle empty)).
  reflexivity.
Defined.

End Demo.
